(** * MyStory backend: authenticated content-encryption pipeline

    A shallow embedding of the encryption service, the JWT service, the
    authentication middleware, the Section model and the book controller,
    followed by the properties established about them. *)

From Stdlib Require Import ZArith List Bool Lia String Ascii Permutation Btauto.
Import ListNotations.
Open Scope Z_scope.

(* ================================================================== *)
(** ** JavaScript strings *)
(* ================================================================== *)

(** A JavaScript string is a sequence of UTF-16 code units. *)
Definition jsstring := list Z.

(** ASCII literal to JavaScript string. *)
Definition js (s : string) : jsstring :=
  map (fun a => Z.of_N (N_of_ascii a)) (list_ascii_of_string s).

Definition is_code_unit (c : Z) : Prop := 0 <= c < 65536.

Fixpoint jsstring_eqb (a b : jsstring) : bool :=
  match a, b with
  | [], [] => true
  | x :: a', y :: b' => (x =? y) && jsstring_eqb a' b'
  | _, _ => false
  end.

(** ECMAScript WhiteSpace and LineTerminator code points; the set used both
    by [String.prototype.trim] and by the regular expression class [\s]. *)
Definition is_ws (c : Z) : bool :=
  ((9 <=? c) && (c <=? 13))
  || (c =? 32) || (c =? 160) || (c =? 5760)
  || ((8192 <=? c) && (c <=? 8202))
  || (c =? 8232) || (c =? 8233) || (c =? 8239) || (c =? 8287)
  || (c =? 12288) || (c =? 65279).

Fixpoint trimStart (s : jsstring) : jsstring :=
  match s with
  | [] => []
  | c :: r => if is_ws c then trimStart r else s
  end.

Definition trimEnd (s : jsstring) : jsstring := rev (trimStart (rev s)).

(** [s.trim()] *)
Definition trim (s : jsstring) : jsstring := trimEnd (trimStart s).

(** [s.split(/\s+/)]: the splitter scans left to right; at a white-space code
    unit the greedy match [\s+] consumes the whole run, the piece collected so
    far is emitted and scanning resumes after the run; the piece left at the
    end of the string is always emitted.  [insep] tells that the scan is
    inside a run that has already emitted its piece; [cur] is the current
    piece, reversed. *)
Fixpoint split_ws_from (insep : bool) (cur : jsstring) (s : jsstring)
  : list jsstring :=
  match s with
  | [] => [rev cur]
  | c :: r =>
      if is_ws c then
        if insep then split_ws_from true [] r
        else rev cur :: split_ws_from true [] r
      else split_ws_from false (c :: cur) r
  end.

Definition split_ws (s : jsstring) : list jsstring := split_ws_from false [] s.

(** [s.startsWith(p)] *)
Fixpoint startsWith (s p : jsstring) : bool :=
  match p, s with
  | [], _ => true
  | x :: p', y :: s' => (x =? y) && startsWith s' p'
  | _ :: _, [] => false
  end.

(** [s.substring(n)] for a non-negative integer [n]. *)
Definition substring (s : jsstring) (n : nat) : jsstring := skipn n s.

(* ================================================================== *)
(** ** Section model: word count (models/section.model.js) *)
(* ================================================================== *)

(** The computation of the [pre('save')] hook:
    [trimmedStory === '' ? 0
       : trimmedStory.split(/\s+/).filter(word => word.length > 0).length]. *)
Definition wordCountOf (story : jsstring) : Z :=
  let trimmedStory := trim story in
  match trimmedStory with
  | [] => 0
  | _ => Z.of_nat (List.length
           (filter (fun word => 0 <? Z.of_nat (List.length word))
                   (split_ws trimmedStory)))
  end.

(** The word-count derivation in the words of the specification: the maximal
    runs of code units that are not white space, in order. *)
Fixpoint tokens_from (cur : jsstring) (s : jsstring) : list jsstring :=
  match s with
  | [] => match cur with [] => [] | _ => [rev cur] end
  | c :: r =>
      if is_ws c then
        match cur with
        | [] => tokens_from [] r
        | _ => rev cur :: tokens_from [] r
        end
      else tokens_from (c :: cur) r
  end.

Definition tokens (s : jsstring) : list jsstring := tokens_from [] s.

(** The runs returned by [tokens] are exactly the maximal runs of code
    units that are not white space: [Tokenized s ts] cuts [s] into
    separators and tokens. *)
Inductive Tokenized : jsstring -> list jsstring -> Prop :=
| Tok_blank (s : jsstring) :
    forallb is_ws s = true -> Tokenized s []
| Tok_word (sep t rest : jsstring) (ts : list jsstring) :
    forallb is_ws sep = true ->
    t <> [] ->
    forallb (fun c => negb (is_ws c)) t = true ->
    match rest with [] => True | c :: _ => is_ws c = true end ->
    Tokenized rest ts ->
    Tokenized (sep ++ t ++ rest) (t :: ts).

Definition spec_wordCount (s : jsstring) : Z :=
  match trim s with
  | [] => 0
  | t => Z.of_nat (List.length (tokens t))
  end.

(* ================================================================== *)
(** ** Text encodings used by the cipher: UTF-8 and hex *)
(* ================================================================== *)

Definition is_byte (b : Z) : Prop := 0 <= b < 256.

Definition is_high_surrogate (c : Z) : bool := (55296 <=? c) && (c <=? 56319).
Definition is_low_surrogate (c : Z) : bool := (56320 <=? c) && (c <=? 57343).

(** The code points of a JavaScript string as the UTF-8 encoder reads them:
    a surrogate pair is one supplementary code point, an unpaired surrogate
    is replaced by U+FFFD. *)
Fixpoint code_points (s : jsstring) : list Z :=
  match s with
  | [] => []
  | c :: r =>
      if is_high_surrogate c then
        match r with
        | lo :: r' =>
            if is_low_surrogate lo
            then (65536 + (c - 55296) * 1024 + (lo - 56320)) :: code_points r'
            else 65533 :: code_points r
        | [] => [65533]
        end
      else if is_low_surrogate c then 65533 :: code_points r
      else c :: code_points r
  end.

Definition utf8_encode_cp (c : Z) : list Z :=
  if c <? 128 then [c]
  else if c <? 2048 then [192 + c / 64; 128 + c mod 64]
  else if c <? 65536 then
    [224 + c / 4096; 128 + (c / 64) mod 64; 128 + c mod 64]
  else
    [240 + c / 262144; 128 + (c / 4096) mod 64;
     128 + (c / 64) mod 64; 128 + c mod 64].

(** [Buffer.from(text, 'utf8')] *)
Definition utf8_encode (s : jsstring) : list Z :=
  flat_map utf8_encode_cp (code_points s).

(** State of the UTF-8 decoder: the code point being assembled, the number
    of continuation bytes still needed and the bounds the next continuation
    byte must respect. *)
Record dstate : Type := mkDState
  { d_cp : Z; d_need : nat; d_lower : Z; d_upper : Z }.

Definition d_init : dstate := mkDState 0 0 128 191.

Definition decode_lead (b : Z) : list Z * dstate :=
  if (0 <=? b) && (b <=? 127) then ([b], d_init)
  else if (194 <=? b) && (b <=? 223) then ([], mkDState (b - 192) 1 128 191)
  else if (224 <=? b) && (b <=? 239) then
    ([], mkDState (b - 224) 2
           (if b =? 224 then 160 else 128) (if b =? 237 then 159 else 191))
  else if (240 <=? b) && (b <=? 244) then
    ([], mkDState (b - 240) 3
           (if b =? 240 then 144 else 128) (if b =? 244 then 143 else 191))
  else ([65533], d_init).

Definition decode_step (st : dstate) (b : Z) : list Z * dstate :=
  match d_need st with
  | O => decode_lead b
  | S n =>
      if (d_lower st <=? b) && (b <=? d_upper st) then
        let cp := d_cp st * 64 + (b - 128) in
        match n with
        | O => ([cp], d_init)
        | S _ => ([], mkDState cp n 128 191)
        end
      else
        let '(out, st') := decode_lead b in (65533 :: out, st')
  end.

Fixpoint utf8_decode_from (st : dstate) (bs : list Z) : list Z :=
  match bs with
  | [] => match d_need st with O => [] | S _ => [65533] end
  | b :: r =>
      let '(out, st') := decode_step st b in
      out ++ utf8_decode_from st' r
  end.

Definition utf16_of_cp (c : Z) : jsstring :=
  if c <? 65536 then [c]
  else [55296 + (c - 65536) / 1024; 56320 + (c - 65536) mod 1024].

(** [buffer.toString('utf8')]: ill-formed input decodes to U+FFFD. *)
Definition utf8_decode (bs : list Z) : jsstring :=
  flat_map utf16_of_cp (utf8_decode_from d_init bs).

(** A well-formed JavaScript string: code units in range, every surrogate
    paired. *)
Fixpoint well_formed (s : jsstring) : bool :=
  match s with
  | [] => true
  | c :: r =>
      (0 <=? c) && (c <? 65536) &&
      (if is_high_surrogate c then
         match r with
         | lo :: r' => is_low_surrogate lo && well_formed r'
         | [] => false
         end
       else negb (is_low_surrogate c) && well_formed r)
  end.

(** A Unicode scalar value. *)
Definition scalar (c : Z) : Prop :=
  0 <= c < 1114112 /\ ~ (55296 <= c <= 57343).

Definition hex_digit (n : Z) : Z := if n <? 10 then 48 + n else 87 + n.

(** [buffer.toString('hex')] *)
Definition hex_encode (bs : list Z) : jsstring :=
  flat_map (fun b => [hex_digit (b / 16); hex_digit (b mod 16)]) bs.

(** The value of a hexadecimal digit.  The decoder of Node reads the low
    byte of each code unit, so a code unit above 255 counts as the
    character of its low byte. *)
Definition hex_value (c : Z) : option Z :=
  let c := c mod 256 in
  if (48 <=? c) && (c <=? 57) then Some (c - 48)
  else if (97 <=? c) && (c <=? 102) then Some (c - 87)
  else if (65 <=? c) && (c <=? 70) then Some (c - 55)
  else None.

(** Decoding of a hex string into bytes: pairs of digits are read until the
    first pair that is not hexadecimal. *)
Fixpoint hex_pairs (s : jsstring) : list Z :=
  match s with
  | a :: b :: r =>
      match hex_value a, hex_value b with
      | Some x, Some y => (16 * x + y) :: hex_pairs r
      | _, _ => []
      end
  | _ => []
  end.

(* ================================================================== *)
(** ** AES-256 (FIPS-197), the block cipher behind ['aes-256-cbc'] *)
(* ================================================================== *)

Fixpoint xor_bytes (a b : list Z) : list Z :=
  match a, b with
  | x :: a', y :: b' => Z.lxor x y :: xor_bytes a' b'
  | _, _ => []
  end.

(** Multiplication by [x] in GF(2^8) modulo [x^8 + x^4 + x^3 + x + 1]. *)
Definition xtime (a : Z) : Z :=
  let d := 2 * a in if d <? 256 then d else Z.lxor (d - 256) 27.

Fixpoint gmul_n (n : nat) (a b : Z) : Z :=
  match n with
  | O => 0
  | S n' =>
      Z.lxor (if Z.odd b then a else 0) (gmul_n n' (xtime a) (Z.shiftr b 1))
  end.

(** Multiplication in GF(2^8). *)
Definition gmul (a b : Z) : Z := gmul_n 8 a b.

(** Multiplicative inverse in GF(2^8) (with [0] sent to [0]): [a^254]. *)
Definition ginv (a : Z) : Z :=
  let a2 := gmul a a in
  let a4 := gmul a2 a2 in
  let a8 := gmul a4 a4 in
  let a16 := gmul a8 a8 in
  let a32 := gmul a16 a16 in
  let a64 := gmul a32 a32 in
  let a128 := gmul a64 a64 in
  gmul a2 (gmul a4 (gmul a8 (gmul a16 (gmul a32 (gmul a64 a128))))).

Definition rotl8 (b : Z) (n : Z) : Z :=
  (b * 2 ^ n) mod 256 + (b * 2 ^ n) / 256.

Definition sbox_affine (b : Z) : Z :=
  Z.lxor b (Z.lxor (rotl8 b 1) (Z.lxor (rotl8 b 2)
    (Z.lxor (rotl8 b 3) (Z.lxor (rotl8 b 4) 99)))).

Definition byte_values : list Z := map Z.of_nat (seq 0 256).

Definition sbox_table : list Z :=
  Eval vm_compute in map (fun a => sbox_affine (ginv a)) byte_values.

Definition sbox (a : Z) : Z := nth (Z.to_nat a) sbox_table 0.

Definition inv_sbox_table : list Z :=
  Eval vm_compute in
    map (fun y => match find (fun x => sbox x =? y) byte_values with
                  | Some x => x
                  | None => 0
                  end) byte_values.

Definition inv_sbox (a : Z) : Z := nth (Z.to_nat a) inv_sbox_table 0.

Definition sub_bytes (s : list Z) : list Z := map sbox s.
Definition inv_sub_bytes (s : list Z) : list Z := map inv_sbox s.

(** The state is held column by column: byte [r + 4c] is row [r] of column
    [c]. *)
Definition permute (p : list nat) (s : list Z) : list Z :=
  map (fun i => nth i s 0) p.

Definition shift_rows (s : list Z) : list Z :=
  permute [0; 5; 10; 15; 4; 9; 14; 3; 8; 13; 2; 7; 12; 1; 6; 11]%nat s.

Definition inv_shift_rows (s : list Z) : list Z :=
  permute [0; 13; 10; 7; 4; 1; 14; 11; 8; 5; 2; 15; 12; 9; 6; 3]%nat s.

Definition xor4 (a b c d : Z) : Z := Z.lxor a (Z.lxor b (Z.lxor c d)).

Definition mix_column (a0 a1 a2 a3 : Z) : list Z :=
  [ xor4 (gmul a0 2) (gmul a1 3) a2 a3;
    xor4 a0 (gmul a1 2) (gmul a2 3) a3;
    xor4 a0 a1 (gmul a2 2) (gmul a3 3);
    xor4 (gmul a0 3) a1 a2 (gmul a3 2) ].

Definition inv_mix_column (a0 a1 a2 a3 : Z) : list Z :=
  [ xor4 (gmul a0 14) (gmul a1 11) (gmul a2 13) (gmul a3 9);
    xor4 (gmul a0 9) (gmul a1 14) (gmul a2 11) (gmul a3 13);
    xor4 (gmul a0 13) (gmul a1 9) (gmul a2 14) (gmul a3 11);
    xor4 (gmul a0 11) (gmul a1 13) (gmul a2 9) (gmul a3 14) ].

Fixpoint mix_columns (s : list Z) : list Z :=
  match s with
  | a0 :: a1 :: a2 :: a3 :: r => mix_column a0 a1 a2 a3 ++ mix_columns r
  | _ => []
  end.

Fixpoint inv_mix_columns (s : list Z) : list Z :=
  match s with
  | a0 :: a1 :: a2 :: a3 :: r => inv_mix_column a0 a1 a2 a3 ++ inv_mix_columns r
  | _ => []
  end.

Definition add_round_key (s k : list Z) : list Z := xor_bytes s k.

(** Key schedule for a 256-bit key: 60 words of four bytes. *)
Fixpoint words_of (bs : list Z) : list (list Z) :=
  match bs with
  | a :: b :: c :: d :: r => [a; b; c; d] :: words_of r
  | _ => []
  end.

Definition rot_word (w : list Z) : list Z :=
  match w with
  | a :: r => r ++ [a]
  | [] => []
  end.

Definition sub_word (w : list Z) : list Z := map sbox w.

Definition rcon (i : nat) : list Z := [Nat.iter (i - 1) xtime 1; 0; 0; 0].

Fixpoint key_expansion_loop (fuel : nat) (i : nat) (w : list (list Z))
  : list (list Z) :=
  match fuel with
  | O => w
  | S fuel' =>
      let temp := nth (i - 1) w [] in
      let temp' :=
        if (i mod 8 =? 0)%nat then
          xor_bytes (sub_word (rot_word temp)) (rcon (i / 8))
        else if (i mod 8 =? 4)%nat then sub_word temp
        else temp in
      key_expansion_loop fuel' (S i) (w ++ [xor_bytes (nth (i - 8) w []) temp'])
  end.

Definition key_expansion (key : list Z) : list (list Z) :=
  key_expansion_loop 52 8 (words_of key).

Definition round_key (w : list (list Z)) (r : nat) : list Z :=
  List.concat (firstn 4 (skipn (4 * r) w)).

Definition aes_round (w : list (list Z)) (st : list Z) (r : nat) : list Z :=
  add_round_key (mix_columns (shift_rows (sub_bytes st))) (round_key w r).

Definition aes_inv_round (w : list (list Z)) (st : list Z) (r : nat) : list Z :=
  inv_mix_columns (add_round_key (inv_sub_bytes (inv_shift_rows st)) (round_key w r)).

(** Encryption of one 16-byte block under the expanded key [w]. *)
Definition aes_cipher (w : list (list Z)) (block : list Z) : list Z :=
  let st := add_round_key block (round_key w 0) in
  let st := fold_left (aes_round w) (seq 1 13) st in
  add_round_key (shift_rows (sub_bytes st)) (round_key w 14).

(** Decryption of one 16-byte block under the expanded key [w]. *)
Definition aes_inv_cipher (w : list (list Z)) (block : list Z) : list Z :=
  let st := add_round_key block (round_key w 14) in
  let st := fold_left (aes_inv_round w) (rev (seq 1 13)) st in
  add_round_key (inv_sub_bytes (inv_shift_rows st)) (round_key w 0).

(* ================================================================== *)
(** ** CBC mode and PKCS#7 padding *)
(* ================================================================== *)

(** The first [n] blocks of 16 bytes of [bs]. *)
Fixpoint blocks (n : nat) (bs : list Z) : list (list Z) :=
  match n with
  | O => []
  | S n' => firstn 16 bs :: blocks n' (skipn 16 bs)
  end.

Fixpoint cbc_encrypt (w : list (list Z)) (prev : list Z) (bl : list (list Z))
  : list (list Z) :=
  match bl with
  | [] => []
  | p :: r =>
      let c := aes_cipher w (xor_bytes p prev) in
      c :: cbc_encrypt w c r
  end.

Fixpoint cbc_decrypt (w : list (list Z)) (prev : list Z) (bl : list (list Z))
  : list (list Z) :=
  match bl with
  | [] => []
  | c :: r => xor_bytes (aes_inv_cipher w c) prev :: cbc_decrypt w c r
  end.

Definition pkcs7_pad (bs : list Z) : list Z :=
  let n := (16 - List.length bs mod 16)%nat in
  bs ++ repeat (Z.of_nat n) n.

(** Removal of the padding of the final block: the last byte [n] must lie
    in [1..16] and the last [n] bytes must all equal [n]. *)
Definition pkcs7_unpad (bs : list Z) : option (list Z) :=
  let n := last bs 0 in
  if (1 <=? n) && (n <=? 16) then
    let k := (List.length bs - Z.to_nat n)%nat in
    if forallb (fun b => b =? n) (skipn k bs) then Some (firstn k bs)
    else None
  else None.

(* ================================================================== *)
(** ** Errors *)
(* ================================================================== *)

Inductive crypto_fault : Type :=
| InvalidArgType
| InvalidKeyLength
| InvalidIV
| InvalidHexLength
| WrongFinalBlockLength
| BadDecrypt.

(** The [message] of a thrown [Error]: a literal text; the message of an
    error raised by the crypto library behind the prefix put before it
    (empty as the library raises it); a schema validation failure, which
    lists every failing path with its message; or the failure of a query to
    cast a value to an ObjectId. *)
Inductive errmsg : Type :=
| Msg (text : jsstring)
| Wrapped (prefix : jsstring) (cause : crypto_fault)
| ValidationFailed (model : jsstring) (failures : list (jsstring * jsstring))
| CastError (value path model : jsstring).

Inductive result (A : Type) : Type :=
| Ok (a : A)
| Throw (e : errmsg).
Arguments Ok {A} a.
Arguments Throw {A} e.

Definition bind {A B : Type} (r : result A) (k : A -> result B) : result B :=
  match r with
  | Ok a => k a
  | Throw e => Throw e
  end.

Notation "'let!' x ':=' r 'in' k" := (bind r (fun x => k))
  (at level 10, x name, r at level 100, k at level 200).

(* ================================================================== *)
(** ** services/encryption.service.js *)
(* ================================================================== *)

Record EncryptionService : Type := mkEncryptionService
  { secretKey : jsstring; iv : jsstring }.

(** [constructor()]: [AES_SECRET_KEY] and [AES_IV] are read from the
    environment, where either may be absent. *)
Definition new_EncryptionService (AES_SECRET_KEY AES_IV : option jsstring)
  : result EncryptionService :=
  match AES_SECRET_KEY with
  | None => Throw (Msg (js "AES_SECRET_KEY must be exactly 32 characters long"))
  | Some key =>
      if negb (List.length key =? 32)%nat then
        Throw (Msg (js "AES_SECRET_KEY must be exactly 32 characters long"))
      else
        match AES_IV with
        | None => Throw (Msg (js "AES_IV must be exactly 16 characters long"))
        | Some v =>
            if negb (List.length v =? 16)%nat then
              Throw (Msg (js "AES_IV must be exactly 16 characters long"))
            else Ok (mkEncryptionService key v)
        end
  end.

(** [crypto.createCipheriv('aes-256-cbc', Buffer.from(key), Buffer.from(iv))]
    and [createDecipheriv]: the IV must be 16 bytes and the key 32 bytes,
    and the library checks the IV first; the result is the expanded key and
    the IV bytes. *)
Definition createCipheriv (svc : EncryptionService)
  : result (list (list Z) * list Z) :=
  let key := utf8_encode (secretKey svc) in
  let ivb := utf8_encode (iv svc) in
  if negb (List.length ivb =? 16)%nat then Throw (Wrapped [] InvalidIV)
  else if negb (List.length key =? 32)%nat then Throw (Wrapped [] InvalidKeyLength)
  else Ok (key_expansion key, ivb).

Definition rethrow {A : Type} (prefix : jsstring) (r : result A) : result A :=
  match r with
  | Ok a => Ok a
  | Throw (Wrapped _ c) => Throw (Wrapped prefix c)
  | Throw e => Throw e
  end.

(** [encrypt(text)]; [None] is an argument that is not a string. *)
Definition encrypt (svc : EncryptionService) (text : option jsstring)
  : result jsstring :=
  rethrow (js "Encryption failed: ")
    (let! c := createCipheriv svc in
     let '(w, ivb) := c in
     match text with
     | None => Throw (Wrapped [] InvalidArgType)
     | Some t =>
         let padded := pkcs7_pad (utf8_encode t) in
         let bl := blocks (List.length padded / 16) padded in
         Ok (hex_encode (List.concat (cbc_encrypt w ivb bl)))
     end).

(** [decrypt(encryptedText)] *)
Definition decrypt (svc : EncryptionService) (encryptedText : jsstring)
  : result jsstring :=
  rethrow (js "Decryption failed: ")
    (let! c := createCipheriv svc in
     let '(w, ivb) := c in
     if Nat.odd (List.length encryptedText) then
       Throw (Wrapped [] InvalidHexLength)
     else
       let data := hex_pairs encryptedText in
       let n := List.length data in
       if (n =? 0)%nat || negb (n mod 16 =? 0)%nat then
         Throw (Wrapped [] WrongFinalBlockLength)
       else
         let plain := List.concat (cbc_decrypt w ivb (blocks (n / 16) data)) in
         match pkcs7_unpad plain with
         | None => Throw (Wrapped [] BadDecrypt)
         | Some bs => Ok (utf8_decode bs)
         end).

(* ================================================================== *)
(** ** JavaScript numbers *)
(* ================================================================== *)

(** The double nearest to the integer [n], ties to the even significand
    (for [n] below [2^1024] in magnitude).  An integer below [2^53] in
    magnitude is a double; above, a double has 53 significant bits. *)
Definition to_double (n : Z) : Z :=
  let a := Z.abs n in
  if a <? 2 ^ 53 then n
  else
    let e := Z.log2 a - 52 in
    let q := a / 2 ^ e in
    let r := a mod 2 ^ e in
    let half := 2 ^ (e - 1) in
    let q' :=
      if r <? half then q
      else if half <? r then q + 1
      else if Z.even q then q else q + 1 in
    Z.sgn n * (q' * 2 ^ e).

(** [a + b] on numbers that hold integers. *)
Definition js_add (a b : Z) : Z := to_double (a + b).

(* ================================================================== *)
(** ** Documents and the document store *)
(* ================================================================== *)

Definition ObjectId := N.

(** A route parameter ([req.params.bookId], [req.params.sectionId]) as the
    query that receives it casts it: the identifier the segment denotes,
    or a segment that is not an ObjectId. *)
Inductive PathId : Type :=
| WellFormed (id : N)
| Malformed (segment : jsstring).

Coercion WellFormed : N >-> PathId.

(** The cast of a route parameter in the conditions of a query of [model]
    on [_id]: a segment that is not an ObjectId makes the query reject with
    a CastError before the store is asked. *)
Definition castObjectId (model : string) (p : PathId) : result ObjectId :=
  match p with
  | WellFormed id => Ok id
  | Malformed segment => Throw (CastError segment (js "_id") (js model))
  end.

Record User : Type := mkUser
  { u_id : ObjectId; u_email : jsstring; u_password : jsstring }.

(** A user document loaded with [.select('-password')]. *)
Record UserView : Type := mkUserView
  { uv_id : ObjectId; uv_email : jsstring }.

Record Book : Type := mkBook
  { b_id : ObjectId;
    b_title : jsstring;
    b_user : ObjectId;
    b_description : option jsstring;
    b_isPublished : bool;
    b_createdAt : Z;
    b_updatedAt : Z }.

(** [order] and [wordCount] are JavaScript numbers holding integers. *)
Record Section : Type := mkSection
  { s_id : ObjectId;
    s_title : jsstring;
    s_story : jsstring;
    s_book : ObjectId;
    s_order : Z;
    s_wordCount : Z;
    s_createdAt : Z;
    s_updatedAt : Z }.

(** The database: three collections, the generator of fresh identifiers,
    the clock read by the timestamps, and [fault]: when it holds a message
    the store is unreachable and every query rejects with that message. *)
Record Db : Type := mkDb
  { users : list User;
    books : list Book;
    sections : list Section;
    next_id : ObjectId;
    now : Z;
    fault : option jsstring }.

Definition query {A : Type} (db : Db) (answer : A) : result A :=
  match fault db with
  | Some m => Throw (Msg m)
  | None => Ok answer
  end.

(** [User.findById(id).select('-password')] *)
Definition User_findById (db : Db) (id : ObjectId) : result (option UserView) :=
  query db
    (match find (fun u => N.eqb (u_id u) id) (users db) with
     | Some u => Some (mkUserView (u_id u) (u_email u))
     | None => None
     end).

(** [Book.findOne({ _id: bookId, user: userId })] *)
Definition Book_findOne (db : Db) (bookId userId : ObjectId)
  : result (option Book) :=
  query db
    (find (fun b => N.eqb (b_id b) bookId && N.eqb (b_user b) userId)
          (books db)).

Definition sections_of (db : Db) (bookId : ObjectId) : list Section :=
  filter (fun s => N.eqb (s_book s) bookId) (sections db).

(** The first document of a list sorted by [{ order: -1 }]. *)
Fixpoint first_by_order_desc (l : list Section) : option Section :=
  match l with
  | [] => None
  | s :: r =>
      match first_by_order_desc r with
      | None => Some s
      | Some m => if s_order m <=? s_order s then Some s else Some m
      end
  end.

(** [Section.findOne({ book: bookId }).sort({ order: -1 })] *)
Definition Section_findOne_last (db : Db) (bookId : ObjectId)
  : result (option Section) :=
  query db (first_by_order_desc (sections_of db bookId)).

Definition section_leb (a b : Section) : bool :=
  (s_order a <? s_order b)
  || ((s_order a =? s_order b) && (s_createdAt a <=? s_createdAt b)).

Fixpoint insert_section (x : Section) (l : list Section) : list Section :=
  match l with
  | [] => [x]
  | y :: r => if section_leb x y then x :: y :: r else y :: insert_section x r
  end.

Definition sort_sections (l : list Section) : list Section :=
  fold_right insert_section [] l.

(** [Section.find({ book: bookId }).sort({ order: 1, createdAt: 1 })] *)
Definition Section_find_sorted (db : Db) (bookId : ObjectId)
  : result (list Section) :=
  query db (sort_sections (sections_of db bookId)).

(** [Section.deleteMany({ book: bookId })] *)
Definition Section_deleteMany (db : Db) (bookId : ObjectId) : result Db :=
  query db
    (mkDb (users db) (books db)
          (filter (fun s => negb (N.eqb (s_book s) bookId)) (sections db))
          (next_id db) (now db) (fault db)).

(** [Book.findByIdAndDelete(bookId)] *)
Definition Book_findByIdAndDelete (db : Db) (bookId : ObjectId) : result Db :=
  query db
    (mkDb (users db)
          (filter (fun b => negb (N.eqb (b_id b) bookId)) (books db))
          (sections db) (next_id db) (now db) (fault db)).

(* ------------------------------------------------------------------ *)
(** *** models/section.model.js *)

(** The fields given to [new Section({ title, story, book, order })]. *)
Record SectionInput : Type := mkSectionInput
  { si_title : option jsstring;
    si_story : jsstring;
    si_book : ObjectId;
    si_order : Z }.

(** Validation reports, for every failing path, the message of its first
    failing validator; for [title] that is [required], then [maxlength]. *)
Definition title_failures (required maxlength : string) (title : jsstring)
  : list (jsstring * jsstring) :=
  match title with
  | [] => [(js "title", js required)]
  | _ =>
      if (200 <? List.length title)%nat then [(js "title", js maxlength)]
      else []
  end.

Definition order_failures (order : Z) : list (jsstring * jsstring) :=
  if order <? 0 then [(js "order", js "Order cannot be negative")] else [].

(** The outcome of validation: the document, or one error that lists the
    failing paths. *)
Definition validated {A : Type} (model : string)
  (failures : list (jsstring * jsstring)) (doc : A) : result A :=
  match failures with
  | [] => Ok doc
  | _ => Throw (ValidationFailed (js model) failures)
  end.

(** Schema validation of a section: [title] is required (after trimming)
    and at most 200 long, [order] is at least 0.  The result is the
    trimmed title. *)
Definition validate_section (title : option jsstring) (order : Z)
  : result jsstring :=
  let t := match title with Some t => trim t | None => [] end in
  validated "Section"
    (title_failures "Section title is required"
                    "Title cannot be more than 200 characters" t
     ++ order_failures order)
    t.

(** The [pre('save')] hook of a document whose [story] is modified. *)
Definition pre_save (s : Section) : Section :=
  mkSection (s_id s) (s_title s) (s_story s) (s_book s) (s_order s)
            (wordCountOf (s_story s)) (s_createdAt s) (s_updatedAt s).

(** [new Section(input)] followed by [section.save()]: the string setters
    trim [title] and [story], validation runs, then the hook, and the new
    document is inserted with a fresh identifier and the timestamps. *)
Definition Section_create (db : Db) (i : SectionInput) : result (Db * Section) :=
  let! title := validate_section (si_title i) (si_order i) in
  let doc := pre_save (mkSection (next_id db) title (trim (si_story i))
                                 (si_book i) (si_order i) 0 (now db) (now db)) in
  query db
    (mkDb (users db) (books db) (sections db ++ [doc])
          (N.succ (next_id db)) (now db) (fault db), doc).

(* ------------------------------------------------------------------ *)
(** *** models/book.model.js *)

Definition description_failures (description : option jsstring)
  : list (jsstring * jsstring) :=
  match description with
  | Some d =>
      if (1000 <? List.length d)%nat then
        [(js "description", js "Description cannot exceed 1000 characters")]
      else []
  | None => []
  end.

Definition validate_book (b : Book) : result Book :=
  validated "Book"
    (title_failures "Book title is required"
                    "Book title cannot exceed 200 characters" (b_title b)
     ++ description_failures (b_description b))
    b.

Definition option_eqb (a b : option jsstring) : bool :=
  match a, b with
  | Some x, Some y => jsstring_eqb x y
  | None, None => true
  | _, _ => false
  end.

(** [book.save()] of the loaded document [original] whose fields now read
    [updated]: validation, the [updatedAt] timestamp, which is renewed only
    when a path is modified, and the write. *)
Definition Book_save (db : Db) (original updated : Book) : result (Db * Book) :=
  let! b := validate_book updated in
  let modified :=
    negb (jsstring_eqb (b_title b) (b_title original))
    || negb (option_eqb (b_description b) (b_description original))
    || negb (Bool.eqb (b_isPublished b) (b_isPublished original)) in
  let b' := mkBook (b_id b) (b_title b) (b_user b) (b_description b)
                   (b_isPublished b) (b_createdAt b)
                   (if modified then now db else b_updatedAt b) in
  query db
    (mkDb (users db)
          (map (fun x => if N.eqb (b_id x) (b_id b') then b' else x) (books db))
          (sections db) (next_id db) (now db) (fault db), b').

(* ================================================================== *)
(** ** services/jwt.service.js *)
(* ================================================================== *)

(** [jwt.verify(token, process.env.JWT_SECRET)] of the jsonwebtoken library
    is a parameter of the model: [jwt_verify token] is the [userId] of the
    decoded payload, or [None] when the library throws (bad signature,
    expired or malformed token).  [None] also stands for a payload whose
    [userId] is not an ObjectId: [User.findById] then rejects with a
    CastError, which the gate answers as it answers a token that does not
    verify. *)
Definition JwtVerify := jsstring -> option ObjectId.

(** [verifyToken(token)] *)
Definition verifyToken (jwt_verify : JwtVerify) (token : jsstring)
  : result ObjectId :=
  match jwt_verify token with
  | Some userId => Ok userId
  | None => Throw (Msg (js "Invalid or expired token"))
  end.

(** JavaScript truthiness of a header value that may be absent. *)
Definition truthy (v : option jsstring) : bool :=
  match v with
  | None => false
  | Some [] => false
  | Some _ => true
  end.

(** [extractTokenFromHeader(authHeader)] *)
Definition extractTokenFromHeader (authHeader : option jsstring)
  : result jsstring :=
  match authHeader with
  | Some h =>
      if negb (truthy authHeader) || negb (startsWith h (js "Bearer ")) then
        Throw (Msg (js "Authorization header must start with Bearer"))
      else Ok (substring h 7)
  | None => Throw (Msg (js "Authorization header must start with Bearer"))
  end.

(* ================================================================== *)
(** ** Responses *)
(* ================================================================== *)

Inductive Data : Type :=
| NoData
| BookData (book : Book)
| SectionData (section : Section)
| SectionsData (book : Book) (sections : list Section).

(** [res.status(status).json({ success, message, error, count, data })] *)
Record Response : Type := mkResponse
  { status : Z;
    success : bool;
    message : option jsstring;
    error : option errmsg;
    count : option nat;
    data : Data }.

Definition reject (code : Z) (m : string) : Response :=
  mkResponse code false (Some (js m)) None None NoData.

Definition failure (m : string) (e : errmsg) : Response :=
  mkResponse 500 false (Some (js m)) (Some e) None NoData.

(* ================================================================== *)
(** ** middleware/auth.middleware.js *)
(* ================================================================== *)

(** Outcome of the middleware: a response was sent, or [next()] was called
    with [req.user] set. *)
Inductive GateOutcome : Type :=
| Rejected (r : Response)
| Next (user : UserView).

(** [authenticateToken(req, res, next)], with [authorization] the value of
    [req.headers.authorization]. *)
Definition authenticateToken (jwt_verify : JwtVerify) (db : Db)
  (authorization : option jsstring) : GateOutcome :=
  let attempt : result GateOutcome :=
    if negb (truthy authorization) then
      Ok (Rejected (reject 401 "Access token required"))
    else
      let! token := extractTokenFromHeader authorization in
      let! userId := verifyToken jwt_verify token in
      let! user := User_findById db userId in
      match user with
      | None => Ok (Rejected (reject 401 "User not found"))
      | Some u => Ok (Next u)
      end in
  match attempt with
  | Ok o => o
  | Throw _ => Rejected (reject 401 "Invalid or expired token")
  end.

(* ================================================================== *)
(** ** controllers/book.controller.js *)
(* ================================================================== *)

(** The [try { ... } catch (error) { res.status(500).json(...) }] frame of
    every handler. *)
Definition catch500 (db : Db) (m : string) (r : result (Db * Response))
  : Db * Response :=
  match r with
  | Ok x => x
  | Throw e => (db, failure m e)
  end.

Definition book_not_found : Response := reject 404 "Book not found".

(** [getBook], with [bookId] the route parameter [req.params.bookId]. *)
Definition getBook (db : Db) (user : UserView) (bookId : PathId)
  : Db * Response :=
  catch500 db "Failed to fetch book"
    (let! bookId := castObjectId "Book" bookId in
     let! book := Book_findOne db bookId (uv_id user) in
     match book with
     | None => Ok (db, book_not_found)
     | Some book =>
         Ok (db, mkResponse 200 true None None None (BookData book))
     end).

(** The body of an update request; every field may be [undefined]. *)
Record BookPatch : Type := mkBookPatch
  { bp_title : option jsstring;
    bp_description : option jsstring;
    bp_isPublished : option bool }.

(** [updateBook] *)
Definition updateBook (db : Db) (user : UserView) (bookId : PathId)
  (body : BookPatch) : Db * Response :=
  catch500 db "Failed to update book"
    (let! bookId := castObjectId "Book" bookId in
     let! book := Book_findOne db bookId (uv_id user) in
     match book with
     | None => Ok (db, book_not_found)
     | Some book =>
         let title :=
           match bp_title body with Some t => trim t | None => b_title book end in
         let description :=
           match bp_description body with
           | Some d => Some (trim d)
           | None => b_description book
           end in
         let isPublished :=
           match bp_isPublished body with
           | Some p => p
           | None => b_isPublished book
           end in
         let! saved :=
           Book_save db book
             (mkBook (b_id book) title (b_user book) description
                     isPublished (b_createdAt book) (b_updatedAt book)) in
         let '(db', book') := saved in
         Ok (db', mkResponse 200 true (Some (js "Book updated successfully"))
                             None None (BookData book'))
     end).

(** The store once [outage], if it holds a message, has begun. *)
Definition strike (db : Db) (outage : option jsstring) : Db :=
  match outage with
  | None => db
  | Some m =>
      mkDb (users db) (books db) (sections db) (next_id db) (now db) (Some m)
  end.

(** [deleteBook].  The handler awaits two writes in one [try], and the
    store may fail between them: [outage], when it holds a message, is a
    failure of the store that begins once [Section.deleteMany] has been
    answered.  The [catch] block then answers 500 while the sections are
    already deleted. *)
Definition deleteBook_outage (outage : option jsstring) (db : Db)
  (user : UserView) (bookId : PathId) : Db * Response :=
  catch500 db "Failed to delete book"
    (let! bookId := castObjectId "Book" bookId in
     let! book := Book_findOne db bookId (uv_id user) in
     match book with
     | None => Ok (db, book_not_found)
     | Some _ =>
         let! db1 := Section_deleteMany db bookId in
         let db1 := strike db1 outage in
         Ok (catch500 db1 "Failed to delete book"
               (let! db2 := Book_findByIdAndDelete db1 bookId in
                Ok (db2,
                    mkResponse 200 true
                      (Some (js "Book and all its sections deleted successfully"))
                      None None NoData)))
     end).

(** [deleteBook] with a store that stays as it is while the request is
    served. *)
Definition deleteBook (db : Db) (user : UserView) (bookId : PathId)
  : Db * Response :=
  deleteBook_outage None db user bookId.

Definition with_story (s : Section) (story : jsstring) : Section :=
  mkSection (s_id s) (s_title s) story (s_book s) (s_order s)
            (s_wordCount s) (s_createdAt s) (s_updatedAt s).

Definition encryption_error : jsstring := js "[Encryption Error]".

(** The callback of [sections.map] in [getBookSections]. *)
Definition decrypt_section (svc : EncryptionService) (section : Section)
  : Section :=
  match decrypt svc (s_story section) with
  | Ok story => with_story section story
  | Throw _ => with_story section encryption_error
  end.

(** [getBookSections] *)
Definition getBookSections (svc : EncryptionService) (db : Db)
  (user : UserView) (bookId : PathId) : Db * Response :=
  catch500 db "Failed to fetch book sections"
    (let! bookId := castObjectId "Book" bookId in
     let! book := Book_findOne db bookId (uv_id user) in
     match book with
     | None => Ok (db, book_not_found)
     | Some book =>
         let! sections := Section_find_sorted db bookId in
         let decryptedSections := map (decrypt_section svc) sections in
         Ok (db, mkResponse 200 true None None
                   (Some (List.length decryptedSections))
                   (SectionsData book decryptedSections))
     end).

(** [addSection], with [title] and [story] the fields of [req.body]. *)
Definition addSection (svc : EncryptionService) (db : Db) (user : UserView)
  (bookId : PathId) (title story : option jsstring) : Db * Response :=
  catch500 db "Failed to add section"
    (let! bookId := castObjectId "Book" bookId in
     let! book := Book_findOne db bookId (uv_id user) in
     match book with
     | None => Ok (db, book_not_found)
     | Some _ =>
         let! lastSection := Section_findOne_last db bookId in
         let order :=
           match lastSection with
           | Some l => js_add (s_order l) 1
           | None => 1
           end in
         let! encryptedStory := encrypt svc story in
         let! saved :=
           Section_create db (mkSectionInput title encryptedStory bookId order) in
         let '(db', section) := saved in
         let sectionResponse :=
           with_story section (match story with Some s => s | None => [] end) in
         Ok (db', mkResponse 201 true (Some (js "Section added successfully"))
                             None None (SectionData sectionResponse))
     end).

(* ================================================================== *)
(** ** Sample data used by the examples *)
(* ================================================================== *)

Definition sample_svc : EncryptionService :=
  mkEncryptionService (js "0123456789abcdef0123456789abcdef")
                      (js "abcdef9876543210").

Definition alice : User := mkUser 1%N (js "a@x.com") (js "$2a$12$hash-a").
Definition bob : User := mkUser 2%N (js "b@x.com") (js "$2a$12$hash-b").

Definition alice_view : UserView := mkUserView 1%N (js "a@x.com").

(** A verifier that accepts a token of [alice] and a token whose subject is
    not a stored user. *)
Definition sample_jwt : JwtVerify :=
  fun token =>
    if jsstring_eqb token (js "token-alice") then Some 1%N
    else if jsstring_eqb token (js "token-ghost") then Some 99%N
    else None.

Definition sample_db : Db :=
  mkDb [alice; bob]
       [ mkBook 10%N (js "My Book") 1%N None false 500 500;
         mkBook 11%N (js "Bob's Book") 2%N None false 600 600 ]
       [] 100%N 1000 None.

Definition down_db : Db :=
  mkDb [alice; bob] (books sample_db) [] 100%N 1000
       (Some (js "Database error")).

Definition fox : jsstring := js "Once upon a time there was a fox.".

(** ["Hé€"] followed by U+1F600, which takes a surrogate pair. *)
Definition unicode_text : jsstring := [72; 233; 8364; 55357; 56832].

Definition ciphertext_of (s : jsstring) : jsstring :=
  match encrypt sample_svc (Some s) with
  | Ok c => c
  | Throw _ => []
  end.

(** The database after [alice] has added a first section to her book. *)
Definition sample_db1 : Db :=
  fst (addSection sample_svc sample_db alice_view 10%N
                  (Some (js "Ch1")) (Some fox)).


(** A database in which the book of [alice] has three sections, the second
    of which holds a story that is not a ciphertext. *)
Definition sample_db3 : Db :=
  mkDb [alice; bob] (books sample_db)
       [ mkSection 100%N (js "Ch1") (ciphertext_of (js "First story")) 10%N
                   1 1 1000 1000;
         mkSection 101%N (js "Ch2") (js "deadbeef") 10%N 2 1 1001 1001;
         mkSection 102%N (js "Ch3") (ciphertext_of fox) 10%N 3 1 1002 1002 ]
       103%N 1003 None.

(* ================================================================== *)
(** ** Well-formed byte strings and blocks *)
(* ================================================================== *)

Definition byteb (a : Z) : bool := (0 <=? a) && (a <? 256).

Definition bytes (l : list Z) : Prop := Forall is_byte l.

(** A block: 16 bytes. *)
Definition wf_block (s : list Z) : Prop :=
  List.length s = 16%nat /\ bytes s.

(** A word of the key schedule: 4 bytes. *)
Definition wf_word (w : list Z) : Prop :=
  List.length w = 4%nat /\ bytes w.

(* ================================================================== *)
(** ** The remaining queries and handlers of the book controller *)
(* ================================================================== *)

Definition books_of (db : Db) (userId : ObjectId) : list Book :=
  filter (fun b => N.eqb (b_user b) userId) (books db).

Fixpoint insert_book (x : Book) (l : list Book) : list Book :=
  match l with
  | [] => [x]
  | y :: r =>
      if b_createdAt y <=? b_createdAt x then x :: y :: r
      else y :: insert_book x r
  end.

Definition sort_books (l : list Book) : list Book :=
  fold_right insert_book [] l.

(** [Book.find({ user: userId }).sort({ createdAt: -1 })] *)
Definition Book_find_sorted (db : Db) (userId : ObjectId) : result (list Book) :=
  query db (sort_books (books_of db userId)).

(** The response of [getBooks]: [{ success: true, count, data }] with the
    list of books, or a failure response. *)
Inductive BooksResponse : Type :=
| BooksListed (count : nat) (data : list Book)
| BooksFailed (r : Response).

(** [getBooks] *)
Definition getBooks (db : Db) (user : UserView) : Db * BooksResponse :=
  match Book_find_sorted db (uv_id user) with
  | Ok books => (db, BooksListed (List.length books) books)
  | Throw e => (db, BooksFailed (failure "Failed to fetch books" e))
  end.

(** [new Book({ title, description, user })] followed by [book.save()]:
    the setters trim [title] and [description], validation runs, and the
    new document is inserted with a fresh identifier and the timestamps. *)
Definition Book_create (db : Db) (title description : option jsstring)
  (userId : ObjectId) : result (Db * Book) :=
  let doc :=
    mkBook (next_id db)
           (match title with Some t => trim t | None => [] end)
           userId
           (match description with Some d => Some (trim d) | None => None end)
           false (now db) (now db) in
  let! book := validate_book doc in
  query db
    (mkDb (users db) (books db ++ [book]) (sections db)
          (N.succ (next_id db)) (now db) (fault db), book).

(** [createBook], with [title] and [description] the fields of [req.body]. *)
Definition createBook (db : Db) (user : UserView)
  (title description : option jsstring) : Db * Response :=
  catch500 db "Failed to create book"
    (let! saved := Book_create db title description (uv_id user) in
     let '(db', book) := saved in
     Ok (db', mkResponse 201 true (Some (js "Book created successfully"))
                         None None (BookData book))).

(** [Section.findOne({ _id: sectionId, book: bookId })] *)
Definition Section_findOne (db : Db) (sectionId bookId : ObjectId)
  : result (option Section) :=
  query db
    (find (fun s => N.eqb (s_id s) sectionId && N.eqb (s_book s) bookId)
          (sections db)).

Definition section_not_found : Response := reject 404 "Section not found".

(** [getSection] *)
Definition getSection (svc : EncryptionService) (db : Db) (user : UserView)
  (bookId sectionId : PathId) : Db * Response :=
  catch500 db "Failed to fetch section"
    (let! bookId := castObjectId "Book" bookId in
     let! book := Book_findOne db bookId (uv_id user) in
     match book with
     | None => Ok (db, book_not_found)
     | Some _ =>
         let! sectionId := castObjectId "Section" sectionId in
         let! section := Section_findOne db sectionId bookId in
         match section with
         | None => Ok (db, section_not_found)
         | Some section =>
             Ok (db, mkResponse 200 true None None None
                       (SectionData (decrypt_section svc section)))
         end
     end).

(** [Section.findByIdAndDelete(sectionId)] *)
Definition Section_findByIdAndDelete (db : Db) (sectionId : ObjectId)
  : result Db :=
  query db
    (mkDb (users db) (books db)
          (filter (fun s => negb (N.eqb (s_id s) sectionId)) (sections db))
          (next_id db) (now db) (fault db)).

(** [deleteSection] *)
Definition deleteSection (db : Db) (user : UserView)
  (bookId sectionId : PathId) : Db * Response :=
  catch500 db "Failed to delete section"
    (let! bookId := castObjectId "Book" bookId in
     let! book := Book_findOne db bookId (uv_id user) in
     match book with
     | None => Ok (db, book_not_found)
     | Some _ =>
         let! sectionId := castObjectId "Section" sectionId in
         let! section := Section_findOne db sectionId bookId in
         match section with
         | None => Ok (db, section_not_found)
         | Some _ =>
             let! db' := Section_findByIdAndDelete db sectionId in
             Ok (db', mkResponse 200 true
                        (Some (js "Section deleted successfully"))
                        None None NoData)
         end
     end).

(** Schema validation of a loaded section whose fields have been set. *)
Definition validate_loaded_section (s : Section) : result Section :=
  validated "Section"
    (title_failures "Section title is required"
                    "Title cannot be more than 200 characters" (s_title s)
     ++ order_failures (s_order s))
    s.

(** [section.save()] of the loaded document [original] whose fields now
    read [updated]: validation, the [pre('save')] hook, which recomputes
    the word count only when [story] is modified, the [updatedAt] timestamp
    of a modified document, and the write. *)
Definition Section_save (db : Db) (original updated : Section)
  : result (Db * Section) :=
  let! s := validate_loaded_section updated in
  let story_modified := negb (jsstring_eqb (s_story s) (s_story original)) in
  let modified :=
    story_modified
    || negb (jsstring_eqb (s_title s) (s_title original))
    || negb (s_order s =? s_order original) in
  let s1 := if story_modified then pre_save s else s in
  let s2 :=
    mkSection (s_id s1) (s_title s1) (s_story s1) (s_book s1) (s_order s1)
              (s_wordCount s1) (s_createdAt s1)
              (if modified then now db else s_updatedAt s1) in
  query db
    (mkDb (users db) (books db)
          (map (fun x => if N.eqb (s_id x) (s_id s2) then s2 else x)
               (sections db))
          (next_id db) (now db) (fault db), s2).

(** The body of a section update; every field may be [undefined]. *)
Record SectionPatch : Type := mkSectionPatch
  { sp_title : option jsstring;
    sp_story : option jsstring;
    sp_order : option Z }.

(** [updateSection] *)
Definition updateSection (svc : EncryptionService) (db : Db) (user : UserView)
  (bookId sectionId : PathId) (body : SectionPatch) : Db * Response :=
  catch500 db "Failed to update section"
    (let! bookId := castObjectId "Book" bookId in
     let! book := Book_findOne db bookId (uv_id user) in
     match book with
     | None => Ok (db, book_not_found)
     | Some _ =>
         let! sectionId := castObjectId "Section" sectionId in
         let! section := Section_findOne db sectionId bookId in
         match section with
         | None => Ok (db, section_not_found)
         | Some section =>
             let title :=
               match sp_title body with
               | Some t => trim t
               | None => s_title section
               end in
             let! story :=
               match sp_story body with
               | Some s => let! c := encrypt svc (Some s) in Ok (trim c)
               | None => Ok (s_story section)
               end in
             let order :=
               match sp_order body with
               | Some o => o
               | None => s_order section
               end in
             let! saved :=
               Section_save db section
                 (mkSection (s_id section) title story (s_book section) order
                            (s_wordCount section) (s_createdAt section)
                            (s_updatedAt section)) in
             let '(db', section') := saved in
             let sectionResponse :=
               match sp_story body with
               | Some s => with_story section' s
               | None => decrypt_section svc section'
               end in
             Ok (db', mkResponse 200 true
                        (Some (js "Section updated successfully"))
                        None None (SectionData sectionResponse))
         end
     end).

(* ================================================================== *)
(** ** routes/book.routes.js *)
(* ================================================================== *)

(** [router.use(authenticateToken)] in front of a handler. *)
Definition authenticated (jwt_verify : JwtVerify) (db : Db)
  (authorization : option jsstring) (handler : UserView -> Db * Response)
  : Db * Response :=
  match authenticateToken jwt_verify db authorization with
  | Rejected r => (db, r)
  | Next user => handler user
  end.

(** [router.delete('/:bookId', deleteBook)], with the outage that may
    strike between the two writes of the handler. *)
Definition route_deleteBook (jwt_verify : JwtVerify)
  (outage : option jsstring) (db : Db)
  (authorization : option jsstring) (bookId : PathId) : Db * Response :=
  authenticated jwt_verify db authorization
    (fun user => deleteBook_outage outage db user bookId).

(** [router.get('/:bookId/sections', getBookSections)] *)
Definition route_getBookSections (svc : EncryptionService)
  (jwt_verify : JwtVerify) (db : Db) (authorization : option jsstring)
  (bookId : PathId) : Db * Response :=
  authenticated jwt_verify db authorization
    (fun user => getBookSections svc db user bookId).

(* ================================================================== *)
(** ** Predicates used by the further properties *)
(* ================================================================== *)

(** A lower-case hexadecimal digit. *)
Definition is_hex_digit (c : Z) : bool :=
  ((48 <=? c) && (c <=? 57)) || ((97 <=? c) && (c <=? 102)).

(** An ASCII string. *)
Definition is_ascii (s : jsstring) : Prop := Forall (fun c => 0 <= c < 128) s.

(** Sorted as [{ order: 1, createdAt: 1 }] asks. *)
Fixpoint sections_sorted (l : list Section) : Prop :=
  match l with
  | [] => True
  | x :: r => Forall (fun y => section_leb x y = true) r /\ sections_sorted r
  end.

(** Sorted as [{ createdAt: -1 }] asks. *)
Fixpoint books_sorted (l : list Book) : Prop :=
  match l with
  | [] => True
  | x :: r =>
      Forall (fun y => b_createdAt y <= b_createdAt x) r /\ books_sorted r
  end.

(* ================================================================== *)
(** * Properties *)
(* ================================================================== *)

(** ** Word count *)

Lemma nonempty_piece (w : jsstring) :
  (0 <? Z.of_nat (List.length w)) = match w with [] => false | _ => true end.
Proof. destruct w; reflexivity. Qed.

Lemma rev_nil_inv (A : Type) (l : list A) : rev l = [] -> l = [].
Proof.
  intros H. apply (f_equal (@rev A)) in H. now rewrite rev_involutive in H.
Qed.

(** Dropping the empty pieces of the split leaves the maximal runs. *)
Lemma filter_split_tokens (s : jsstring) :
  forall insep cur, (insep = true -> cur = []) ->
    filter (fun word => 0 <? Z.of_nat (List.length word))
           (split_ws_from insep cur s) = tokens_from cur s.
Proof.
  induction s as [|c r IH]; intros insep cur Hsep; simpl.
  - rewrite nonempty_piece. destruct cur as [|x cur]; [reflexivity|].
    destruct (rev (x :: cur)) eqn:E; [|reflexivity].
    apply rev_nil_inv in E. discriminate.
  - destruct (is_ws c).
    + destruct insep.
      * rewrite (Hsep eq_refl). now apply IH.
      * simpl. rewrite nonempty_piece.
        destruct cur as [|x cur]; simpl; [now apply IH|].
        destruct (rev cur ++ [x]) eqn:E.
        { destruct (rev cur); discriminate. }
        f_equal. now apply IH.
    + apply IH. discriminate.
Qed.

Lemma Tokenized_ws_cons (c : Z) (s : jsstring) (ts : list jsstring) :
  is_ws c = true -> Tokenized s ts -> Tokenized (c :: s) ts.
Proof.
  intros Hc H. destruct H as [s Hs | sep t rest ts Hsep Ht Hn Hr Hrest].
  - apply Tok_blank. simpl. now rewrite Hc.
  - change (c :: sep ++ t ++ rest) with ((c :: sep) ++ t ++ rest).
    apply Tok_word; auto. simpl. now rewrite Hc.
Qed.

Lemma tokens_from_Tokenized (s : jsstring) :
  forall cur, forallb (fun c => negb (is_ws c)) cur = true ->
    Tokenized (rev cur ++ s) (tokens_from cur s).
Proof.
  induction s as [|c r IH]; intros cur Hcur; simpl.
  - destruct cur as [|x cur].
    + apply Tok_blank. reflexivity.
    + change (Tokenized ([] ++ rev (x :: cur) ++ []) [rev (x :: cur)]).
      apply Tok_word; auto.
      * intros E. apply rev_nil_inv in E. discriminate.
      * rewrite forallb_forall in *. intros y Hy. apply Hcur.
        now apply in_rev.
      * apply Tok_blank. reflexivity.
  - destruct (is_ws c) eqn:Hc.
    + assert (Hr : Tokenized (c :: r) (tokens_from [] r)).
      { apply Tokenized_ws_cons; auto. apply (IH []). reflexivity. }
      destruct cur as [|x cur]; [exact Hr|].
      change (Tokenized ([] ++ rev (x :: cur) ++ c :: r)
                        (rev (x :: cur) :: tokens_from [] r)).
      apply Tok_word; auto.
      * intros E. apply rev_nil_inv in E. discriminate.
      * rewrite forallb_forall in *. intros y Hy. apply Hcur.
        now apply in_rev.
    + replace (rev cur ++ c :: r) with (rev (c :: cur) ++ r)
        by (simpl; now rewrite <- app_assoc).
      apply IH. simpl. now rewrite Hc.
Qed.

Lemma tokens_Tokenized (s : jsstring) : Tokenized s (tokens s).
Proof. apply (tokens_from_Tokenized s []). reflexivity. Qed.

Lemma tokens_from_blank (s : jsstring) :
  forallb is_ws s = true -> tokens_from [] s = [].
Proof.
  induction s as [|c r IH]; simpl; [reflexivity|].
  intros H. apply andb_true_iff in H. destruct H as [Hc Hr].
  rewrite Hc. now apply IH.
Qed.

Lemma tokens_from_skip (sep s : jsstring) :
  forallb is_ws sep = true -> tokens_from [] (sep ++ s) = tokens_from [] s.
Proof.
  induction sep as [|c r IH]; simpl; [reflexivity|].
  intros H. apply andb_true_iff in H. destruct H as [Hc Hr].
  rewrite Hc. now apply IH.
Qed.

Lemma tokens_from_run (t s : jsstring) :
  forallb (fun c => negb (is_ws c)) t = true ->
  forall cur, tokens_from cur (t ++ s) = tokens_from (rev t ++ cur) s.
Proof.
  induction t as [|c r IH]; simpl; [reflexivity|].
  intros H cur. apply andb_true_iff in H. destruct H as [Hc Hr].
  apply negb_true_iff in Hc. rewrite Hc, (IH Hr).
  now rewrite <- app_assoc.
Qed.

(** The cut of a string into separators and maximal tokens is unique: it is
    the one [tokens] computes. *)
Lemma Tokenized_tokens (s : jsstring) (ts : list jsstring) :
  Tokenized s ts -> tokens s = ts.
Proof.
  unfold tokens.
  induction 1 as [s Hs | sep t rest ts Hsep Ht Hn Hr _ IH].
  - now apply tokens_from_blank.
  - rewrite (tokens_from_skip sep _ Hsep), (tokens_from_run t rest Hn).
    rewrite app_nil_r.
    destruct (rev t) as [|x l] eqn:E.
    { apply rev_nil_inv in E. contradiction. }
    destruct rest as [|c r]; cbn [tokens_from] in *.
    + rewrite <- E, rev_involutive. now rewrite <- IH.
    + rewrite Hr in *. rewrite <- E, rev_involutive. now f_equal.
Qed.

(** C9. The word count derived by the [pre('save')] hook of the Section
    model is 0 when the trimmed story is empty and otherwise the number of
    maximal white-space-delimited non-empty tokens of the trimmed story; the
    empty story counts 0 words, ["  word1   word2  word3  "] counts 3 and
    ["This is a test story content."] counts 6. *)
Theorem C9_word_count_derivation :
  (forall s : jsstring,
     wordCountOf s =
     match trim s with
     | [] => 0
     | t => Z.of_nat (List.length (tokens t))
     end)
  /\ (forall sec : Section,
        s_wordCount (pre_save sec) = spec_wordCount (s_story sec))
  /\ wordCountOf [] = 0
  /\ wordCountOf (js "  word1   word2  word3  ") = 3
  /\ wordCountOf (js "This is a test story content.") = 6.
Proof.
  assert (H : forall s, wordCountOf s = spec_wordCount s).
  { intros s. unfold wordCountOf, spec_wordCount, split_ws, tokens.
    destruct (trim s) as [|c t]; [reflexivity|].
    rewrite filter_split_tokens; [reflexivity | discriminate]. }
  repeat split; try reflexivity.
  - intros s. rewrite H. reflexivity.
  - intros sec. simpl. apply H.
Qed.

(** ** Construction of the cipher *)

(** C10, as stated in bytes, fails in both directions: a key of 32
    characters one of which is not ASCII has 33 bytes, and construction
    succeeds; a key of 16 two-byte characters has 32 bytes, and construction
    fails. *)
Lemma C10_bytes_counterexample :
  let key := repeat 97 31 ++ [233] in
  let key' := repeat 233 16 in
  let v := repeat 97 16%nat in
  (List.length (utf8_encode key) <> 32%nat
   /\ new_EncryptionService (Some key) (Some v)
        = Ok (mkEncryptionService key v))
  /\ (List.length (utf8_encode key') = 32%nat
      /\ List.length (utf8_encode v) = 16%nat
      /\ exists e, new_EncryptionService (Some key') (Some v) = Throw e).
Proof.
  split; [split; [vm_compute; discriminate | reflexivity]|].
  split; [reflexivity|]. split; [reflexivity|].
  eexists. reflexivity.
Qed.

(** C10, amended. Construction fails exactly when the key is absent or not
    32 characters (code units) long, or the IV is absent or not 16
    characters long; it succeeds exactly when the key has 32 characters and
    the IV 16, and then returns the service holding both. *)
Theorem C10_construction_validation (key v : option jsstring) :
  ((exists e, new_EncryptionService key v = Throw e) <->
   ~ ((exists k, key = Some k /\ List.length k = 32%nat)
      /\ (exists i, v = Some i /\ List.length i = 16%nat)))
  /\ (forall svc,
        new_EncryptionService key v = Ok svc <->
        (key = Some (secretKey svc) /\ List.length (secretKey svc) = 32%nat
         /\ v = Some (iv svc) /\ List.length (iv svc) = 16%nat)).
Proof.
  unfold new_EncryptionService.
  destruct key as [k|].
  2:{ split; [split; [|eauto]; intros _ [[k [E _]] _]; discriminate|].
      intros svc. split; [discriminate | intros [E _]; discriminate]. }
  destruct (Nat.eqb_spec (List.length k) 32) as [Hk|Hk]; simpl.
  2:{ split; [split; [|eauto]; intros _ [[k' [E Hl]] _]; congruence|].
      intros svc. split; [discriminate | intros [E [Hl _]]; congruence]. }
  destruct v as [i|].
  2:{ split; [split; [|eauto]; intros _ [_ [i [E _]]]; discriminate|].
      intros svc. split; [discriminate | intros [_ [_ [E _]]]; discriminate]. }
  destruct (Nat.eqb_spec (List.length i) 16) as [Hi|Hi]; simpl.
  2:{ split; [split; [|eauto]; intros _ [_ [i' [E Hl]]]; congruence|].
      intros svc. split; [discriminate | intros [_ [_ [E Hl]]]; congruence]. }
  split.
  - split.
    + intros [e He]. discriminate.
    + intros Hn. exfalso. apply Hn. split; eauto.
  - intros svc. split.
    + intros E. injection E as E. subst svc. simpl. auto.
    + intros [E1 [_ [E2 _]]]. destruct svc as [k' i']. simpl in *. congruence.
Qed.

(** ** Bytes: proofs by enumeration *)

Lemma byteb_spec (a : Z) : byteb a = true <-> is_byte a.
Proof. unfold byteb, is_byte. rewrite andb_true_iff. lia. Qed.

Lemma byte_values_complete (a : Z) : is_byte a -> In a byte_values.
Proof.
  intros [H0 H1]. unfold byte_values.
  rewrite <- (Z2Nat.id a H0). apply in_map. apply in_seq. lia.
Qed.

Lemma byte_forall (f : Z -> bool) :
  forallb f byte_values = true -> forall a, is_byte a -> f a = true.
Proof.
  intros H a Ha. rewrite forallb_forall in H.
  apply H. now apply byte_values_complete.
Qed.

Lemma byte_forall2 (f : Z -> Z -> bool) :
  forallb (fun a => forallb (f a) byte_values) byte_values = true ->
  forall a b, is_byte a -> is_byte b -> f a b = true.
Proof.
  intros H a b Ha Hb.
  pose proof (byte_forall _ H a Ha) as H'. cbv beta in H'.
  exact (byte_forall _ H' b Hb).
Qed.

Lemma lxor_byte (a b : Z) : is_byte a -> is_byte b -> is_byte (Z.lxor a b).
Proof.
  intros Ha Hb. apply byteb_spec.
  apply (byte_forall2 (fun x y => byteb (Z.lxor x y))); [|assumption..].
  vm_compute. reflexivity.
Qed.

Lemma zero_byte : is_byte 0.
Proof. unfold is_byte. lia. Qed.

Lemma nth_bytes (l : list Z) (i : nat) : bytes l -> is_byte (nth i l 0).
Proof.
  intros H. destruct (nth_in_or_default i l 0) as [Hin | ->].
  - unfold bytes in H. rewrite Forall_forall in H. now apply H.
  - apply zero_byte.
Qed.

Lemma bytes_of_table (l : list Z) : forallb byteb l = true -> bytes l.
Proof.
  intros H. apply Forall_forall. intros x Hx.
  rewrite forallb_forall in H. apply byteb_spec. now apply H.
Qed.

Lemma sbox_byte (a : Z) : is_byte (sbox a).
Proof.
  apply nth_bytes. apply bytes_of_table. vm_compute. reflexivity.
Qed.

Lemma inv_sbox_byte (a : Z) : is_byte (inv_sbox a).
Proof.
  apply nth_bytes. apply bytes_of_table. vm_compute. reflexivity.
Qed.

Lemma inv_sbox_sbox (a : Z) : is_byte a -> inv_sbox (sbox a) = a.
Proof.
  intros Ha. apply Z.eqb_eq.
  apply (byte_forall (fun x => inv_sbox (sbox x) =? x)); [|assumption].
  vm_compute. reflexivity.
Qed.

Lemma xtime_byte (a : Z) : is_byte a -> is_byte (xtime a).
Proof.
  intros Ha. apply byteb_spec.
  apply (byte_forall (fun x => byteb (xtime x))); [|assumption].
  vm_compute. reflexivity.
Qed.

Lemma xtime_lxor (a b : Z) :
  is_byte a -> is_byte b -> xtime (Z.lxor a b) = Z.lxor (xtime a) (xtime b).
Proof.
  intros Ha Hb. apply Z.eqb_eq.
  apply (byte_forall2
           (fun x y => xtime (Z.lxor x y) =? Z.lxor (xtime x) (xtime y)));
    [|assumption..].
  vm_compute. reflexivity.
Qed.

(** ** Exclusive or *)

Lemma lxor_interchange (a b c d : Z) :
  Z.lxor (Z.lxor a b) (Z.lxor c d) = Z.lxor (Z.lxor a c) (Z.lxor b d).
Proof.
  apply Z.bits_inj'. intros n _. rewrite !Z.lxor_spec. btauto.
Qed.

Lemma lxor_cancel_r (a b : Z) : Z.lxor (Z.lxor a b) b = a.
Proof.
  rewrite Z.lxor_assoc, Z.lxor_nilpotent. apply Z.lxor_0_r.
Qed.

Lemma xor4_byte (a b c d : Z) :
  is_byte a -> is_byte b -> is_byte c -> is_byte d -> is_byte (xor4 a b c d).
Proof. intros. unfold xor4. auto using lxor_byte. Qed.

Lemma xor4_transpose (a0 a1 a2 a3 b0 b1 b2 b3 c0 c1 c2 c3 d0 d1 d2 d3 : Z) :
  xor4 (xor4 a0 a1 a2 a3) (xor4 b0 b1 b2 b3)
       (xor4 c0 c1 c2 c3) (xor4 d0 d1 d2 d3)
  = xor4 (xor4 a0 b0 c0 d0) (xor4 a1 b1 c1 d1)
         (xor4 a2 b2 c2 d2) (xor4 a3 b3 c3 d3).
Proof.
  unfold xor4. apply Z.bits_inj'. intros n _. rewrite !Z.lxor_spec. btauto.
Qed.

(** ** Multiplication in GF(2^8) is additive in its first argument *)

Lemma gmul_n_byte (n : nat) :
  forall a b, is_byte a -> is_byte (gmul_n n a b).
Proof.
  induction n as [|n IH]; intros a b Ha; simpl.
  - apply zero_byte.
  - apply lxor_byte.
    + destruct (Z.odd b); [assumption | apply zero_byte].
    + apply IH. now apply xtime_byte.
Qed.

Lemma gmul_byte (a b : Z) : is_byte a -> is_byte (gmul a b).
Proof. apply gmul_n_byte. Qed.

Lemma gmul_n_lxor (n : nat) :
  forall a b c, is_byte a -> is_byte b ->
    gmul_n n (Z.lxor a b) c = Z.lxor (gmul_n n a c) (gmul_n n b c).
Proof.
  induction n as [|n IH]; intros a b c Ha Hb; simpl; [reflexivity|].
  rewrite xtime_lxor by assumption.
  rewrite IH by now apply xtime_byte.
  rewrite <- lxor_interchange. f_equal.
  destruct (Z.odd c); reflexivity.
Qed.

Lemma gmul_lxor (a b c : Z) :
  is_byte a -> is_byte b -> gmul (Z.lxor a b) c = Z.lxor (gmul a c) (gmul b c).
Proof. apply gmul_n_lxor. Qed.

Lemma gmul_xor4 (p q r s c : Z) :
  is_byte p -> is_byte q -> is_byte r -> is_byte s ->
  gmul (xor4 p q r s) c = xor4 (gmul p c) (gmul q c) (gmul r c) (gmul s c).
Proof.
  intros Hp Hq Hr Hs. unfold xor4.
  rewrite !gmul_lxor; auto using lxor_byte.
Qed.

(** ** The steps of a round and their inverses *)

Lemma byte_forall_eq (f g : Z -> Z) :
  forallb (fun a => f a =? g a) byte_values = true ->
  forall a, is_byte a -> f a = g a.
Proof.
  intros H a Ha. apply Z.eqb_eq.
  exact (byte_forall (fun a => f a =? g a) H a Ha).
Qed.

(** [single_var T a Ha] establishes that the term [T], which mentions the
    byte [a] only, equals [a] or equals [0], by trying the 256 bytes. *)
Ltac single_var T a Ha :=
  first
    [ assert (T = a) as ->
        by (generalize a Ha; apply byte_forall_eq; vm_compute; reflexivity)
    | assert (T = 0) as ->
        by (generalize a Ha; apply byte_forall_eq; vm_compute; reflexivity) ].

Ltac mix_component a0 a1 a2 a3 H0 H1 H2 H3 :=
  rewrite !gmul_xor4 by auto using gmul_byte;
  rewrite xor4_transpose;
  match goal with
  | |- xor4 ?T0 ?T1 ?T2 ?T3 = _ =>
      single_var T0 a0 H0; single_var T1 a1 H1;
      single_var T2 a2 H2; single_var T3 a3 H3
  end;
  unfold xor4; rewrite ?Z.lxor_0_r, ?Z.lxor_0_l; reflexivity.

Lemma inv_mix_column_mix_column (a0 a1 a2 a3 : Z) :
  is_byte a0 -> is_byte a1 -> is_byte a2 -> is_byte a3 ->
  inv_mix_column
    (xor4 (gmul a0 2) (gmul a1 3) a2 a3)
    (xor4 a0 (gmul a1 2) (gmul a2 3) a3)
    (xor4 a0 a1 (gmul a2 2) (gmul a3 3))
    (xor4 (gmul a0 3) a1 a2 (gmul a3 2))
  = [a0; a1; a2; a3].
Proof.
  intros H0 H1 H2 H3. unfold inv_mix_column.
  f_equal; [|f_equal; [|f_equal; [|f_equal]]];
    mix_component a0 a1 a2 a3 H0 H1 H2 H3.
Qed.

Ltac explode s H :=
  do 16 (let x := fresh "b" in
         destruct s as [|x s]; [simpl in H; discriminate|]);
  destruct s; [|simpl in H; discriminate].

Ltac invert_bytes :=
  repeat match goal with
         | H : bytes (_ :: _) |- _ => inversion H; clear H; subst
         | H : Forall is_byte (_ :: _) |- _ => inversion H; clear H; subst
         end.

Lemma bytes_map (f : Z -> Z) (s : list Z) :
  (forall a, is_byte (f a)) -> bytes (map f s).
Proof. intros H. apply Forall_forall. intros x Hx.
  apply in_map_iff in Hx. destruct Hx as [y [<- _]]. apply H. Qed.

Lemma sub_bytes_wf (s : list Z) : wf_block s -> wf_block (sub_bytes s).
Proof.
  intros [Hl _]. split.
  - unfold sub_bytes. now rewrite length_map.
  - apply bytes_map. apply sbox_byte.
Qed.

Lemma inv_sub_bytes_sub_bytes (s : list Z) :
  bytes s -> inv_sub_bytes (sub_bytes s) = s.
Proof.
  intros H. unfold inv_sub_bytes, sub_bytes. rewrite map_map.
  rewrite <- (map_id s) at 2. apply map_ext_in.
  intros a Ha. apply inv_sbox_sbox.
  unfold bytes in H. rewrite Forall_forall in H. now apply H.
Qed.

Lemma permute_bytes (p : list nat) (s : list Z) : bytes s -> bytes (permute p s).
Proof.
  intros H. apply Forall_forall. intros x Hx.
  apply in_map_iff in Hx. destruct Hx as [i [<- _]]. now apply nth_bytes.
Qed.

Lemma shift_rows_wf (s : list Z) : wf_block s -> wf_block (shift_rows s).
Proof.
  intros [Hl Hb]. split.
  - unfold shift_rows, permute. now rewrite length_map.
  - now apply permute_bytes.
Qed.

Lemma inv_shift_rows_shift_rows (s : list Z) :
  List.length s = 16%nat -> inv_shift_rows (shift_rows s) = s.
Proof. intros H. explode s H. reflexivity. Qed.

Lemma mix_columns_wf (s : list Z) : wf_block s -> wf_block (mix_columns s).
Proof.
  intros [Hl Hb]. explode s Hl. invert_bytes.
  split; [reflexivity|].
  cbn [mix_columns mix_column app].
  repeat constructor; apply xor4_byte; auto using gmul_byte.
Qed.

Lemma inv_mix_columns_mix_columns (s : list Z) :
  wf_block s -> inv_mix_columns (mix_columns s) = s.
Proof.
  intros [Hl Hb]. explode s Hl. invert_bytes.
  cbn [mix_columns mix_column app inv_mix_columns].
  rewrite !inv_mix_column_mix_column by assumption.
  reflexivity.
Qed.

Lemma xor_bytes_length (a b : list Z) :
  List.length a = List.length b ->
  List.length (xor_bytes a b) = List.length a.
Proof.
  revert b. induction a as [|x a IH]; intros [|y b] H; simpl in *;
    try discriminate; auto.
Qed.

Lemma xor_bytes_bytes (a b : list Z) :
  bytes a -> bytes b -> bytes (xor_bytes a b).
Proof.
  intros Ha. revert b. induction Ha as [|x a Hx Ha IH]; intros b Hb; simpl.
  - constructor.
  - destruct Hb as [|y b Hy Hb]; constructor; auto using lxor_byte.
    now apply IH.
Qed.

Lemma xor_bytes_cancel (a b : list Z) :
  List.length a = List.length b -> xor_bytes (xor_bytes a b) b = a.
Proof.
  revert b. induction a as [|x a IH]; intros [|y b] H; simpl in *;
    try discriminate; auto.
  rewrite lxor_cancel_r. f_equal. apply IH. lia.
Qed.

Lemma add_round_key_wf (s k : list Z) :
  wf_block s -> wf_block k -> wf_block (add_round_key s k).
Proof.
  intros [Hl Hb] [Hkl Hkb]. unfold add_round_key. split.
  - rewrite xor_bytes_length; congruence.
  - now apply xor_bytes_bytes.
Qed.

Lemma add_round_key_cancel (s k : list Z) :
  wf_block s -> wf_block k -> add_round_key (add_round_key s k) k = s.
Proof.
  intros [Hl _] [Hkl _]. apply xor_bytes_cancel. congruence.
Qed.

(** ** The block cipher and its inverse *)

Section BlockCipher.

Variable w : list (list Z).
Hypothesis round_keys_wf :
  forall r, (r <= 14)%nat -> wf_block (round_key w r).

Lemma aes_round_wf (st : list Z) (r : nat) :
  (r <= 14)%nat -> wf_block st -> wf_block (aes_round w st r).
Proof.
  intros Hr Hst. unfold aes_round.
  apply add_round_key_wf; [|now apply round_keys_wf].
  now apply mix_columns_wf, shift_rows_wf, sub_bytes_wf.
Qed.

Lemma aes_rounds_wf (rs : list nat) :
  forall st, Forall (fun r => (r <= 14)%nat) rs -> wf_block st ->
    wf_block (fold_left (aes_round w) rs st).
Proof.
  induction rs as [|r rs IH]; intros st Hrs Hst; simpl; [assumption|].
  inversion Hrs; subst. apply IH; [assumption|]. now apply aes_round_wf.
Qed.

Lemma aes_inv_round_round (st : list Z) (r : nat) :
  (r <= 14)%nat -> wf_block st ->
  aes_inv_round w (shift_rows (sub_bytes (aes_round w st r))) r
  = shift_rows (sub_bytes st).
Proof.
  intros Hr Hst. unfold aes_inv_round.
  pose proof (aes_round_wf st r Hr Hst) as Hround.
  rewrite inv_shift_rows_shift_rows by (apply sub_bytes_wf; assumption).
  rewrite inv_sub_bytes_sub_bytes by (apply Hround).
  unfold aes_round.
  rewrite add_round_key_cancel.
  - apply inv_mix_columns_mix_columns.
    now apply shift_rows_wf, sub_bytes_wf.
  - now apply mix_columns_wf, shift_rows_wf, sub_bytes_wf.
  - now apply round_keys_wf.
Qed.

Lemma aes_inv_rounds_rounds (rs : list nat) :
  forall st, Forall (fun r => (r <= 14)%nat) rs -> wf_block st ->
    fold_left (aes_inv_round w) (rev rs)
              (shift_rows (sub_bytes (fold_left (aes_round w) rs st)))
    = shift_rows (sub_bytes st).
Proof.
  induction rs as [|r rs IH]; intros st Hrs Hst; simpl; [reflexivity|].
  inversion Hrs; subst.
  rewrite fold_left_app. simpl.
  rewrite IH by (try assumption; now apply aes_round_wf).
  now apply aes_inv_round_round.
Qed.

Lemma middle_rounds : Forall (fun r => (r <= 14)%nat) (seq 1 13).
Proof. apply Forall_forall. intros r Hr. apply in_seq in Hr. lia. Qed.

Lemma aes_cipher_wf (block : list Z) :
  wf_block block -> wf_block (aes_cipher w block).
Proof.
  intros Hb. unfold aes_cipher.
  apply add_round_key_wf; [|apply round_keys_wf; lia].
  apply shift_rows_wf, sub_bytes_wf, aes_rounds_wf; [apply middle_rounds|].
  apply add_round_key_wf; [assumption | apply round_keys_wf; lia].
Qed.

Lemma aes_inv_cipher_cipher (block : list Z) :
  wf_block block -> aes_inv_cipher w (aes_cipher w block) = block.
Proof.
  intros Hb. unfold aes_inv_cipher, aes_cipher.
  assert (H0 : wf_block (add_round_key block (round_key w 0))).
  { apply add_round_key_wf; [assumption | apply round_keys_wf; lia]. }
  assert (H13 : wf_block (fold_left (aes_round w) (seq 1 13)
                            (add_round_key block (round_key w 0)))).
  { apply aes_rounds_wf; [apply middle_rounds | assumption]. }
  rewrite add_round_key_cancel;
    [| now apply shift_rows_wf, sub_bytes_wf | apply round_keys_wf; lia].
  rewrite aes_inv_rounds_rounds by (try assumption; apply middle_rounds).
  rewrite inv_shift_rows_shift_rows by (apply sub_bytes_wf; assumption).
  rewrite inv_sub_bytes_sub_bytes by (apply H0).
  apply add_round_key_cancel; [assumption | apply round_keys_wf; lia].
Qed.

(** *** CBC mode over the block cipher *)

Lemma cbc_encrypt_wf (bl : list (list Z)) :
  forall prev, wf_block prev -> Forall wf_block bl ->
    Forall wf_block (cbc_encrypt w prev bl).
Proof.
  induction bl as [|p r IH]; intros prev Hprev Hbl; simpl; [constructor|].
  inversion Hbl; subst.
  assert (Hc : wf_block (aes_cipher w (xor_bytes p prev))).
  { apply aes_cipher_wf. now apply add_round_key_wf. }
  constructor; [assumption|]. now apply IH.
Qed.

Lemma cbc_decrypt_encrypt (bl : list (list Z)) :
  forall prev, wf_block prev -> Forall wf_block bl ->
    cbc_decrypt w prev (cbc_encrypt w prev bl) = bl.
Proof.
  induction bl as [|p r IH]; intros prev Hprev Hbl; simpl; [reflexivity|].
  inversion Hbl; subst.
  assert (Hx : wf_block (xor_bytes p prev)) by now apply add_round_key_wf.
  rewrite aes_inv_cipher_cipher by assumption.
  f_equal.
  - now apply add_round_key_cancel.
  - apply IH; [|assumption]. now apply aes_cipher_wf.
Qed.

End BlockCipher.

(** ** The key schedule yields well-formed round keys *)

Lemma words_of_wf (n : nat) :
  forall bs, List.length bs = (4 * n)%nat -> bytes bs ->
    List.length (words_of bs) = n /\ Forall wf_word (words_of bs).
Proof.
  induction n as [|n IH]; intros bs Hl Hb.
  - destruct bs; [|discriminate]. simpl. auto.
  - destruct bs as [|a [|b [|c [|d r]]]]; try (simpl in Hl; lia).
    invert_bytes.
    destruct (IH r) as [IH1 IH2]; [simpl in Hl; lia | assumption |].
    simpl. split; [now rewrite IH1|].
    constructor; [|assumption]. split; [reflexivity|].
    unfold bytes. repeat apply Forall_cons; try apply Forall_nil; assumption.
Qed.

Lemma nth_wf_word (w : list (list Z)) (i : nat) :
  Forall wf_word w -> (i < List.length w)%nat -> wf_word (nth i w []).
Proof.
  intros H Hi. rewrite Forall_forall in H. apply H. now apply nth_In.
Qed.

Lemma xor_word_wf (a b : list Z) : wf_word a -> wf_word b -> wf_word (xor_bytes a b).
Proof.
  intros [Hl Hb] [Hkl Hkb]. split.
  - rewrite xor_bytes_length; congruence.
  - now apply xor_bytes_bytes.
Qed.

Lemma sub_word_wf (a : list Z) : wf_word a -> wf_word (sub_word a).
Proof.
  intros [Hl _]. split.
  - unfold sub_word. now rewrite length_map.
  - apply bytes_map. apply sbox_byte.
Qed.

Lemma rot_word_wf (a : list Z) : wf_word a -> wf_word (rot_word a).
Proof.
  intros [Hl Hb]. destruct a as [|x a]; [discriminate|].
  unfold rot_word. split.
  - rewrite length_app. simpl in *. lia.
  - inversion Hb; subst. apply Forall_app. split; [assumption|].
    now constructor.
Qed.

Lemma rcon_wf (i : nat) : wf_word (rcon i).
Proof.
  split; [reflexivity|]. unfold rcon, bytes.
  repeat apply Forall_cons; try apply Forall_nil; try apply zero_byte.
  induction (i - 1)%nat as [|n IH]; simpl.
  - unfold is_byte. lia.
  - now apply xtime_byte.
Qed.

Lemma key_expansion_loop_wf (fuel : nat) :
  forall i w, (8 <= i)%nat -> List.length w = i -> Forall wf_word w ->
    List.length (key_expansion_loop fuel i w) = (i + fuel)%nat
    /\ Forall wf_word (key_expansion_loop fuel i w).
Proof.
  induction fuel as [|fuel IH]; intros i w Hi Hl Hw.
  - simpl. split; [lia | assumption].
  - assert (Ht : wf_word (nth (i - 1) w []))
      by (apply nth_wf_word; [assumption|lia]).
    assert (Hp : wf_word (nth (i - 8) w []))
      by (apply nth_wf_word; [assumption|lia]).
    cbn [key_expansion_loop].
    match goal with
    | |- context [key_expansion_loop fuel (S i) ?w'] =>
        destruct (IH (S i) w') as [IH1 IH2]
    end.
    + lia.
    + rewrite length_app. simpl. lia.
    + apply Forall_app. split; [assumption|].
      apply Forall_cons; [|apply Forall_nil].
      apply xor_word_wf; [assumption|].
      destruct (i mod 8 =? 0)%nat.
      * apply xor_word_wf; [|apply rcon_wf].
        now apply sub_word_wf, rot_word_wf.
      * destruct (i mod 8 =? 4)%nat; [now apply sub_word_wf | assumption].
    + split; [lia | assumption].
Qed.

Lemma concat_words_wf (l : list (list Z)) :
  Forall wf_word l ->
  List.length (List.concat l) = (4 * List.length l)%nat
  /\ bytes (List.concat l).
Proof.
  induction 1 as [|x l [Hx Hb] Hl [IH1 IH2]]; simpl.
  - split; [reflexivity | constructor].
  - split.
    + rewrite length_app. lia.
    + apply Forall_app. split; assumption.
Qed.

Lemma in_firstn (A : Type) (n : nat) (l : list A) (x : A) :
  In x (firstn n l) -> In x l.
Proof.
  intros H. rewrite <- (firstn_skipn n l). apply in_or_app. now left.
Qed.

Lemma in_skipn (A : Type) (n : nat) (l : list A) (x : A) :
  In x (skipn n l) -> In x l.
Proof.
  intros H. rewrite <- (firstn_skipn n l). apply in_or_app. now right.
Qed.

Lemma key_expansion_wf (key : list Z) :
  List.length key = 32%nat -> bytes key ->
  List.length (key_expansion key) = 60%nat
  /\ Forall wf_word (key_expansion key).
Proof.
  intros Hl Hb.
  destruct (words_of_wf 8 key Hl Hb) as [Hw1 Hw2].
  exact (key_expansion_loop_wf 52 8 (words_of key) (le_n 8) Hw1 Hw2).
Qed.

Lemma key_expansion_round_keys (key : list Z) :
  List.length key = 32%nat -> bytes key ->
  forall r, (r <= 14)%nat -> wf_block (round_key (key_expansion key) r).
Proof.
  intros Hl Hb r Hr.
  destruct (key_expansion_wf key Hl Hb) as [He1 He2].
  unfold round_key.
  generalize dependent (key_expansion key). intros w He1 He2.
  assert (Hf : Forall wf_word (firstn 4 (skipn (4 * r) w))).
  { apply Forall_forall. intros x Hx.
    rewrite Forall_forall in He2. apply He2.
    apply (in_skipn _ (4 * r)). now apply (in_firstn _ 4). }
  destruct (concat_words_wf _ Hf) as [Hc1 Hc2].
  split; [|assumption].
  rewrite Hc1, length_firstn, length_skipn, He1. lia.
Qed.

(** ** Blocks, padding and hex *)

Lemma blocks_concat (bl : list (list Z)) :
  Forall wf_block bl -> blocks (List.length bl) (List.concat bl) = bl.
Proof.
  induction 1 as [|b bl [Hl _] _ IH]; [reflexivity|].
  cbn [List.length List.concat blocks].
  rewrite firstn_app, skipn_app, Hl, Nat.sub_diag.
  rewrite firstn_all2, skipn_all2 by lia.
  cbn [firstn skipn app]. now rewrite app_nil_r, IH.
Qed.

Lemma concat_blocks (n : nat) :
  forall bs, List.length bs = (16 * n)%nat -> List.concat (blocks n bs) = bs.
Proof.
  induction n as [|n IH]; intros bs Hl.
  - destruct bs; [reflexivity | discriminate].
  - cbn [blocks List.concat]. rewrite IH.
    + apply firstn_skipn.
    + rewrite length_skipn. lia.
Qed.

Lemma bytes_firstn (n : nat) (l : list Z) : bytes l -> bytes (firstn n l).
Proof.
  intros H. apply Forall_forall. intros x Hx.
  unfold bytes in H. rewrite Forall_forall in H.
  apply H. now apply (in_firstn _ n).
Qed.

Lemma bytes_skipn (n : nat) (l : list Z) : bytes l -> bytes (skipn n l).
Proof.
  intros H. apply Forall_forall. intros x Hx.
  unfold bytes in H. rewrite Forall_forall in H.
  apply H. now apply (in_skipn _ n).
Qed.

Lemma blocks_wf (n : nat) :
  forall bs, List.length bs = (16 * n)%nat -> bytes bs ->
    Forall wf_block (blocks n bs) /\ List.length (blocks n bs) = n.
Proof.
  induction n as [|n IH]; intros bs Hl Hb; cbn [blocks].
  - split; [constructor | reflexivity].
  - destruct (IH (skipn 16 bs)) as [IH1 IH2].
    + rewrite length_skipn. lia.
    + now apply bytes_skipn.
    + split; [|cbn [List.length]; now rewrite IH2].
      constructor; [|assumption]. split.
      * rewrite length_firstn. lia.
      * now apply bytes_firstn.
Qed.

Lemma concat_blocks_wf (bl : list (list Z)) :
  Forall wf_block bl ->
  List.length (List.concat bl) = (16 * List.length bl)%nat
  /\ bytes (List.concat bl).
Proof.
  induction 1 as [|x l [Hx Hb] Hl [IH1 IH2]]; simpl.
  - split; [reflexivity | constructor].
  - split.
    + rewrite length_app. lia.
    + apply Forall_app. split; assumption.
Qed.

Lemma cbc_encrypt_length (w : list (list Z)) (bl : list (list Z)) :
  forall prev, List.length (cbc_encrypt w prev bl) = List.length bl.
Proof.
  induction bl as [|p r IH]; intros prev; simpl; [reflexivity|].
  now rewrite IH.
Qed.

Lemma pad_amount (L : nat) :
  let n := (16 - L mod 16)%nat in
  (1 <= n <= 16)%nat /\ (L + n = 16 * (L / 16 + 1))%nat.
Proof.
  cbv zeta.
  pose proof (Nat.mod_upper_bound L 16 ltac:(discriminate)) as Hm.
  pose proof (Nat.div_mod_eq L 16) as Hd.
  lia.
Qed.

Lemma pkcs7_pad_length (bs : list Z) :
  List.length (pkcs7_pad bs) = (16 * (List.length bs / 16 + 1))%nat.
Proof.
  unfold pkcs7_pad. rewrite length_app, repeat_length.
  apply (pad_amount (List.length bs)).
Qed.

Lemma pkcs7_pad_bytes (bs : list Z) : bytes bs -> bytes (pkcs7_pad bs).
Proof.
  intros H. unfold pkcs7_pad. apply Forall_app. split; [assumption|].
  apply Forall_forall. intros x Hx. apply repeat_spec in Hx. subst x.
  destruct (pad_amount (List.length bs)) as [Hn _].
  unfold is_byte. lia.
Qed.

Lemma last_repeat (x : Z) (n : nat) (l : list Z) :
  (1 <= n)%nat -> last (l ++ repeat x n) 0 = x.
Proof.
  intros Hn. destruct n as [|n]; [lia|].
  cbn [repeat]. rewrite repeat_cons, app_assoc. apply last_last.
Qed.

Lemma forallb_repeat (x : Z) (n : nat) :
  forallb (fun b => b =? x) (repeat x n) = true.
Proof.
  induction n as [|n IH]; simpl; [reflexivity|].
  now rewrite Z.eqb_refl.
Qed.

Lemma pkcs7_unpad_pad (bs : list Z) : pkcs7_unpad (pkcs7_pad bs) = Some bs.
Proof.
  unfold pkcs7_unpad, pkcs7_pad.
  destruct (pad_amount (List.length bs)) as [Hn _].
  set (n := (16 - List.length bs mod 16)%nat) in *.
  rewrite last_repeat by lia.
  destruct (Z.leb_spec 1 (Z.of_nat n)); [|lia].
  destruct (Z.leb_spec (Z.of_nat n) 16); [|lia]. cbn [andb].
  rewrite length_app, repeat_length, Nat2Z.id.
  replace (List.length bs + n - n)%nat with (List.length bs + 0)%nat by lia.
  rewrite skipn_app, firstn_app.
  replace (List.length bs + 0 - List.length bs)%nat with 0%nat by lia.
  replace (List.length bs + 0)%nat with (List.length bs) by lia.
  rewrite skipn_all, firstn_all. cbn [app skipn firstn].
  rewrite forallb_repeat. now rewrite app_nil_r.
Qed.

Lemma hex_value_digit (n : Z) :
  0 <= n < 16 -> hex_value (hex_digit n) = Some n.
Proof.
  intros Hn. unfold hex_value, hex_digit. cbv zeta.
  destruct (Z.ltb_spec n 10).
  - rewrite (Z.mod_small (48 + n) 256) by lia.
    destruct (Z.leb_spec 48 (48 + n)); [|lia].
    destruct (Z.leb_spec (48 + n) 57); [|lia]. cbn [andb]. f_equal. lia.
  - rewrite (Z.mod_small (87 + n) 256) by lia.
    destruct (Z.leb_spec 48 (87 + n)); [|lia].
    destruct (Z.leb_spec (87 + n) 57); [lia|]. cbn [andb].
    destruct (Z.leb_spec 97 (87 + n)); [|lia].
    destruct (Z.leb_spec (87 + n) 102); [|lia]. cbn [andb]. f_equal. lia.
Qed.

Lemma hex_pairs_encode (bs : list Z) : bytes bs -> hex_pairs (hex_encode bs) = bs.
Proof.
  induction 1 as [|b bs Hb _ IH]; [reflexivity|].
  unfold hex_encode in *. cbn [flat_map app hex_pairs].
  unfold is_byte in Hb.
  rewrite !hex_value_digit.
  - rewrite IH. f_equal.
    pose proof (Z.div_mod b 16 ltac:(lia)). lia.
  - apply Z.mod_pos_bound. lia.
  - split; [apply Z.div_pos; lia | apply Z.div_lt_upper_bound; lia].
Qed.

Lemma hex_encode_length (bs : list Z) :
  List.length (hex_encode bs) = (2 * List.length bs)%nat.
Proof.
  induction bs as [|b bs IH]; [reflexivity|].
  unfold hex_encode in *. cbn [flat_map app List.length]. rewrite IH. lia.
Qed.

(** ** UTF-8 *)

Ltac zlia := Z.to_euclidean_division_equations; lia.

Lemma utf8_encode_cp_bytes (c : Z) :
  0 <= c < 1114112 -> bytes (utf8_encode_cp c).
Proof.
  intros Hc. unfold utf8_encode_cp, bytes.
  destruct (Z.ltb_spec c 128); [|destruct (Z.ltb_spec c 2048);
    [|destruct (Z.ltb_spec c 65536)]];
    repeat apply Forall_cons; try apply Forall_nil; unfold is_byte; zlia.
Qed.

Lemma decode_encode_cp (c : Z) (rest : list Z) :
  scalar c ->
  utf8_decode_from d_init (utf8_encode_cp c ++ rest)
  = c :: utf8_decode_from d_init rest.
Proof.
  intros [Hc Hs]. unfold utf8_encode_cp.
  destruct (Z.ltb_spec c 128); [|destruct (Z.ltb_spec c 2048);
    [|destruct (Z.ltb_spec c 65536)]].
  - cbn [app utf8_decode_from decode_step d_need d_init decode_lead].
    unfold decode_lead.
    destruct (Z.leb_spec 0 c); [|exfalso; lia].
    destruct (Z.leb_spec c 127); [|exfalso; lia]. reflexivity.
  - cbn [app utf8_decode_from decode_step d_need d_init].
    unfold decode_lead.
    destruct (Z.leb_spec 0 (192 + c / 64)); [|exfalso; zlia].
    destruct (Z.leb_spec (192 + c / 64) 127); [exfalso; zlia|].
    destruct (Z.leb_spec 194 (192 + c / 64)); [|exfalso; zlia].
    destruct (Z.leb_spec (192 + c / 64) 223); [|exfalso; zlia].
    cbn [andb decode_step d_need d_lower d_upper d_cp].
    destruct (Z.leb_spec 128 (128 + c mod 64)); [|exfalso; zlia].
    destruct (Z.leb_spec (128 + c mod 64) 191); [|exfalso; zlia].
    cbn [andb app]. f_equal. zlia.
  - cbn [app utf8_decode_from decode_step d_need d_init].
    unfold decode_lead.
    destruct (Z.leb_spec 0 (224 + c / 4096)); [|exfalso; zlia].
    destruct (Z.leb_spec (224 + c / 4096) 127); [exfalso; zlia|].
    destruct (Z.leb_spec 194 (224 + c / 4096)); [|exfalso; zlia].
    destruct (Z.leb_spec (224 + c / 4096) 223); [exfalso; zlia|].
    destruct (Z.leb_spec 224 (224 + c / 4096)); [|exfalso; zlia].
    destruct (Z.leb_spec (224 + c / 4096) 239); [|exfalso; zlia].
    cbn [andb decode_step d_need d_lower d_upper d_cp].
    assert (Hlo : (if 224 + c / 4096 =? 224 then 160 else 128)
                  <= 128 + (c / 64) mod 64).
    { destruct (Z.eqb_spec (224 + c / 4096) 224); zlia. }
    assert (Hhi : 128 + (c / 64) mod 64
                  <= (if 224 + c / 4096 =? 237 then 159 else 191)).
    { destruct (Z.eqb_spec (224 + c / 4096) 237); zlia. }
    apply Z.leb_le in Hlo, Hhi. rewrite Hlo, Hhi.
    cbn [andb decode_step d_need d_lower d_upper d_cp app utf8_decode_from].
    destruct (Z.leb_spec 128 (128 + c mod 64)); [|exfalso; zlia].
    destruct (Z.leb_spec (128 + c mod 64) 191); [|exfalso; zlia].
    cbn [andb app]. f_equal. zlia.
  - cbn [app utf8_decode_from decode_step d_need d_init].
    unfold decode_lead.
    destruct (Z.leb_spec 0 (240 + c / 262144)); [|exfalso; zlia].
    destruct (Z.leb_spec (240 + c / 262144) 127); [exfalso; zlia|].
    destruct (Z.leb_spec 194 (240 + c / 262144)); [|exfalso; zlia].
    destruct (Z.leb_spec (240 + c / 262144) 223); [exfalso; zlia|].
    destruct (Z.leb_spec 224 (240 + c / 262144)); [|exfalso; zlia].
    destruct (Z.leb_spec (240 + c / 262144) 239); [exfalso; zlia|].
    destruct (Z.leb_spec 240 (240 + c / 262144)); [|exfalso; zlia].
    destruct (Z.leb_spec (240 + c / 262144) 244); [|exfalso; zlia].
    cbn [andb decode_step d_need d_lower d_upper d_cp].
    assert (Hlo : (if 240 + c / 262144 =? 240 then 144 else 128)
                  <= 128 + (c / 4096) mod 64).
    { destruct (Z.eqb_spec (240 + c / 262144) 240); zlia. }
    assert (Hhi : 128 + (c / 4096) mod 64
                  <= (if 240 + c / 262144 =? 244 then 143 else 191)).
    { destruct (Z.eqb_spec (240 + c / 262144) 244); zlia. }
    apply Z.leb_le in Hlo, Hhi. rewrite Hlo, Hhi.
    cbn [andb decode_step d_need d_lower d_upper d_cp app utf8_decode_from].
    destruct (Z.leb_spec 128 (128 + (c / 64) mod 64)); [|exfalso; zlia].
    destruct (Z.leb_spec (128 + (c / 64) mod 64) 191); [|exfalso; zlia].
    cbn [andb decode_step d_need d_lower d_upper d_cp app utf8_decode_from].
    destruct (Z.leb_spec 128 (128 + c mod 64)); [|exfalso; zlia].
    destruct (Z.leb_spec (128 + c mod 64) 191); [|exfalso; zlia].
    cbn [andb app]. f_equal. zlia.
Qed.

Lemma decode_encode_cps (cps : list Z) :
  Forall scalar cps ->
  utf8_decode_from d_init (flat_map utf8_encode_cp cps) = cps.
Proof.
  induction 1 as [|c cps Hc _ IH]; [reflexivity|].
  cbn [flat_map]. rewrite decode_encode_cp by assumption. now rewrite IH.
Qed.

(** The code points of a well-formed string are scalar values from which
    the string is recovered. *)
Lemma code_points_well_formed (n : nat) :
  forall s, (List.length s <= n)%nat -> well_formed s = true ->
    Forall scalar (code_points s)
    /\ flat_map utf16_of_cp (code_points s) = s.
Proof.
  induction n as [|n IH]; intros s Hn Hw.
  - destruct s; [|simpl in Hn; lia]. split; [constructor | reflexivity].
  - destruct s as [|c r]; [split; [constructor | reflexivity]|].
    cbn [well_formed code_points] in *.
    apply andb_true_iff in Hw. destruct Hw as [Hrange Hw].
    apply andb_true_iff in Hrange. destruct Hrange as [H0 H1].
    apply Z.leb_le in H0. apply Z.ltb_lt in H1.
    destruct (is_high_surrogate c) eqn:Hh.
    + destruct r as [|lo r']; [discriminate|].
      apply andb_true_iff in Hw. destruct Hw as [Hl Hw]. rewrite Hl.
      destruct (IH r') as [IH1 IH2]; [simpl in Hn; lia | assumption |].
      unfold is_high_surrogate in Hh. unfold is_low_surrogate in Hl.
      apply andb_true_iff in Hh, Hl.
      destruct Hh as [Hh1 Hh2], Hl as [Hl1 Hl2].
      apply Z.leb_le in Hh1, Hh2, Hl1, Hl2.
      split.
      * constructor; [|assumption]. unfold scalar. lia.
      * cbn [flat_map]. rewrite IH2. unfold utf16_of_cp.
        destruct (Z.ltb_spec (65536 + (c - 55296) * 1024 + (lo - 56320)) 65536);
          [lia|].
        cbn [app]. f_equal; [zlia|]. f_equal. zlia.
    + apply andb_true_iff in Hw. destruct Hw as [Hl Hw].
      apply negb_true_iff in Hl. rewrite Hl.
      destruct (IH r) as [IH1 IH2]; [simpl in Hn; lia | assumption |].
      unfold is_high_surrogate in Hh. unfold is_low_surrogate in Hl.
      apply andb_false_iff in Hh, Hl.
      rewrite !Z.leb_gt in Hh, Hl.
      split.
      * constructor; [|assumption]. unfold scalar. lia.
      * cbn [flat_map]. rewrite IH2. unfold utf16_of_cp.
        destruct (Z.ltb_spec c 65536); [reflexivity | lia].
Qed.

Lemma utf8_decode_encode (s : jsstring) :
  well_formed s = true -> utf8_decode (utf8_encode s) = s.
Proof.
  intros Hw.
  destruct (code_points_well_formed (List.length s) s (le_n _) Hw) as [H1 H2].
  unfold utf8_decode, utf8_encode. now rewrite decode_encode_cps.
Qed.

Lemma code_points_range (n : nat) :
  forall s, (List.length s <= n)%nat -> Forall is_code_unit s ->
    Forall (fun c => 0 <= c < 1114112) (code_points s).
Proof.
  induction n as [|n IH]; intros s Hn Hs.
  - destruct s; [constructor | simpl in Hn; lia].
  - destruct s as [|c r]; [constructor|].
    inversion Hs as [|? ? Hc Hr]; subst. unfold is_code_unit in Hc.
    cbn [code_points].
    destruct (is_high_surrogate c) eqn:Hh.
    + destruct r as [|lo r']; [repeat constructor; lia|].
      inversion Hr as [|? ? Hlo Hr']; subst. unfold is_code_unit in Hlo.
      destruct (is_low_surrogate lo) eqn:Hl.
      * unfold is_high_surrogate in Hh. unfold is_low_surrogate in Hl.
        apply andb_true_iff in Hh, Hl.
        destruct Hh as [Hh1 Hh2], Hl as [Hl1 Hl2].
        apply Z.leb_le in Hh1, Hh2, Hl1, Hl2.
        constructor; [lia|]. apply IH; [simpl in Hn; lia | assumption].
      * constructor; [lia|]. apply IH; [simpl in *; lia | assumption].
    + destruct (is_low_surrogate c);
        (constructor; [lia|]; apply IH; [simpl in Hn; lia | assumption]).
Qed.

Lemma utf8_encode_bytes (s : jsstring) :
  Forall is_code_unit s -> bytes (utf8_encode s).
Proof.
  intros Hs. unfold utf8_encode, bytes.
  pose proof (code_points_range (List.length s) s (le_n _) Hs) as Hc.
  induction Hc as [|c l Hc _ IH]; [constructor|].
  cbn [flat_map]. apply Forall_app. split; [|assumption].
  now apply utf8_encode_cp_bytes.
Qed.

Lemma well_formed_code_units (s : jsstring) :
  well_formed s = true -> Forall is_code_unit s.
Proof.
  remember (List.length s) as n eqn:Hn.
  assert (Hle : (List.length s <= n)%nat) by lia. clear Hn.
  revert s Hle. induction n as [|n IH]; intros s Hn Hw.
  - destruct s; [constructor | simpl in Hn; lia].
  - destruct s as [|c r]; [constructor|].
    cbn [well_formed] in Hw.
    apply andb_true_iff in Hw. destruct Hw as [Hrange Hw].
    apply andb_true_iff in Hrange. destruct Hrange as [H0 H1].
    apply Z.leb_le in H0. apply Z.ltb_lt in H1.
    constructor; [unfold is_code_unit; lia|].
    destruct (is_high_surrogate c).
    + destruct r as [|lo r']; [discriminate|].
      apply andb_true_iff in Hw. destruct Hw as [Hl Hw].
      unfold is_low_surrogate in Hl. apply andb_true_iff in Hl.
      destruct Hl as [Hl1 Hl2]. apply Z.leb_le in Hl1, Hl2.
      constructor; [unfold is_code_unit; lia|].
      apply IH; [simpl in Hn; lia | assumption].
    + apply andb_true_iff in Hw. destruct Hw as [_ Hw].
      apply IH; [simpl in Hn; lia | assumption].
Qed.

(** ** Round trip of the cipher *)

Lemma encrypt_ok (svc : EncryptionService) (t : jsstring) :
  List.length (utf8_encode (secretKey svc)) = 32%nat ->
  List.length (utf8_encode (iv svc)) = 16%nat ->
  encrypt svc (Some t) =
  Ok (hex_encode (List.concat
        (cbc_encrypt (key_expansion (utf8_encode (secretKey svc)))
                     (utf8_encode (iv svc))
                     (blocks (List.length (pkcs7_pad (utf8_encode t)) / 16)
                             (pkcs7_pad (utf8_encode t)))))).
Proof.
  intros Hk Hi. unfold encrypt, createCipheriv. rewrite Hk, Hi. reflexivity.
Qed.

Lemma odd_double (n : nat) : Nat.odd (2 * n) = false.
Proof. rewrite Nat.odd_mul. reflexivity. Qed.

(** C1. For a cipher whose key and IV are 32 and 16 bytes long, encryption
    of every well-formed string [s] (the empty string included) succeeds
    and decryption of the hex ciphertext returns [s]. *)
Theorem C1_decrypt_encrypt (svc : EncryptionService) (s : jsstring) :
  Forall is_code_unit (secretKey svc) ->
  Forall is_code_unit (iv svc) ->
  List.length (utf8_encode (secretKey svc)) = 32%nat ->
  List.length (utf8_encode (iv svc)) = 16%nat ->
  well_formed s = true ->
  exists c, encrypt svc (Some s) = Ok c /\ decrypt svc c = Ok s.
Proof.
  intros Hkc Hic Hk Hi Hs.
  rewrite (encrypt_ok svc s Hk Hi). eexists. split; [reflexivity|].
  unfold decrypt, createCipheriv. rewrite Hk, Hi. cbn [Nat.eqb negb bind].
  pose proof (utf8_encode_bytes _ Hkc) as Hkb.
  pose proof (utf8_encode_bytes _ Hic) as Hib.
  pose proof (key_expansion_round_keys _ Hk Hkb) as Hrk.
  set (w := key_expansion (utf8_encode (secretKey svc))) in *.
  set (ivb := utf8_encode (iv svc)) in *.
  assert (Hiv : wf_block ivb) by (split; assumption).
  pose proof (pkcs7_pad_length (utf8_encode s)) as Hpl.
  pose proof (pkcs7_pad_bytes (utf8_encode s)
                (utf8_encode_bytes s (well_formed_code_units s Hs))) as Hpb.
  set (padded := pkcs7_pad (utf8_encode s)) in *.
  set (nb := (List.length (utf8_encode s) / 16 + 1)%nat) in *.
  assert (Hnb : (List.length padded / 16 = nb)%nat).
  { rewrite Hpl, Nat.mul_comm. apply Nat.div_mul. discriminate. }
  rewrite Hnb.
  destruct (blocks_wf nb padded Hpl Hpb) as [Hbl Hbn].
  pose proof (cbc_encrypt_wf w Hrk (blocks nb padded) ivb Hiv Hbl) as Hcw.
  destruct (concat_blocks_wf _ Hcw) as [Hcl Hcb].
  rewrite cbc_encrypt_length, Hbn in Hcl.
  rewrite hex_encode_length, odd_double.
  rewrite hex_pairs_encode by assumption.
  rewrite Hcl.
  assert (Hz : ((16 * nb =? 0) || negb ((16 * nb) mod 16 =? 0) = false)%nat).
  { rewrite Nat.mul_comm, Nat.Div0.mod_mul.
    destruct (Nat.eqb_spec (nb * 16) 0); [subst nb; lia | reflexivity]. }
  rewrite Hz.
  replace (16 * nb / 16)%nat with nb
    by (rewrite Nat.mul_comm, Nat.div_mul; [reflexivity | discriminate]).
  rewrite <- Hbn at 1. rewrite <- (cbc_encrypt_length w (blocks nb padded) ivb).
  rewrite (blocks_concat _ Hcw).
  rewrite (cbc_decrypt_encrypt w Hrk _ ivb Hiv Hbl).
  rewrite (concat_blocks nb padded Hpl).
  subst padded. rewrite pkcs7_unpad_pad.
  rewrite (utf8_decode_encode s Hs). reflexivity.
Qed.

Lemma C1_decrypt_encrypt_witness :
  exists c, encrypt sample_svc (Some unicode_text) = Ok c
            /\ decrypt sample_svc c = Ok unicode_text.
Proof.
  apply (C1_decrypt_encrypt sample_svc unicode_text).
  - apply Forall_forall. intros x Hx. unfold is_code_unit.
    cbv in Hx. intuition lia.
  - apply Forall_forall. intros x Hx. unfold is_code_unit.
    cbv in Hx. intuition lia.
  - reflexivity.
  - reflexivity.
  - reflexivity.
Defined.

(** The empty string and the story of the end-to-end scenario. *)
Example round_trip_examples :
  (exists c, encrypt sample_svc (Some []) = Ok c /\ decrypt sample_svc c = Ok [])
  /\ (exists c, encrypt sample_svc (Some fox) = Ok c
                /\ decrypt sample_svc c = Ok fox).
Proof.
  split; [exists (ciphertext_of []) | exists (ciphertext_of fox)];
    split; vm_compute; reflexivity.
Qed.

(** ** Authentication gate *)

Lemma extract_ok_truthy (h token : jsstring) :
  extractTokenFromHeader (Some h) = Ok token -> truthy (Some h) = true.
Proof.
  unfold extractTokenFromHeader. destruct (truthy (Some h)); [reflexivity|].
  simpl. discriminate.
Qed.

(** C4. Behaviour of the code where the specification asks for
    [500 Authentication failed]: when extraction and verification succeed and the user lookup
    rejects with a storage fault, [authenticateToken] answers through its
    only [catch] block, with status 401 and message
    ["Invalid or expired token"]. *)
Theorem C4_store_fault_answers_401
  (jwt_verify : JwtVerify) (db : Db) (h token m : jsstring) (uid : ObjectId) :
  extractTokenFromHeader (Some h) = Ok token ->
  jwt_verify token = Some uid ->
  fault db = Some m ->
  authenticateToken jwt_verify db (Some h)
    = Rejected (reject 401 "Invalid or expired token")
  /\ authenticateToken jwt_verify db (Some h)
       <> Rejected (reject 500 "Authentication failed").
Proof.
  intros He Hv Hf.
  assert (E : authenticateToken jwt_verify db (Some h)
              = Rejected (reject 401 "Invalid or expired token")).
  { unfold authenticateToken. rewrite (extract_ok_truthy _ _ He), He. simpl.
    unfold verifyToken. rewrite Hv. simpl.
    unfold User_findById, query. rewrite Hf. reflexivity. }
  split; [exact E|]. rewrite E. discriminate.
Qed.

Lemma C4_store_fault_answers_401_witness :
  authenticateToken sample_jwt down_db (Some (js "Bearer token-alice"))
    = Rejected (reject 401 "Invalid or expired token")
  /\ authenticateToken sample_jwt down_db (Some (js "Bearer token-alice"))
       <> Rejected (reject 500 "Authentication failed").
Proof.
  apply (C4_store_fault_answers_401 sample_jwt down_db
           (js "Bearer token-alice") (js "token-alice")
           (js "Database error") 1%N); reflexivity.
Defined.

(** C5. Behaviour of the code where the specification asks for the message
    ["Invalid or expired token"]: when the token verifies and the lookup
    finds no user, [authenticateToken] answers with status 401 and message
    ["User not found"]. *)
Theorem C5_unknown_subject_answers_user_not_found
  (jwt_verify : JwtVerify) (db : Db) (h token : jsstring) (uid : ObjectId) :
  extractTokenFromHeader (Some h) = Ok token ->
  jwt_verify token = Some uid ->
  User_findById db uid = Ok None ->
  authenticateToken jwt_verify db (Some h)
    = Rejected (reject 401 "User not found")
  /\ authenticateToken jwt_verify db (Some h)
       <> Rejected (reject 401 "Invalid or expired token").
Proof.
  intros He Hv Hu.
  assert (E : authenticateToken jwt_verify db (Some h)
              = Rejected (reject 401 "User not found")).
  { unfold authenticateToken. rewrite (extract_ok_truthy _ _ He), He. simpl.
    unfold verifyToken. rewrite Hv. simpl. rewrite Hu. reflexivity. }
  split; [exact E|]. rewrite E. intros C. inversion C.
Qed.

Lemma C5_unknown_subject_answers_user_not_found_witness :
  authenticateToken sample_jwt sample_db (Some (js "Bearer token-ghost"))
    = Rejected (reject 401 "User not found")
  /\ authenticateToken sample_jwt sample_db (Some (js "Bearer token-ghost"))
       <> Rejected (reject 401 "Invalid or expired token").
Proof.
  apply (C5_unknown_subject_answers_user_not_found sample_jwt sample_db
           (js "Bearer token-ghost") (js "token-ghost") 99%N); reflexivity.
Defined.

(** C6, as stated, fails on the header ["Bearer "]: extraction does not
    raise, and the gate does not answer ["Access token required"]. *)
Lemma C6_bearer_empty_counterexample :
  ~ ((exists e, extractTokenFromHeader (Some (js "Bearer ")) = Throw e)
     /\ authenticateToken sample_jwt sample_db (Some (js "Bearer "))
          = Rejected (reject 401 "Access token required")).
Proof.
  intros [[e He] _]. vm_compute in He. discriminate.
Qed.

(** C6, amended. For the header ["Bearer "] [extractTokenFromHeader] returns
    the empty token; the verifier rejects the empty token, so the gate
    answers with status 401 and message ["Invalid or expired token"]. *)
Theorem C6_bearer_empty_remainder (jwt_verify : JwtVerify) (db : Db) :
  jwt_verify [] = None ->
  extractTokenFromHeader (Some (js "Bearer ")) = Ok []
  /\ authenticateToken jwt_verify db (Some (js "Bearer "))
       = Rejected (reject 401 "Invalid or expired token").
Proof.
  intros Hv. split; [reflexivity|].
  unfold authenticateToken.
  change (extractTokenFromHeader (Some (js "Bearer "))) with (@Ok jsstring []).
  change (truthy (Some (js "Bearer "))) with true. simpl.
  unfold verifyToken. rewrite Hv. reflexivity.
Qed.

Lemma C6_bearer_empty_remainder_witness :
  extractTokenFromHeader (Some (js "Bearer ")) = Ok []
  /\ authenticateToken sample_jwt sample_db (Some (js "Bearer "))
       = Rejected (reject 401 "Invalid or expired token").
Proof.
  apply (C6_bearer_empty_remainder sample_jwt sample_db). reflexivity.
Defined.

(** ** Book controller: ownership *)

Lemma query_ok (A : Type) (db : Db) (a : A) :
  fault db = None -> query db a = Ok a.
Proof. unfold query. now intros ->. Qed.

Lemma Book_findOne_hidden (db : Db) (bookId userId : ObjectId) :
  fault db = None ->
  (forall b, In b (books db) -> b_id b = bookId -> b_user b <> userId) ->
  Book_findOne db bookId userId = Ok None.
Proof.
  intros Hf Hb. unfold Book_findOne. rewrite query_ok by assumption.
  f_equal.
  destruct (find _ (books db)) as [b|] eqn:E; [|reflexivity].
  apply find_some in E. destruct E as [Hin Hm].
  apply andb_true_iff in Hm. destruct Hm as [H1 H2].
  apply N.eqb_eq in H1. apply N.eqb_eq in H2.
  exfalso. exact (Hb b Hin H1 H2).
Qed.

Lemma Book_findOne_some (db : Db) (bookId userId : ObjectId) (book : Book) :
  Book_findOne db bookId userId = Ok (Some book) ->
  fault db = None /\ In book (books db)
  /\ b_id book = bookId /\ b_user book = userId.
Proof.
  unfold Book_findOne, query.
  destruct (fault db); [discriminate|]. intros H. injection H as H.
  apply find_some in H. destruct H as [Hin Hm].
  apply andb_true_iff in Hm. destruct Hm as [H1 H2].
  apply N.eqb_eq in H1. apply N.eqb_eq in H2. auto.
Qed.

(** C2, as stated, fails for a route parameter that is not an ObjectId: no
    book bears it, yet the query rejects with a CastError, which the
    handler answers with status 500 and not with the 404 response. *)
Lemma C2_malformed_id_counterexample :
  ~ (getBook sample_db alice_view (Malformed (js "not-an-id"))
     = (sample_db, book_not_found)).
Proof.
  vm_compute. discriminate.
Qed.

(** C2, amended. When the route parameter is an ObjectId, the store answers
    and every stored book with that identifier (if any) belongs to a user
    other than the requester, each of read, update, delete, list-sections
    and add-section leaves the database unchanged and returns the same
    response: status 404, message ["Book not found"].  When the route
    parameter is not an ObjectId, each of them leaves the database
    unchanged and answers with status 500, the failure message of the
    handler and the CastError of the query. *)
Theorem C2_ownership_isolation
  (svc : EncryptionService) (db : Db) (user : UserView) (bookId : PathId)
  (body : BookPatch) (title story : option jsstring)
  (outage : option jsstring) :
  fault db = None ->
  (forall id b, bookId = WellFormed id -> In b (books db) -> b_id b = id ->
                b_user b <> uv_id user) ->
  match bookId with
  | WellFormed _ =>
      getBook db user bookId = (db, book_not_found)
      /\ updateBook db user bookId body = (db, book_not_found)
      /\ deleteBook_outage outage db user bookId = (db, book_not_found)
      /\ getBookSections svc db user bookId = (db, book_not_found)
      /\ addSection svc db user bookId title story = (db, book_not_found)
      /\ status book_not_found = 404
      /\ success book_not_found = false
      /\ message book_not_found = Some (js "Book not found")
  | Malformed segment =>
      let e := CastError segment (js "_id") (js "Book") in
      getBook db user bookId = (db, failure "Failed to fetch book" e)
      /\ updateBook db user bookId body
         = (db, failure "Failed to update book" e)
      /\ deleteBook_outage outage db user bookId
         = (db, failure "Failed to delete book" e)
      /\ getBookSections svc db user bookId
         = (db, failure "Failed to fetch book sections" e)
      /\ addSection svc db user bookId title story
         = (db, failure "Failed to add section" e)
      /\ (forall m, status (failure m e) = 500 /\ success (failure m e) = false)
  end.
Proof.
  intros Hf Hb. destruct bookId as [id|segment].
  - pose proof (Book_findOne_hidden db id (uv_id user) Hf
                  (fun b => Hb id b eq_refl)) as E.
    unfold getBook, updateBook, deleteBook_outage, getBookSections, addSection.
    cbn [castObjectId bind]. rewrite E. cbn [bind catch500].
    repeat split; reflexivity.
  - cbv zeta. repeat split; reflexivity.
Qed.

Lemma C2_ownership_isolation_witness :
  (* a book of another user *)
  (getBook sample_db alice_view 11%N = (sample_db, book_not_found)
   /\ updateBook sample_db alice_view 11%N
        (mkBookPatch (Some (js "Mine")) None None) = (sample_db, book_not_found)
   /\ deleteBook_outage None sample_db alice_view 11%N
      = (sample_db, book_not_found)
   /\ getBookSections sample_svc sample_db alice_view 11%N
        = (sample_db, book_not_found)
   /\ addSection sample_svc sample_db alice_view 11%N
        (Some (js "Ch1")) (Some fox) = (sample_db, book_not_found)
   /\ status book_not_found = 404
   /\ success book_not_found = false
   /\ message book_not_found = Some (js "Book not found"))
  (* a book that does not exist *)
  /\ getBook sample_db alice_view 12%N = (sample_db, book_not_found)
  (* a route parameter that is not an ObjectId *)
  /\ getBook sample_db alice_view (Malformed (js "not-an-id"))
     = (sample_db,
        failure "Failed to fetch book"
                (CastError (js "not-an-id") (js "_id") (js "Book"))).
Proof.
  split; [|split].
  - apply (C2_ownership_isolation sample_svc sample_db alice_view
             (WellFormed 11%N)); [reflexivity|].
    intros id b Hid [Hb|[Hb|[]]] Hi; subst b; injection Hid as <-;
      simpl in *; discriminate.
  - apply (C2_ownership_isolation sample_svc sample_db alice_view
             (WellFormed 12%N) (mkBookPatch None None None) None None None);
      [reflexivity|].
    intros id b Hid [Hb|[Hb|[]]] Hi; subst b; injection Hid as <-;
      simpl in *; discriminate.
  - apply (C2_ownership_isolation sample_svc sample_db alice_view
             (Malformed (js "not-an-id")) (mkBookPatch None None None)
             None None None); [reflexivity|].
    intros id b Hid. discriminate.
Defined.

(** ** Book controller: order of a new section *)

Lemma first_by_order_desc_spec (l : list Section) :
  match first_by_order_desc l with
  | None => l = []
  | Some m => In m l /\ forall x, In x l -> s_order x <= s_order m
  end.
Proof.
  induction l as [|s r IH]; simpl; [reflexivity|].
  destruct (first_by_order_desc r) as [m|].
  - destruct IH as [Hin Hmax].
    destruct (Z.leb_spec (s_order m) (s_order s)) as [Hle|Hlt].
    + split; [now left|]. intros x [<-|Hx]; [lia|].
      specialize (Hmax x Hx). lia.
    + split; [now right|]. intros x [<-|Hx]; [lia|]. now apply Hmax.
  - subst r. split; [now left|]. intros x [<-|[]]. lia.
Qed.

Lemma validate_section_ok (title : jsstring) (order : Z) :
  trim title <> [] -> (List.length (trim title) <= 200)%nat -> 0 <= order ->
  validate_section (Some title) order = Ok (trim title).
Proof.
  intros Hne Hlen Ho. unfold validate_section, title_failures, order_failures.
  destruct (trim title) as [|c t] eqn:E; [congruence|].
  destruct (Nat.ltb_spec 200 (List.length (c :: t))); [lia|].
  destruct (Z.ltb_spec order 0); [lia|]. reflexivity.
Qed.


(** Integers up to [2^53] in magnitude are doubles. *)
Lemma to_double_exact (n : Z) : Z.abs n <= 2 ^ 53 -> to_double n = n.
Proof.
  intros H. unfold to_double.
  destruct (Z.ltb_spec (Z.abs n) (2 ^ 53)) as [|Hge]; [reflexivity|].
  assert (Ha : Z.abs n = 2 ^ 53) by lia.
  rewrite Ha.
  destruct (Z.abs_eq_or_opp n) as [E|E]; rewrite E in Ha.
  - subst n. reflexivity.
  - assert (En : n = - 2 ^ 53) by lia. subst n. reflexivity.
Qed.



(** Below [2^53] the sum with 1 is exact. *)
Lemma js_add_1 (n : Z) : 0 <= n < 2 ^ 53 -> js_add n 1 = n + 1.
Proof.
  intros H. unfold js_add. apply to_double_exact. lia.
Qed.





(** The first section of a book gets order 1 and the next one order 2. *)
Example addSection_orders_1_then_2 :
  (exists sec, data (snd (addSection sample_svc sample_db alice_view 10%N
                            (Some (js "Ch1")) (Some fox))) = SectionData sec
               /\ s_order sec = 1 /\ s_story sec = fox)
  /\ (exists sec, data (snd (addSection sample_svc sample_db1 alice_view 10%N
                               (Some (js "Ch2")) (Some (js "The end."))))
                  = SectionData sec
                  /\ s_order sec = 2).
Proof.
  split; vm_compute; eexists; repeat split; reflexivity.
Qed.

(** ** Book controller: listing with decryption *)

Lemma insert_section_perm (x : Section) (l : list Section) :
  Permutation (insert_section x l) (x :: l).
Proof.
  induction l as [|y r IH]; simpl; [reflexivity|].
  destruct (section_leb x y); [reflexivity|].
  rewrite IH. apply perm_swap.
Qed.

Lemma sort_sections_perm (l : list Section) :
  Permutation (sort_sections l) l.
Proof.
  induction l as [|x r IH]; simpl; [reflexivity|].
  rewrite insert_section_perm. now constructor.
Qed.

Lemma decrypt_section_spec (svc : EncryptionService) (s : Section) :
  s_id (decrypt_section svc s) = s_id s
  /\ s_title (decrypt_section svc s) = s_title s
  /\ s_book (decrypt_section svc s) = s_book s
  /\ s_order (decrypt_section svc s) = s_order s
  /\ s_wordCount (decrypt_section svc s) = s_wordCount s
  /\ s_story (decrypt_section svc s) =
     match decrypt svc (s_story s) with
     | Ok plain => plain
     | Throw _ => js "[Encryption Error]"
     end.
Proof.
  unfold decrypt_section. destruct (decrypt svc (s_story s)); simpl; auto 10.
Qed.

(** C8. For a book the requester owns and a store that answers, the listing
    succeeds with status 200 and returns one entry per stored section of the
    book: each entry keeps the fields of its section, with [story] the
    decrypted text when decryption succeeds and the literal
    ["[Encryption Error]"] when it fails. *)
Theorem C8_decrypt_failure_isolation
  (svc : EncryptionService) (db : Db) (user : UserView) (bookId : ObjectId)
  (book : Book) :
  fault db = None ->
  Book_findOne db bookId (uv_id user) = Ok (Some book) ->
  exists (stored out : list Section),
    getBookSections svc db user bookId
      = (db, mkResponse 200 true None None
               (Some (List.length (sections_of db bookId)))
               (SectionsData book out))
    /\ Permutation stored (sections_of db bookId)
    /\ Forall2 (fun s o =>
                  s_id o = s_id s /\ s_title o = s_title s
                  /\ s_book o = s_book s /\ s_order o = s_order s
                  /\ s_wordCount o = s_wordCount s
                  /\ s_story o =
                     match decrypt svc (s_story s) with
                     | Ok plain => plain
                     | Throw _ => js "[Encryption Error]"
                     end) stored out.
Proof.
  intros Hf Hb.
  exists (sort_sections (sections_of db bookId)).
  exists (map (decrypt_section svc) (sort_sections (sections_of db bookId))).
  split; [|split].
  - unfold getBookSections. cbn [castObjectId bind]. rewrite Hb. cbn [bind].
    unfold Section_find_sorted. rewrite (query_ok _ _ _ Hf). cbn [bind catch500].
    rewrite length_map.
    rewrite (Permutation_length (sort_sections_perm (sections_of db bookId))).
    reflexivity.
  - apply sort_sections_perm.
  - induction (sort_sections (sections_of db bookId)) as [|s r IH]; simpl;
      constructor; auto.
    apply decrypt_section_spec.
Qed.

Lemma C8_decrypt_failure_isolation_witness :
  (exists (stored out : list Section),
     getBookSections sample_svc sample_db3 alice_view 10%N
       = (sample_db3, mkResponse 200 true None None
                        (Some (List.length (sections_of sample_db3 10%N)))
                        (SectionsData (mkBook 10%N (js "My Book") 1%N None
                                              false 500 500) out))
     /\ Permutation stored (sections_of sample_db3 10%N)
     /\ Forall2 (fun s o =>
                   s_id o = s_id s /\ s_title o = s_title s
                   /\ s_book o = s_book s /\ s_order o = s_order s
                   /\ s_wordCount o = s_wordCount s
                   /\ s_story o =
                      match decrypt sample_svc (s_story s) with
                      | Ok plain => plain
                      | Throw _ => js "[Encryption Error]"
                      end) stored out)
  /\ (exists book a b c,
        snd (getBookSections sample_svc sample_db3 alice_view 10%N)
          = mkResponse 200 true None None (Some 3%nat)
                       (SectionsData book [a; b; c])
        /\ s_story a = js "First story"
        /\ s_story b = js "[Encryption Error]"
        /\ s_story c = fox).
Proof.
  split.
  - apply (C8_decrypt_failure_isolation sample_svc sample_db3 alice_view 10%N);
      reflexivity.
  - vm_compute. do 4 eexists. repeat split; reflexivity.
Defined.

(** ** The word count stored by [addSection] *)

Lemma trimStart_no_ws (s : jsstring) :
  forallb (fun c => negb (is_ws c)) s = true -> trimStart s = s.
Proof.
  destruct s as [|c r]; [reflexivity|]. simpl.
  intros H. apply andb_true_iff in H. destruct H as [H _].
  apply negb_true_iff in H. now rewrite H.
Qed.

Lemma forallb_rev (f : Z -> bool) (s : list Z) :
  forallb f s = true -> forallb f (rev s) = true.
Proof.
  rewrite !forallb_forall. intros H x Hx. apply H. now apply in_rev.
Qed.

Lemma trim_no_ws (s : jsstring) :
  forallb (fun c => negb (is_ws c)) s = true -> trim s = s.
Proof.
  intros H. unfold trim, trimEnd.
  rewrite (trimStart_no_ws s H).
  rewrite (trimStart_no_ws (rev s) (forallb_rev _ _ H)).
  apply rev_involutive.
Qed.

Lemma split_ws_no_ws (s : jsstring) :
  forallb (fun c => negb (is_ws c)) s = true ->
  forall cur, split_ws_from false cur s = [rev cur ++ s].
Proof.
  induction s as [|c r IH]; intros H cur; simpl.
  - now rewrite app_nil_r.
  - simpl in H. apply andb_true_iff in H. destruct H as [Hc Hr].
    apply negb_true_iff in Hc. rewrite Hc.
    rewrite (IH Hr). simpl. now rewrite <- app_assoc.
Qed.

(** A non-empty string without white space counts one word. *)
Lemma wordCountOf_no_ws (s : jsstring) :
  s <> [] -> forallb (fun c => negb (is_ws c)) s = true -> wordCountOf s = 1.
Proof.
  intros Hne H. unfold wordCountOf. rewrite (trim_no_ws s H).
  destruct s as [|c r]; [congruence|].
  unfold split_ws. rewrite (split_ws_no_ws _ H). reflexivity.
Qed.

Lemma hex_digits_no_ws (b : Z) :
  is_byte b ->
  negb (is_ws (hex_digit (b / 16))) && negb (is_ws (hex_digit (b mod 16)))
  = true.
Proof.
  apply (byte_forall
           (fun b => negb (is_ws (hex_digit (b / 16)))
                     && negb (is_ws (hex_digit (b mod 16))))).
  vm_compute. reflexivity.
Qed.

Lemma hex_encode_no_ws (bs : list Z) :
  bytes bs -> forallb (fun c => negb (is_ws c)) (hex_encode bs) = true.
Proof.
  induction 1 as [|b bs Hb _ IH]; [reflexivity|].
  unfold hex_encode in *. cbn [flat_map app forallb].
  pose proof (hex_digits_no_ws b Hb) as H.
  apply andb_true_iff in H. destruct H as [H1 H2].
  now rewrite H1, H2, IH.
Qed.

(** The ciphertext of any string is a non-empty string of hex digits. *)
Lemma encrypt_ciphertext_shape (svc : EncryptionService) (s : jsstring) :
  Forall is_code_unit (secretKey svc) ->
  Forall is_code_unit (iv svc) ->
  List.length (utf8_encode (secretKey svc)) = 32%nat ->
  List.length (utf8_encode (iv svc)) = 16%nat ->
  Forall is_code_unit s ->
  exists c, encrypt svc (Some s) = Ok c
            /\ c <> []
            /\ forallb (fun x => negb (is_ws x)) c = true.
Proof.
  intros Hkc Hic Hk Hi Hs.
  rewrite (encrypt_ok svc s Hk Hi). eexists. split; [reflexivity|].
  pose proof (utf8_encode_bytes _ Hkc) as Hkb.
  pose proof (utf8_encode_bytes _ Hic) as Hib.
  pose proof (key_expansion_round_keys _ Hk Hkb) as Hrk.
  set (w := key_expansion (utf8_encode (secretKey svc))) in *.
  set (ivb := utf8_encode (iv svc)) in *.
  assert (Hiv : wf_block ivb) by (split; assumption).
  pose proof (pkcs7_pad_length (utf8_encode s)) as Hpl.
  pose proof (pkcs7_pad_bytes (utf8_encode s) (utf8_encode_bytes s Hs)) as Hpb.
  set (padded := pkcs7_pad (utf8_encode s)) in *.
  set (nb := (List.length (utf8_encode s) / 16 + 1)%nat) in *.
  assert (Hnb : (List.length padded / 16 = nb)%nat).
  { rewrite Hpl, Nat.mul_comm. apply Nat.div_mul. discriminate. }
  rewrite Hnb.
  destruct (blocks_wf nb padded Hpl Hpb) as [Hbl Hbn].
  pose proof (cbc_encrypt_wf w Hrk (blocks nb padded) ivb Hiv Hbl) as Hcw.
  destruct (concat_blocks_wf _ Hcw) as [Hcl Hcb].
  rewrite cbc_encrypt_length, Hbn in Hcl.
  split.
  - intros E. apply (f_equal (@List.length Z)) in E.
    rewrite hex_encode_length, Hcl in E. simpl in E. subst nb. lia.
  - now apply hex_encode_no_ws.
Qed.

(** Whatever the story, [addSection] stores the ciphertext and the word
    count 1. *)
Lemma addSection_stores_word_count_1
  (svc : EncryptionService) (db : Db) (user : UserView) (bookId : ObjectId)
  (book : Book) (title story : jsstring) :
  fault db = None ->
  Book_findOne db bookId (uv_id user) = Ok (Some book) ->
  Forall is_code_unit (secretKey svc) ->
  Forall is_code_unit (iv svc) ->
  List.length (utf8_encode (secretKey svc)) = 32%nat ->
  List.length (utf8_encode (iv svc)) = 16%nat ->
  Forall is_code_unit story ->
  trim title <> [] -> (List.length (trim title) <= 200)%nat ->
  Forall (fun x => 0 <= s_order x < 2 ^ 53) (sections_of db bookId) ->
  exists (db' : Db) (sec : Section),
    addSection svc db user bookId (Some title) (Some story)
      = (db', mkResponse 201 true (Some (js "Section added successfully"))
                         None None (SectionData (with_story sec story)))
    /\ sections db' = sections db ++ [sec]
    /\ encrypt svc (Some story) = Ok (s_story sec)
    /\ s_wordCount sec = 1.
Proof.
  intros Hf Hb Hkc Hic Hk Hi Hs Hne Hlen Hord.
  destruct (encrypt_ciphertext_shape svc story Hkc Hic Hk Hi Hs)
    as [c [Hc [Hcne Hcws]]].
  unfold addSection. cbn [castObjectId bind]. rewrite Hb. cbn [bind].
  unfold Section_findOne_last. rewrite (query_ok _ _ _ Hf). cbn [bind].
  rewrite Hc. cbn [bind].
  pose proof (first_by_order_desc_spec (sections_of db bookId)) as Hmax.
  set (order := match first_by_order_desc (sections_of db bookId) with
                | Some l => js_add (s_order l) 1
                | None => 1
                end).
  assert (Ho : 0 <= order).
  { subst order. destruct (first_by_order_desc (sections_of db bookId)) as [m|].
    - destruct Hmax as [Hin _]. rewrite Forall_forall in Hord.
      specialize (Hord m Hin). cbv beta in Hord.
      rewrite js_add_1 by lia. lia.
    - lia. }
  unfold Section_create. cbn [si_title si_order si_story si_book].
  rewrite (validate_section_ok title order Hne Hlen Ho).
  cbn [bind]. rewrite (query_ok _ _ _ Hf). cbn [bind catch500].
  eexists. eexists. split; [reflexivity|].
  split; [reflexivity|].
  unfold pre_save. cbn [s_story s_wordCount].
  rewrite (trim_no_ws c Hcws). split; [reflexivity|].
  now apply wordCountOf_no_ws.
Qed.

(** C3. Behaviour of the code where the specification asks for the word
    count of the plaintext: the section created for the story
    ["Once upon a time there was a fox."] stores the ciphertext as [story]
    and the word count of that ciphertext, which is 1, while the word-count
    derivation applied to the plaintext gives 8. *)
Theorem C3_stored_word_count_counts_ciphertext :
  exists (db' : Db) (resp : Response) (sec : Section) (c : jsstring),
    addSection sample_svc sample_db alice_view 10%N (Some (js "Ch1")) (Some fox)
      = (db', resp)
    /\ status resp = 201
    /\ sections db' = [sec]
    /\ encrypt sample_svc (Some fox) = Ok c
    /\ s_story sec = c
    /\ s_wordCount sec = wordCountOf c
    /\ s_wordCount sec = 1
    /\ wordCountOf fox = 8.
Proof.
  vm_compute. do 4 eexists. repeat split; reflexivity.
Qed.

(* ================================================================== *)
(** * Further properties *)
(* ================================================================== *)

(** ** The encryption service *)

(** What encryption computes, and what the ciphertext bytes are: full
    blocks of bytes that CBC decryption takes back to the padded text. *)
Lemma encrypt_pipeline (svc : EncryptionService) (s : jsstring) :
  Forall is_code_unit (secretKey svc) ->
  Forall is_code_unit (iv svc) ->
  List.length (utf8_encode (secretKey svc)) = 32%nat ->
  List.length (utf8_encode (iv svc)) = 16%nat ->
  Forall is_code_unit s ->
  exists ct : list Z,
    encrypt svc (Some s) = Ok (hex_encode ct)
    /\ bytes ct
    /\ List.length ct = (16 * (List.length (utf8_encode s) / 16 + 1))%nat
    /\ List.concat
         (cbc_decrypt (key_expansion (utf8_encode (secretKey svc)))
                      (utf8_encode (iv svc))
                      (blocks (List.length (utf8_encode s) / 16 + 1) ct))
       = pkcs7_pad (utf8_encode s).
Proof.
  intros Hkc Hic Hk Hi Hs.
  rewrite (encrypt_ok svc s Hk Hi). eexists. split; [reflexivity|].
  pose proof (utf8_encode_bytes _ Hkc) as Hkb.
  pose proof (utf8_encode_bytes _ Hic) as Hib.
  pose proof (key_expansion_round_keys _ Hk Hkb) as Hrk.
  set (w := key_expansion (utf8_encode (secretKey svc))) in *.
  set (ivb := utf8_encode (iv svc)) in *.
  assert (Hiv : wf_block ivb) by (split; assumption).
  pose proof (pkcs7_pad_length (utf8_encode s)) as Hpl.
  pose proof (pkcs7_pad_bytes (utf8_encode s) (utf8_encode_bytes s Hs)) as Hpb.
  set (padded := pkcs7_pad (utf8_encode s)) in *.
  set (nb := (List.length (utf8_encode s) / 16 + 1)%nat) in *.
  assert (Hnb : (List.length padded / 16 = nb)%nat).
  { rewrite Hpl, Nat.mul_comm. apply Nat.div_mul. discriminate. }
  rewrite Hnb.
  destruct (blocks_wf nb padded Hpl Hpb) as [Hbl Hbn].
  pose proof (cbc_encrypt_wf w Hrk (blocks nb padded) ivb Hiv Hbl) as Hcw.
  destruct (concat_blocks_wf _ Hcw) as [Hcl Hcb].
  rewrite cbc_encrypt_length, Hbn in Hcl.
  split; [assumption|]. split; [assumption|].
  rewrite <- Hbn at 1. rewrite <- (cbc_encrypt_length w (blocks nb padded) ivb).
  rewrite (blocks_concat _ Hcw).
  rewrite (cbc_decrypt_encrypt w Hrk _ ivb Hiv Hbl).
  apply (concat_blocks nb padded Hpl).
Qed.

Lemma decrypt_hex (svc : EncryptionService) (ct : list Z) (nb : nat) :
  List.length (utf8_encode (secretKey svc)) = 32%nat ->
  List.length (utf8_encode (iv svc)) = 16%nat ->
  bytes ct -> List.length ct = (16 * (nb + 1))%nat ->
  decrypt svc (hex_encode ct) =
  match pkcs7_unpad
          (List.concat
             (cbc_decrypt (key_expansion (utf8_encode (secretKey svc)))
                          (utf8_encode (iv svc)) (blocks (nb + 1) ct))) with
  | Some bs => Ok (utf8_decode bs)
  | None => Throw (Wrapped (js "Decryption failed: ") BadDecrypt)
  end.
Proof.
  intros Hk Hi Hb Hl.
  unfold decrypt, createCipheriv. rewrite Hk, Hi. cbn [Nat.eqb negb bind].
  rewrite hex_encode_length, odd_double.
  rewrite hex_pairs_encode by assumption.
  rewrite Hl.
  assert (Hz : ((16 * (nb + 1) =? 0)
                || negb ((16 * (nb + 1)) mod 16 =? 0) = false)%nat).
  { rewrite Nat.mul_comm, Nat.Div0.mod_mul.
    destruct (Nat.eqb_spec ((nb + 1) * 16) 0); [lia | reflexivity]. }
  rewrite Hz.
  replace (16 * (nb + 1) / 16)%nat with (nb + 1)%nat
    by (rewrite Nat.mul_comm, Nat.div_mul; [reflexivity | discriminate]).
  destruct (pkcs7_unpad _); reflexivity.
Qed.

(** Decryption inverts any successful encryption of a well-formed string. *)
Lemma decrypt_of_encrypt (svc : EncryptionService) (s c : jsstring) :
  Forall is_code_unit (secretKey svc) ->
  Forall is_code_unit (iv svc) ->
  List.length (utf8_encode (secretKey svc)) = 32%nat ->
  List.length (utf8_encode (iv svc)) = 16%nat ->
  well_formed s = true ->
  encrypt svc (Some s) = Ok c -> decrypt svc c = Ok s.
Proof.
  intros Hkc Hic Hk Hi Hs He.
  destruct (encrypt_pipeline svc s Hkc Hic Hk Hi
              (well_formed_code_units s Hs)) as [ct [E [Hb [Hl Hd]]]].
  rewrite E in He. injection He as <-.
  rewrite (decrypt_hex svc ct _ Hk Hi Hb Hl), Hd, pkcs7_unpad_pad.
  now rewrite (utf8_decode_encode s Hs).
Qed.

Lemma hex_digits_are_hex (b : Z) :
  is_byte b ->
  is_hex_digit (hex_digit (b / 16)) && is_hex_digit (hex_digit (b mod 16))
  = true.
Proof.
  apply (byte_forall
           (fun b => is_hex_digit (hex_digit (b / 16))
                     && is_hex_digit (hex_digit (b mod 16)))).
  vm_compute. reflexivity.
Qed.

Lemma hex_encode_hex (bs : list Z) :
  bytes bs -> forallb is_hex_digit (hex_encode bs) = true.
Proof.
  induction 1 as [|b bs Hb _ IH]; [reflexivity|].
  unfold hex_encode in *. cbn [flat_map app forallb].
  pose proof (hex_digits_are_hex b Hb) as H.
  apply andb_true_iff in H. destruct H as [H1 H2].
  now rewrite H1, H2, IH.
Qed.

(** X1. With a key of 32 bytes and an IV of 16 bytes, encryption of any
    string succeeds; the ciphertext consists of lower-case hexadecimal
    digits and has 32 characters for every started block of 16 bytes of
    the UTF-8 text, plus 32 when the text fills its last block. *)
Theorem encrypt_ciphertext_format (svc : EncryptionService) (s : jsstring) :
  Forall is_code_unit (secretKey svc) ->
  Forall is_code_unit (iv svc) ->
  List.length (utf8_encode (secretKey svc)) = 32%nat ->
  List.length (utf8_encode (iv svc)) = 16%nat ->
  Forall is_code_unit s ->
  exists c,
    encrypt svc (Some s) = Ok c
    /\ forallb is_hex_digit c = true
    /\ List.length c = (32 * (List.length (utf8_encode s) / 16 + 1))%nat.
Proof.
  intros Hkc Hic Hk Hi Hs.
  destruct (encrypt_pipeline svc s Hkc Hic Hk Hi Hs) as [ct [E [Hb [Hl _]]]].
  exists (hex_encode ct). split; [assumption|].
  split; [now apply hex_encode_hex|].
  rewrite hex_encode_length, Hl. lia.
Qed.

Lemma sample_key_units : Forall is_code_unit (secretKey sample_svc).
Proof.
  apply Forall_forall. intros x Hx. unfold is_code_unit.
  cbv in Hx. intuition lia.
Qed.

Lemma sample_iv_units : Forall is_code_unit (iv sample_svc).
Proof.
  apply Forall_forall. intros x Hx. unfold is_code_unit.
  cbv in Hx. intuition lia.
Qed.

Lemma fox_units : Forall is_code_unit fox.
Proof.
  apply well_formed_code_units. reflexivity.
Qed.

Lemma encrypt_ciphertext_format_witness :
  exists c,
    encrypt sample_svc (Some fox) = Ok c
    /\ forallb is_hex_digit c = true
    /\ List.length c = (32 * (List.length (utf8_encode fox) / 16 + 1))%nat.
Proof.
  apply (encrypt_ciphertext_format sample_svc fox).
  - exact sample_key_units.
  - exact sample_iv_units.
  - reflexivity.
  - reflexivity.
  - exact fox_units.
Defined.

(** X2. Under one key and IV, two different well-formed strings have
    different ciphertexts: encryption is injective. *)
Theorem encrypt_injective (svc : EncryptionService) (s1 s2 c1 c2 : jsstring) :
  Forall is_code_unit (secretKey svc) ->
  Forall is_code_unit (iv svc) ->
  List.length (utf8_encode (secretKey svc)) = 32%nat ->
  List.length (utf8_encode (iv svc)) = 16%nat ->
  well_formed s1 = true -> well_formed s2 = true ->
  s1 <> s2 ->
  encrypt svc (Some s1) = Ok c1 -> encrypt svc (Some s2) = Ok c2 ->
  c1 <> c2.
Proof.
  intros Hkc Hic Hk Hi H1 H2 Hne E1 E2 Hc. subst c2.
  pose proof (decrypt_of_encrypt svc s1 c1 Hkc Hic Hk Hi H1 E1) as D1.
  pose proof (decrypt_of_encrypt svc s2 c1 Hkc Hic Hk Hi H2 E2) as D2.
  congruence.
Qed.

Lemma encrypt_injective_witness : ciphertext_of fox <> ciphertext_of [].
Proof.
  apply (encrypt_injective sample_svc fox []).
  - exact sample_key_units.
  - exact sample_iv_units.
  - reflexivity.
  - reflexivity.
  - reflexivity.
  - reflexivity.
  - discriminate.
  - vm_compute. reflexivity.
  - vm_compute. reflexivity.
Defined.

(** X3. [decrypt] throws on the empty string and on every string of odd
    length, whatever the key and IV; a section whose stored story is such
    a string (the schema's default story is the empty string) is therefore
    shown with the story ["[Encryption Error]"]. *)
Theorem decrypt_rejects_empty_and_odd
  (svc : EncryptionService) (sec : Section) :
  s_story sec = [] \/ Nat.odd (List.length (s_story sec)) = true ->
  (exists cause,
     decrypt svc (s_story sec)
     = Throw (Wrapped (js "Decryption failed: ") cause))
  /\ decrypt_section svc sec = with_story sec (js "[Encryption Error]").
Proof.
  intros H.
  assert (He : exists cause,
             decrypt svc (s_story sec)
             = Throw (Wrapped (js "Decryption failed: ") cause)).
  { unfold decrypt, createCipheriv.
    destruct (negb (List.length (utf8_encode (iv svc)) =? 16)%nat).
    { cbn [bind rethrow]. eauto. }
    destruct (negb (List.length (utf8_encode (secretKey svc)) =? 32)%nat).
    { cbn [bind rethrow]. eauto. }
    cbn [bind].
    destruct H as [-> | ->]; cbn; eauto. }
  split; [exact He|].
  destruct He as [cause He]. unfold decrypt_section. now rewrite He.
Qed.

Lemma decrypt_rejects_empty_and_odd_witness :
  let sec := mkSection 20%N (js "Chapter") (js "encrypted-story") 10%N 1 2
                       500 500 in
  (exists cause,
     decrypt sample_svc (s_story sec)
     = Throw (Wrapped (js "Decryption failed: ") cause))
  /\ decrypt_section sample_svc sec = with_story sec (js "[Encryption Error]").
Proof.
  apply (decrypt_rejects_empty_and_odd sample_svc
           (mkSection 20%N (js "Chapter") (js "encrypted-story") 10%N 1 2
                      500 500)).
  right. reflexivity.
Defined.

(** X4. A key of 32 characters that is not 32 bytes long passes the
    constructor, and then every call of [encrypt] and of [decrypt] throws:
    with an invalid key length when the IV has 16 bytes, and with an
    invalid initialization vector when the IV, accepted for its 16
    characters, has not 16 bytes either, the IV being checked first. *)
Theorem accepted_key_of_wrong_byte_length
  (k i : jsstring) (svc : EncryptionService) :
  new_EncryptionService (Some k) (Some i) = Ok svc ->
  List.length (utf8_encode k) <> 32%nat ->
  let cause :=
    if (List.length (utf8_encode i) =? 16)%nat then InvalidKeyLength
    else InvalidIV in
  (forall text,
     encrypt svc text = Throw (Wrapped (js "Encryption failed: ") cause))
  /\ (forall c,
        decrypt svc c = Throw (Wrapped (js "Decryption failed: ") cause)).
Proof.
  intros Hnew Hlen cause.
  assert (Hk : secretKey svc = k /\ iv svc = i).
  { unfold new_EncryptionService in Hnew.
    destruct (negb (List.length k =? 32)%nat); [discriminate|].
    destruct (negb (List.length i =? 16)%nat); [discriminate|].
    injection Hnew as <-. split; reflexivity. }
  destruct Hk as [Hk Hi].
  assert (Hc : createCipheriv svc = Throw (Wrapped [] cause)).
  { unfold createCipheriv. rewrite Hk, Hi. subst cause.
    destruct (List.length (utf8_encode i) =? 16)%nat; [|reflexivity].
    destruct (Nat.eqb_spec (List.length (utf8_encode k)) 32); [contradiction|].
    reflexivity. }
  split; intros x; unfold encrypt, decrypt; rewrite Hc; reflexivity.
Qed.

Lemma accepted_key_of_wrong_byte_length_witness :
  (let svc := mkEncryptionService (repeat 97 31 ++ [233]) (repeat 97 16%nat) in
   (forall text,
      encrypt svc text
      = Throw (Wrapped (js "Encryption failed: ") InvalidKeyLength))
   /\ (forall c,
         decrypt svc c
         = Throw (Wrapped (js "Decryption failed: ") InvalidKeyLength)))
  /\ (let svc := mkEncryptionService (repeat 97 31 ++ [233])
                                     (repeat 97 15 ++ [233]) in
      (forall text,
         encrypt svc text = Throw (Wrapped (js "Encryption failed: ") InvalidIV))
      /\ (forall c,
            decrypt svc c
            = Throw (Wrapped (js "Decryption failed: ") InvalidIV))).
Proof.
  split.
  - apply (accepted_key_of_wrong_byte_length
             (repeat 97 31 ++ [233]) (repeat 97 16%nat)).
    + reflexivity.
    + vm_compute. discriminate.
  - apply (accepted_key_of_wrong_byte_length
             (repeat 97 31 ++ [233]) (repeat 97 15 ++ [233])).
    + reflexivity.
    + vm_compute. discriminate.
Defined.

Lemma utf8_encode_ascii (s : jsstring) : is_ascii s -> utf8_encode s = s.
Proof.
  unfold utf8_encode.
  induction 1 as [|c r Hc _ IH]; [reflexivity|].
  cbn [code_points].
  assert (Hh : is_high_surrogate c = false).
  { unfold is_high_surrogate. apply andb_false_iff. left.
    apply Z.leb_gt. lia. }
  assert (Hl : is_low_surrogate c = false).
  { unfold is_low_surrogate. apply andb_false_iff. left.
    apply Z.leb_gt. lia. }
  rewrite Hh, Hl. cbn [flat_map]. rewrite IH.
  unfold utf8_encode_cp. destruct (Z.ltb_spec c 128); [reflexivity | lia].
Qed.

Lemma ascii_code_units (s : jsstring) : is_ascii s -> Forall is_code_unit s.
Proof.
  intros H. eapply Forall_impl; [|exact H].
  intros c Hc. unfold is_code_unit. cbv beta in Hc. lia.
Qed.

(** X5. When the key and the IV are ASCII, acceptance by the constructor is
    enough: the service it returns encrypts every well-formed string and
    decrypts the ciphertext back to it. *)
Theorem ascii_configuration_round_trip
  (k i : jsstring) (svc : EncryptionService) (s : jsstring) :
  is_ascii k -> is_ascii i ->
  new_EncryptionService (Some k) (Some i) = Ok svc ->
  well_formed s = true ->
  exists c, encrypt svc (Some s) = Ok c /\ decrypt svc c = Ok s.
Proof.
  intros Hk Hi Hnew Hs.
  unfold new_EncryptionService in Hnew.
  destruct (Nat.eqb_spec (List.length k) 32) as [Lk|]; [|discriminate].
  destruct (Nat.eqb_spec (List.length i) 16) as [Li|]; [|discriminate].
  cbn [negb] in Hnew. injection Hnew as <-.
  assert (Ek : List.length (utf8_encode k) = 32%nat)
    by now rewrite utf8_encode_ascii.
  assert (Ei : List.length (utf8_encode i) = 16%nat)
    by now rewrite utf8_encode_ascii.
  destruct (encrypt_pipeline (mkEncryptionService k i) s
              (ascii_code_units k Hk) (ascii_code_units i Hi) Ek Ei
              (well_formed_code_units s Hs)) as [ct [E _]].
  exists (hex_encode ct). split; [exact E|].
  apply decrypt_of_encrypt; auto using ascii_code_units.
Qed.

Lemma sample_key_ascii : is_ascii (js "0123456789abcdef0123456789abcdef").
Proof.
  apply Forall_forall. intros x Hx. cbv in Hx. intuition lia.
Qed.

Lemma sample_iv_ascii : is_ascii (js "abcdef9876543210").
Proof.
  apply Forall_forall. intros x Hx. cbv in Hx. intuition lia.
Qed.

Lemma ascii_configuration_round_trip_witness :
  exists c, encrypt sample_svc (Some unicode_text) = Ok c
            /\ decrypt sample_svc c = Ok unicode_text.
Proof.
  apply (ascii_configuration_round_trip
           (js "0123456789abcdef0123456789abcdef") (js "abcdef9876543210")
           sample_svc unicode_text).
  - exact sample_key_ascii.
  - exact sample_iv_ascii.
  - reflexivity.
  - reflexivity.
Defined.

(** ** The JWT service and the authentication gate *)

Lemma startsWith_app (p r : jsstring) : startsWith (p ++ r) p = true.
Proof.
  induction p as [|x p IH]; simpl; [destruct r; reflexivity|].
  now rewrite Z.eqb_refl, IH.
Qed.

Lemma startsWith_inv (p s : jsstring) :
  startsWith s p = true -> s = p ++ skipn (List.length p) s.
Proof.
  revert s. induction p as [|x p IH]; intros s H; simpl in *; [reflexivity|].
  destruct s as [|y s]; [discriminate|].
  apply andb_true_iff in H. destruct H as [Hxy Hs].
  apply Z.eqb_eq in Hxy. subst y. simpl. f_equal. now apply IH.
Qed.

Lemma extract_ok_inv (authHeader : option jsstring) (token : jsstring) :
  extractTokenFromHeader authHeader = Ok token ->
  authHeader = Some (js "Bearer " ++ token).
Proof.
  destruct authHeader as [h|]; [|discriminate].
  unfold extractTokenFromHeader.
  destruct (truthy (Some h)); cbn [negb orb]; [|discriminate].
  destruct (startsWith h (js "Bearer ")) eqn:Hs; cbn [negb]; [|discriminate].
  intros H. injection H as <-. f_equal.
  exact (startsWith_inv _ _ Hs).
Qed.

Lemma extract_bearer (token : jsstring) :
  extractTokenFromHeader (Some (js "Bearer " ++ token)) = Ok token.
Proof.
  unfold extractTokenFromHeader. rewrite startsWith_app. reflexivity.
Qed.

(** X6. [extractTokenFromHeader] returns a token exactly for the headers
    made of the prefix ["Bearer "] and that token; for every other header,
    and for an absent one, it throws. *)
Theorem extractTokenFromHeader_spec
  (authHeader : option jsstring) (token : jsstring) :
  extractTokenFromHeader authHeader = Ok token
  <-> authHeader = Some (js "Bearer " ++ token).
Proof.
  split.
  - apply extract_ok_inv.
  - intros ->. apply extract_bearer.
Qed.

Lemma find_user_some (db : Db) (id : ObjectId) (u : UserView) :
  User_findById db id = Ok (Some u) ->
  fault db = None
  /\ uv_id u = id
  /\ exists stored, In stored (users db)
                    /\ u_id stored = id /\ u_email stored = uv_email u.
Proof.
  unfold User_findById, query.
  destruct (fault db); [discriminate|]. intros H. injection H as H.
  destruct (find _ (users db)) as [x|] eqn:E; [|discriminate].
  injection H as <-. apply find_some in E. destruct E as [Hin Hid].
  apply N.eqb_eq in Hid. simpl. repeat split; eauto.
Qed.

Lemma gate_next_inv
  (jwt_verify : JwtVerify) (db : Db) (authorization : option jsstring)
  (user : UserView) :
  authenticateToken jwt_verify db authorization = Next user ->
  exists token id,
    authorization = Some (js "Bearer " ++ token)
    /\ jwt_verify token = Some id
    /\ User_findById db id = Ok (Some user).
Proof.
  unfold authenticateToken.
  destruct (truthy authorization); cbn [negb]; [|discriminate].
  destruct (extractTokenFromHeader authorization) as [token|] eqn:He;
    cbn [bind]; [|discriminate].
  apply extract_ok_inv in He.
  unfold verifyToken.
  destruct (jwt_verify token) as [id|] eqn:Hv; cbn [bind]; [|discriminate].
  destruct (User_findById db id) as [[u|]|] eqn:Hu; cbn [bind];
    try discriminate.
  intros H. injection H as <-. eauto.
Qed.

Lemma gate_rejected_status
  (jwt_verify : JwtVerify) (db : Db) (authorization : option jsstring)
  (r : Response) :
  authenticateToken jwt_verify db authorization = Rejected r ->
  status r = 401.
Proof.
  unfold authenticateToken.
  destruct (truthy authorization); cbn [negb].
  2:{ intros H. injection H as <-. reflexivity. }
  destruct (extractTokenFromHeader authorization) as [token|]; cbn [bind].
  2:{ intros H. injection H as <-. reflexivity. }
  destruct (verifyToken jwt_verify token) as [id|]; cbn [bind].
  2:{ intros H. injection H as <-. reflexivity. }
  destruct (User_findById db id) as [[u|]|]; cbn [bind];
    [discriminate | |]; intros H; injection H as <-; reflexivity.
Qed.

(** X7. The gate lets a request through only with the view of a stored
    user: the header is ["Bearer "] followed by a token that verifies, the
    subject of the token is the identifier of a user in the store, the
    store answers, and [req.user] is that user without the password. *)
Theorem gate_admits_only_verified_stored_users
  (jwt_verify : JwtVerify) (db : Db) (authorization : option jsstring)
  (user : UserView) :
  authenticateToken jwt_verify db authorization = Next user ->
  exists token stored,
    authorization = Some (js "Bearer " ++ token)
    /\ jwt_verify token = Some (uv_id user)
    /\ fault db = None
    /\ In stored (users db)
    /\ u_id stored = uv_id user
    /\ u_email stored = uv_email user.
Proof.
  intros H.
  destruct (gate_next_inv _ _ _ _ H) as [token [id [Ha [Hv Hu]]]].
  destruct (find_user_some db id user Hu) as [Hf [Hid [stored [Hin [H1 H2]]]]].
  exists token, stored. subst id. auto 10.
Qed.

Lemma gate_admits_only_verified_stored_users_witness :
  exists token stored,
    Some (js "Bearer token-alice") = Some (js "Bearer " ++ token)
    /\ sample_jwt token = Some (uv_id alice_view)
    /\ fault sample_db = None
    /\ In stored (users sample_db)
    /\ u_id stored = uv_id alice_view
    /\ u_email stored = uv_email alice_view.
Proof.
  apply (gate_admits_only_verified_stored_users sample_jwt sample_db
           (Some (js "Bearer token-alice")) alice_view).
  reflexivity.
Defined.

(** X8. Whenever a Bearer token verifies, the store answers and holds a
    user with the subject's identifier, the gate calls [next()] with the
    view of the first such user. *)
Theorem gate_admits_stored_user
  (jwt_verify : JwtVerify) (db : Db) (token : jsstring) (id : ObjectId)
  (stored : User) :
  jwt_verify token = Some id ->
  fault db = None ->
  find (fun u => N.eqb (u_id u) id) (users db) = Some stored ->
  authenticateToken jwt_verify db (Some (js "Bearer " ++ token))
  = Next (mkUserView (u_id stored) (u_email stored)).
Proof.
  intros Hv Hf Hu. unfold authenticateToken.
  change (truthy (Some (js "Bearer " ++ token))) with true. cbn [negb].
  rewrite (extract_bearer token). cbn [bind].
  unfold verifyToken. rewrite Hv. cbn [bind].
  unfold User_findById, query. rewrite Hf, Hu. reflexivity.
Qed.

Lemma gate_admits_stored_user_witness :
  authenticateToken sample_jwt sample_db (Some (js "Bearer " ++ js "token-alice"))
  = Next (mkUserView (u_id alice) (u_email alice)).
Proof.
  apply (gate_admits_stored_user sample_jwt sample_db (js "token-alice") 1%N).
  - reflexivity.
  - reflexivity.
  - reflexivity.
Defined.

(** X9. Every rejection by the gate has status 401, [success: false] and
    no data; its message is one of ["Access token required"],
    ["User not found"] and ["Invalid or expired token"]. *)
Theorem gate_rejections_are_401
  (jwt_verify : JwtVerify) (db : Db) (authorization : option jsstring)
  (r : Response) :
  authenticateToken jwt_verify db authorization = Rejected r ->
  r = reject 401 "Access token required"
  \/ r = reject 401 "User not found"
  \/ r = reject 401 "Invalid or expired token".
Proof.
  unfold authenticateToken.
  destruct (truthy authorization); cbn [negb].
  2:{ intros H. injection H as <-. auto. }
  destruct (extractTokenFromHeader authorization) as [token|]; cbn [bind].
  2:{ intros H. injection H as <-. auto. }
  destruct (verifyToken jwt_verify token) as [id|]; cbn [bind].
  2:{ intros H. injection H as <-. auto. }
  destruct (User_findById db id) as [[u|]|]; cbn [bind].
  - discriminate.
  - intros H. injection H as <-. auto.
  - intros H. injection H as <-. auto.
Qed.

Lemma gate_rejections_are_401_witness :
  reject 401 "Invalid or expired token" = reject 401 "Access token required"
  \/ reject 401 "Invalid or expired token" = reject 401 "User not found"
  \/ reject 401 "Invalid or expired token" = reject 401 "Invalid or expired token".
Proof.
  apply (gate_rejections_are_401 sample_jwt down_db
           (Some (js "Bearer token-alice"))).
  reflexivity.
Defined.

(** X10. The gate answers ["Access token required"] exactly when the
    Authorization header is absent or empty. *)
Theorem gate_access_token_required_iff
  (jwt_verify : JwtVerify) (db : Db) (authorization : option jsstring) :
  authenticateToken jwt_verify db authorization
    = Rejected (reject 401 "Access token required")
  <-> truthy authorization = false.
Proof.
  split.
  - intros H. destruct (truthy authorization) eqn:Ht; [|reflexivity].
    exfalso. revert H. unfold authenticateToken. rewrite Ht. cbn [negb].
    destruct (extractTokenFromHeader authorization) as [token|]; cbn [bind];
      [|discriminate].
    destruct (verifyToken jwt_verify token) as [id|]; cbn [bind];
      [|discriminate].
    destruct (User_findById db id) as [[u|]|]; cbn [bind]; discriminate.
  - intros Ht. unfold authenticateToken. now rewrite Ht.
Qed.

(** X11. A header that is present and not empty but does not start with
    ["Bearer "] is rejected with status 401 and the message
    ["Invalid or expired token"]: the error thrown by the extraction is
    answered by the handler's only [catch] block. *)
Theorem gate_rejects_malformed_header
  (jwt_verify : JwtVerify) (db : Db) (h : jsstring) :
  h <> [] ->
  startsWith h (js "Bearer ") = false ->
  authenticateToken jwt_verify db (Some h)
  = Rejected (reject 401 "Invalid or expired token").
Proof.
  intros Hne Hs. unfold authenticateToken, extractTokenFromHeader.
  assert (Ht : truthy (Some h) = true) by (destruct h; [congruence | reflexivity]).
  rewrite Ht, Hs. reflexivity.
Qed.

Lemma gate_rejects_malformed_header_witness :
  authenticateToken sample_jwt sample_db (Some (js "InvalidFormat token"))
  = Rejected (reject 401 "Invalid or expired token").
Proof.
  apply (gate_rejects_malformed_header sample_jwt sample_db
           (js "InvalidFormat token")).
  - discriminate.
  - reflexivity.
Defined.

(** ** The word count of the Section model *)

Lemma trimStart_split (s : jsstring) :
  exists p, forallb is_ws p = true /\ s = p ++ trimStart s.
Proof.
  induction s as [|c r [p [Hp E]]]; [exists []; auto|].
  simpl. destruct (is_ws c) eqn:Hc.
  - exists (c :: p). simpl. rewrite Hc, Hp. split; [reflexivity|].
    now rewrite <- E.
  - exists []. auto.
Qed.

Lemma trimEnd_split (s : jsstring) :
  exists p, forallb is_ws p = true /\ s = trimEnd s ++ p.
Proof.
  destruct (trimStart_split (rev s)) as [p [Hp E]].
  exists (rev p). split.
  - now apply forallb_rev.
  - unfold trimEnd. rewrite <- rev_app_distr, <- E. now rewrite rev_involutive.
Qed.

Lemma tokens_from_trailing (s p : jsstring) :
  forallb is_ws p = true ->
  forall cur, tokens_from cur (s ++ p) = tokens_from cur s.
Proof.
  intros Hp. induction s as [|c r IH]; intros cur; simpl.
  - destruct p as [|w p']; [reflexivity|].
    simpl in Hp. apply andb_true_iff in Hp. destruct Hp as [Hw Hp'].
    simpl. rewrite Hw, (tokens_from_blank p' Hp').
    destruct cur; reflexivity.
  - destruct (is_ws c); [|apply IH].
    destruct cur; now rewrite IH.
Qed.

Lemma tokens_trim (s : jsstring) : tokens (trim s) = tokens s.
Proof.
  unfold trim, tokens.
  destruct (trimStart_split s) as [p [Hp E]].
  destruct (trimEnd_split (trimStart s)) as [q [Hq F]].
  rewrite E at 2. rewrite (tokens_from_skip p _ Hp).
  rewrite F at 2. now rewrite (tokens_from_trailing _ q Hq).
Qed.

(** The word count is the number of maximal runs of code units that are
    not white space, with no need to trim first. *)
Lemma wordCountOf_tokens (s : jsstring) :
  wordCountOf s = Z.of_nat (List.length (tokens s)).
Proof.
  rewrite <- (tokens_trim s). unfold wordCountOf, split_ws, tokens.
  destruct (trim s) as [|c t]; [reflexivity|].
  rewrite filter_split_tokens; [reflexivity | discriminate].
Qed.

Lemma tokens_from_nil_inv (s : jsstring) :
  forall cur, tokens_from cur s = [] -> cur = [] /\ forallb is_ws s = true.
Proof.
  induction s as [|c r IH]; intros cur H; simpl in *.
  - destruct cur; [auto | discriminate].
  - destruct (is_ws c).
    + destruct cur; [|discriminate]. split; [reflexivity|].
      simpl. now apply (IH []).
    + destruct (IH _ H) as [E _]. discriminate.
Qed.

(** X12. The word count is 0 exactly for the strings that hold nothing but
    white space (the empty string among them). *)
Theorem wordCountOf_zero_iff_blank (s : jsstring) :
  wordCountOf s = 0 <-> forallb is_ws s = true.
Proof.
  rewrite wordCountOf_tokens. split.
  - intros H. destruct (tokens s) eqn:E; [|simpl in H; lia].
    now destruct (tokens_from_nil_inv s [] E).
  - intros H. unfold tokens. now rewrite tokens_from_blank.
Qed.

Lemma tokens_from_join (a b : jsstring) (w : Z) :
  is_ws w = true ->
  forall cur,
    tokens_from cur (a ++ w :: b) = tokens_from cur a ++ tokens_from [] b.
Proof.
  intros Hw. induction a as [|c r IH]; intros cur; simpl.
  - rewrite Hw. destruct cur; reflexivity.
  - destruct (is_ws c); [|apply IH].
    destruct cur; now rewrite IH.
Qed.

(** X13. Joining two strings with a white-space code unit adds their word
    counts. *)
Theorem wordCountOf_join (a b : jsstring) (w : Z) :
  is_ws w = true ->
  wordCountOf (a ++ w :: b) = wordCountOf a + wordCountOf b.
Proof.
  intros Hw. rewrite !wordCountOf_tokens. unfold tokens.
  rewrite (tokens_from_join a b w Hw), length_app. lia.
Qed.

Lemma wordCountOf_join_witness :
  wordCountOf (js "Once upon" ++ 10 :: js "a time") = 2 + 2.
Proof.
  apply (wordCountOf_join (js "Once upon") (js "a time") 10). reflexivity.
Defined.

(** ** The book controller: reading *)

Lemma insert_book_perm (x : Book) (l : list Book) :
  Permutation (insert_book x l) (x :: l).
Proof.
  induction l as [|y r IH]; simpl; [reflexivity|].
  destruct (b_createdAt y <=? b_createdAt x); [reflexivity|].
  rewrite IH. apply perm_swap.
Qed.

Lemma sort_books_perm (l : list Book) : Permutation (sort_books l) l.
Proof.
  induction l as [|x r IH]; simpl; [reflexivity|].
  rewrite insert_book_perm. now constructor.
Qed.

Lemma insert_book_sorted (x : Book) (l : list Book) :
  books_sorted l -> books_sorted (insert_book x l).
Proof.
  induction l as [|y r IH]; intros Hs; simpl.
  - split; [constructor | exact I].
  - destruct Hs as [Hy Hr].
    destruct (Z.leb_spec (b_createdAt y) (b_createdAt x)) as [Hle|Hlt].
    + split; [|split; assumption].
      constructor; [assumption|].
      eapply Forall_impl; [|exact Hy]. intros z Hz. cbv beta in Hz. lia.
    + split; [|now apply IH].
      apply Forall_forall. intros z Hz.
      apply (Permutation_in _ (insert_book_perm x r)) in Hz.
      destruct Hz as [<-|Hz]; [lia|].
      rewrite Forall_forall in Hy. now apply Hy.
Qed.

Lemma sort_books_sorted (l : list Book) : books_sorted (sort_books l).
Proof.
  induction l as [|x r IH]; simpl; [exact I|]. now apply insert_book_sorted.
Qed.

(** X14. When the store answers, [getBooks] returns exactly the books whose
    owner is the requester, each once, the most recently created first,
    with their number as [count]; the database is not changed. *)
Theorem getBooks_lists_own_books (db : Db) (user : UserView) :
  fault db = None ->
  exists l,
    getBooks db user = (db, BooksListed (List.length l) l)
    /\ Permutation l (filter (fun b => N.eqb (b_user b) (uv_id user)) (books db))
    /\ (forall b, In b l <-> In b (books db) /\ b_user b = uv_id user)
    /\ books_sorted l.
Proof.
  intros Hf. exists (sort_books (books_of db (uv_id user))).
  split; [|split; [|split]].
  - unfold getBooks, Book_find_sorted. now rewrite (query_ok _ _ _ Hf).
  - apply sort_books_perm.
  - intros b. split.
    + intros Hin. apply (Permutation_in _ (sort_books_perm _)) in Hin.
      unfold books_of in Hin. apply filter_In in Hin.
      destruct Hin as [Hin Hu]. apply N.eqb_eq in Hu. auto.
    + intros [Hin Hu].
      apply (Permutation_in _ (Permutation_sym (sort_books_perm _))).
      unfold books_of. apply filter_In. split; [assumption|].
      now apply N.eqb_eq.
  - apply sort_books_sorted.
Qed.

Lemma getBooks_lists_own_books_witness :
  exists l,
    getBooks sample_db alice_view = (sample_db, BooksListed (List.length l) l)
    /\ Permutation l (filter (fun b => N.eqb (b_user b) (uv_id alice_view))
                             (books sample_db))
    /\ (forall b, In b l <-> In b (books sample_db) /\ b_user b = uv_id alice_view)
    /\ books_sorted l.
Proof.
  apply (getBooks_lists_own_books sample_db alice_view). reflexivity.
Defined.

Lemma section_leb_total (a b : Section) :
  section_leb a b = false -> section_leb b a = true.
Proof.
  unfold section_leb. intros H.
  apply orb_false_iff in H. destruct H as [H1 H2].
  apply Z.ltb_ge in H1.
  destruct (Z.ltb_spec (s_order b) (s_order a)); [reflexivity|].
  assert (E : s_order a = s_order b) by lia.
  rewrite E, Z.eqb_refl in *. cbn [andb orb] in *.
  apply Z.leb_gt in H2. apply Z.leb_le. lia.
Qed.

Lemma section_leb_trans (a b c : Section) :
  section_leb a b = true -> section_leb b c = true -> section_leb a c = true.
Proof.
  unfold section_leb. intros H1 H2.
  apply orb_true_iff in H1. apply orb_true_iff in H2.
  apply orb_true_iff.
  rewrite !andb_true_iff, !Z.ltb_lt, !Z.eqb_eq, !Z.leb_le in *.
  lia.
Qed.

Lemma insert_section_sorted (x : Section) (l : list Section) :
  sections_sorted l -> sections_sorted (insert_section x l).
Proof.
  induction l as [|y r IH]; intros Hs; simpl.
  - split; [constructor | exact I].
  - destruct Hs as [Hy Hr].
    destruct (section_leb x y) eqn:Hxy.
    + split; [|split; assumption].
      constructor; [assumption|].
      eapply Forall_impl; [|exact Hy]. intros z Hz. cbv beta in Hz.
      now apply (section_leb_trans x y z).
    + split; [|now apply IH].
      apply Forall_forall. intros z Hz.
      apply (Permutation_in _ (insert_section_perm x r)) in Hz.
      destruct Hz as [<-|Hz]; [now apply section_leb_total|].
      rewrite Forall_forall in Hy. now apply Hy.
Qed.

Lemma sort_sections_sorted (l : list Section) :
  sections_sorted (sort_sections l).
Proof.
  induction l as [|x r IH]; simpl; [exact I|].
  now apply insert_section_sorted.
Qed.

Lemma section_leb_decrypt (svc : EncryptionService) (a b : Section) :
  section_leb (decrypt_section svc a) (decrypt_section svc b)
  = section_leb a b.
Proof.
  unfold section_leb, decrypt_section.
  destruct (decrypt svc (s_story a)), (decrypt svc (s_story b)); reflexivity.
Qed.

Lemma sections_sorted_decrypt (svc : EncryptionService) (l : list Section) :
  sections_sorted l -> sections_sorted (map (decrypt_section svc) l).
Proof.
  induction l as [|x r IH]; intros Hs; simpl; [exact I|].
  destruct Hs as [Hx Hr]. split; [|now apply IH].
  apply Forall_forall. intros z Hz. apply in_map_iff in Hz.
  destruct Hz as [y [<- Hy]]. rewrite section_leb_decrypt.
  rewrite Forall_forall in Hx. now apply Hx.
Qed.

(** X15. The sections returned by [getBookSections] are in ascending
    [order], and by ascending creation time where orders are equal. *)
Theorem getBookSections_sorted
  (svc : EncryptionService) (db : Db) (user : UserView) (bookId : ObjectId)
  (book : Book) :
  fault db = None ->
  Book_findOne db bookId (uv_id user) = Ok (Some book) ->
  exists n out,
    getBookSections svc db user bookId
      = (db, mkResponse 200 true None None (Some n) (SectionsData book out))
    /\ sections_sorted out.
Proof.
  intros Hf Hb. unfold getBookSections, Section_find_sorted.
  cbn [castObjectId bind].
  rewrite Hb, (query_ok _ _ _ Hf). cbn [bind catch500].
  eexists. eexists. split; [reflexivity|].
  apply sections_sorted_decrypt, sort_sections_sorted.
Qed.

Lemma getBookSections_sorted_witness :
  exists n out,
    getBookSections sample_svc sample_db3 alice_view 10%N
      = (sample_db3,
         mkResponse 200 true None None (Some n)
                    (SectionsData (mkBook 10%N (js "My Book") 1%N None
                                          false 500 500) out))
    /\ sections_sorted out.
Proof.
  apply (getBookSections_sorted sample_svc sample_db3 alice_view 10%N);
    reflexivity.
Defined.

Lemma Section_findOne_some (db : Db) (sectionId bookId : ObjectId)
  (sec : Section) :
  Section_findOne db sectionId bookId = Ok (Some sec) ->
  fault db = None /\ In sec (sections db)
  /\ s_id sec = sectionId /\ s_book sec = bookId.
Proof.
  unfold Section_findOne, query.
  destruct (fault db); [discriminate|]. intros H. injection H as H.
  apply find_some in H. destruct H as [Hin Hm].
  apply andb_true_iff in Hm. destruct Hm as [H1 H2].
  apply N.eqb_eq in H1. apply N.eqb_eq in H2. auto.
Qed.

(** X16. [getSection] answers with status 200 only when the requester owns
    a stored book with the identifier in the path and the section is a
    stored section of that very book; the response then carries that
    section with its story decrypted (or the placeholder), and nothing is
    written. *)
Theorem getSection_requires_owned_book
  (svc : EncryptionService) (db db' : Db) (user : UserView)
  (bookId sectionId : ObjectId) (resp : Response) :
  getSection svc db user bookId sectionId = (db', resp) ->
  status resp = 200 ->
  db' = db
  /\ exists book sec,
       In book (books db) /\ b_id book = bookId /\ b_user book = uv_id user
       /\ In sec (sections db) /\ s_id sec = sectionId /\ s_book sec = bookId
       /\ data resp = SectionData (decrypt_section svc sec).
Proof.
  unfold getSection. cbn [castObjectId bind].
  destruct (Book_findOne db bookId (uv_id user)) as [[book|]|] eqn:Hb;
    cbn [bind catch500].
  - destruct (Section_findOne db sectionId bookId) as [[sec|]|] eqn:Hs;
      cbn [bind catch500].
    + intros H _. injection H as <- <-. split; [reflexivity|].
      destruct (Book_findOne_some _ _ _ _ Hb) as [_ [B1 [B2 B3]]].
      destruct (Section_findOne_some _ _ _ _ Hs) as [_ [S1 [S2 S3]]].
      exists book, sec. auto 10.
    + intros H. injection H as <- <-. discriminate.
    + intros H. injection H as <- <-. discriminate.
  - intros H. injection H as <- <-. discriminate.
  - intros H. injection H as <- <-. discriminate.
Qed.

Lemma getSection_requires_owned_book_witness :
  sample_db3 = sample_db3
  /\ exists book sec,
       In book (books sample_db3) /\ b_id book = 10%N
       /\ b_user book = uv_id alice_view
       /\ In sec (sections sample_db3) /\ s_id sec = 102%N
       /\ s_book sec = 10%N
       /\ data (snd (getSection sample_svc sample_db3 alice_view 10%N 102%N))
          = SectionData (decrypt_section sample_svc sec).
Proof.
  apply (getSection_requires_owned_book sample_svc sample_db3 sample_db3
           alice_view 10%N 102%N).
  - vm_compute. reflexivity.
  - reflexivity.
Defined.

(** ** The book controller: writing books *)

Lemma find_app_fresh (A : Type) (f : A -> bool) (l : list A) (x : A) :
  (forall y, In y l -> f y = false) -> f x = true ->
  find f (l ++ [x]) = Some x.
Proof.
  intros Hl Hx. induction l as [|y r IH]; simpl.
  - now rewrite Hx.
  - rewrite (Hl y (or_introl eq_refl)). apply IH.
    intros z Hz. apply Hl. now right.
Qed.

(** X17. Creating a book with a valid title, in a store that answers and
    whose identifier generator is fresh, answers 201 with a book owned by
    the requester, titled with the trimmed title and not published; the
    book is appended to the collection, [getBook] then returns it to its
    owner and answers 404 to every other user. *)
Theorem createBook_then_getBook
  (db : Db) (user : UserView) (title : jsstring) :
  fault db = None ->
  trim title <> [] -> (List.length (trim title) <= 200)%nat ->
  (forall b, In b (books db) -> b_id b <> next_id db) ->
  exists db' book,
    createBook db user (Some title) None
      = (db', mkResponse 201 true (Some (js "Book created successfully"))
                         None None (BookData book))
    /\ books db' = books db ++ [book]
    /\ sections db' = sections db
    /\ b_user book = uv_id user
    /\ b_title book = trim title
    /\ b_isPublished book = false
    /\ getBook db' user (b_id book)
       = (db', mkResponse 200 true None None None (BookData book))
    /\ (forall other, uv_id other <> uv_id user ->
          getBook db' other (b_id book) = (db', book_not_found)).
Proof.
  intros Hf Hne Hlen Hfresh.
  unfold createBook, Book_create, validate_book, title_failures,
    description_failures.
  cbn [b_title b_description].
  destruct (trim title) as [|c t] eqn:E; [congruence|].
  destruct (Nat.ltb_spec 200 (List.length (c :: t))); [lia|].
  cbn [app validated bind]. rewrite (query_ok _ _ _ Hf). cbn [bind catch500].
  eexists. eexists. split; [reflexivity|].
  cbn [books sections b_user b_title b_isPublished b_id].
  repeat split.
  - unfold getBook, Book_findOne, query.
    cbn [castObjectId bind]. cbn [fault books].
    rewrite Hf.
    rewrite find_app_fresh; [reflexivity| |].
    + intros y Hy. apply andb_false_iff. left. apply N.eqb_neq.
      now apply Hfresh.
    + cbn [b_id b_user]. now rewrite !N.eqb_refl.
  - intros other Hother.
    unfold getBook, Book_findOne, query.
    cbn [castObjectId bind]. cbn [fault books]. rewrite Hf.
    cbn [bind].
    destruct (find _ (books db ++ _)) as [b|] eqn:Hfind; [|reflexivity].
    exfalso. apply find_some in Hfind. destruct Hfind as [Hin Hm].
    apply andb_true_iff in Hm. destruct Hm as [H1 H2].
    apply N.eqb_eq in H1. apply N.eqb_eq in H2.
    apply in_app_or in Hin. destruct Hin as [Hin|[<-|[]]].
    + exact (Hfresh b Hin H1).
    + cbn [b_user] in H2. congruence.
Qed.

Lemma createBook_then_getBook_witness :
  exists db' book,
    createBook sample_db alice_view (Some (js "  Second Book ")) None
      = (db', mkResponse 201 true (Some (js "Book created successfully"))
                         None None (BookData book))
    /\ books db' = books sample_db ++ [book]
    /\ sections db' = sections sample_db
    /\ b_user book = uv_id alice_view
    /\ b_title book = trim (js "  Second Book ")
    /\ b_isPublished book = false
    /\ getBook db' alice_view (b_id book)
       = (db', mkResponse 200 true None None None (BookData book))
    /\ (forall other, uv_id other <> uv_id alice_view ->
          getBook db' other (b_id book) = (db', book_not_found)).
Proof.
  apply (createBook_then_getBook sample_db alice_view (js "  Second Book ")).
  - reflexivity.
  - vm_compute. discriminate.
  - vm_compute. repeat constructor.
  - intros b [<-|[<-|[]]]; discriminate.
Defined.

(** X18. A successful [deleteBook] removes the book and every section that
    refers to it, and nothing else: the other books, the sections of other
    books and the users are kept, and the book is then not found. *)
Theorem deleteBook_cascade
  (db : Db) (user : UserView) (bookId : ObjectId) (book : Book) :
  Book_findOne db bookId (uv_id user) = Ok (Some book) ->
  exists db',
    deleteBook db user bookId
      = (db', mkResponse 200 true
                (Some (js "Book and all its sections deleted successfully"))
                None None NoData)
    /\ users db' = users db
    /\ (forall b, In b (books db') <-> In b (books db) /\ b_id b <> bookId)
    /\ (forall s, In s (sections db') <->
                  In s (sections db) /\ s_book s <> bookId)
    /\ (forall u, getBook db' u bookId = (db', book_not_found)).
Proof.
  intros Hb. destruct (Book_findOne_some _ _ _ _ Hb) as [Hf _].
  unfold deleteBook, deleteBook_outage. cbn [castObjectId bind].
  rewrite Hb. cbn [bind].
  unfold Section_deleteMany. rewrite (query_ok _ _ _ Hf). cbn [bind strike].
  unfold Book_findByIdAndDelete, query. cbn [fault]. rewrite Hf.
  cbn [bind catch500 users books sections next_id now].
  eexists. split; [reflexivity|].
  cbn [users books sections].
  split; [reflexivity|]. split; [|split].
  - intros b. rewrite filter_In, negb_true_iff, N.eqb_neq. reflexivity.
  - intros s. rewrite filter_In, negb_true_iff, N.eqb_neq. reflexivity.
  - intros u. unfold getBook, Book_findOne, query.
    cbn [castObjectId bind]. cbn [fault books].
    destruct (find _ (filter _ (books db))) as [b|] eqn:Hfind;
      [|reflexivity].
    exfalso. apply find_some in Hfind. destruct Hfind as [Hin Hm].
    apply filter_In in Hin. destruct Hin as [_ Hn].
    apply andb_true_iff in Hm. destruct Hm as [H1 _].
    rewrite H1 in Hn. discriminate.
Qed.

Lemma deleteBook_cascade_witness :
  exists db',
    deleteBook sample_db3 alice_view 10%N
      = (db', mkResponse 200 true
                (Some (js "Book and all its sections deleted successfully"))
                None None NoData)
    /\ users db' = users sample_db3
    /\ (forall b, In b (books db') <-> In b (books sample_db3) /\ b_id b <> 10%N)
    /\ (forall s, In s (sections db') <->
                  In s (sections sample_db3) /\ s_book s <> 10%N)
    /\ (forall u, getBook db' u 10%N = (db', book_not_found)).
Proof.
  apply (deleteBook_cascade sample_db3 alice_view 10%N
           (mkBook 10%N (js "My Book") 1%N None false 500 500)).
  reflexivity.
Defined.

Lemma map_replace_fields (A : Type) (f : Book -> A) (i : ObjectId)
  (b' : Book) (l : list Book) :
  (forall x, In x l -> b_id x = i -> f x = f b') ->
  map f (map (fun x => if N.eqb (b_id x) i then b' else x) l) = map f l.
Proof.
  intros H. rewrite map_map. apply map_ext_in. intros x Hx.
  destruct (N.eqb_spec (b_id x) i) as [E|]; [|reflexivity].
  symmetry. now apply H.
Qed.

(** X19. [updateBook] never changes who owns a book: where book identifiers
    are unique, whatever the request and its outcome, the books keep their
    identifiers, owners and creation times in place, and the sections and
    the users are not touched; books other than the one addressed are
    unchanged. *)
Theorem updateBook_keeps_ownership
  (db db' : Db) (user : UserView) (bookId : ObjectId) (body : BookPatch)
  (resp : Response) :
  NoDup (map b_id (books db)) ->
  updateBook db user bookId body = (db', resp) ->
  users db' = users db
  /\ sections db' = sections db
  /\ map b_id (books db') = map b_id (books db)
  /\ map b_user (books db') = map b_user (books db)
  /\ map b_createdAt (books db') = map b_createdAt (books db)
  /\ (forall b, In b (books db) -> b_id b <> bookId -> In b (books db')).
Proof.
  intros Hnd. unfold updateBook. cbn [castObjectId bind].
  destruct (Book_findOne db bookId (uv_id user)) as [[book|]|] eqn:Hb;
    cbn [bind catch500].
  2,3: (intros H; injection H as <- <-; auto 10).
  destruct (Book_findOne_some _ _ _ _ Hb) as [Hf [Hin [Hid Hu]]].
  unfold Book_save.
  destruct (validate_book _) as [v|] eqn:Hv; cbn [bind catch500].
  2:{ intros H; injection H as <- <-; auto 10. }
  assert (Ev : b_id v = b_id book /\ b_user v = b_user book
               /\ b_createdAt v = b_createdAt book).
  { unfold validate_book, validated in Hv.
    destruct (_ ++ _) in Hv; [|discriminate]. injection Hv as <-. auto. }
  destruct Ev as [E1 [E2 E3]].
  rewrite (query_ok _ _ _ Hf). cbn [bind catch500].
  intros H. injection H as <- <-. cbn [users sections books].
  assert (Huniq : forall x, In x (books db) -> b_id x = b_id book -> x = book).
  { intros x Hx Hxid. clear -Hnd Hx Hin Hxid.
    induction (books db) as [|y l IH]; [destruct Hx|].
    simpl in Hnd. inversion Hnd as [|? ? Hnot Hnd']; subst.
    destruct Hx as [->|Hx], Hin as [->|Hin]; auto.
    - exfalso. apply Hnot. rewrite Hxid. now apply in_map.
    - exfalso. apply Hnot. rewrite <- Hxid. now apply in_map. }
  split; [reflexivity|]. split; [reflexivity|]. cbn [b_id].
  split; [|split; [|split]].
  - apply map_replace_fields. intros x Hx Hxid. cbn [b_id]. congruence.
  - apply map_replace_fields. intros x Hx Hxid. cbn [b_user].
    rewrite (Huniq x Hx); congruence.
  - apply map_replace_fields. intros x Hx Hxid. cbn [b_createdAt].
    rewrite (Huniq x Hx); congruence.
  - intros b Hbin Hbid. apply in_map_iff. exists b. split; [|assumption].
    destruct (N.eqb_spec (b_id b) (b_id v)); [|reflexivity].
    congruence.
Qed.

Lemma updateBook_keeps_ownership_witness :
  let r := updateBook sample_db alice_view 10%N
             (mkBookPatch (Some (js "Renamed")) None (Some true)) in
  users (fst r) = users sample_db
  /\ sections (fst r) = sections sample_db
  /\ map b_id (books (fst r)) = map b_id (books sample_db)
  /\ map b_user (books (fst r)) = map b_user (books sample_db)
  /\ map b_createdAt (books (fst r)) = map b_createdAt (books sample_db)
  /\ (forall b, In b (books sample_db) -> b_id b <> 10%N ->
                In b (books (fst r))).
Proof.
  apply (updateBook_keeps_ownership sample_db _ alice_view 10%N
           (mkBookPatch (Some (js "Renamed")) None (Some true))
           (snd (updateBook sample_db alice_view 10%N
                   (mkBookPatch (Some (js "Renamed")) None (Some true))))).
  - vm_compute. repeat constructor; simpl; intuition discriminate.
  - apply surjective_pairing.
Defined.

(** ** The book controller: writing and reading sections *)

Lemma Book_findOne_same_books (db db' : Db) (bookId userId : ObjectId) :
  books db' = books db -> fault db' = fault db ->
  Book_findOne db' bookId userId = Book_findOne db bookId userId.
Proof.
  intros Hb Hf. unfold Book_findOne, query. now rewrite Hb, Hf.
Qed.

(** What a successful [addSection] writes and answers. *)
Lemma addSection_effect
  (svc : EncryptionService) (db : Db) (user : UserView) (bookId : ObjectId)
  (book : Book) (title story : jsstring) :
  Book_findOne db bookId (uv_id user) = Ok (Some book) ->
  Forall is_code_unit (secretKey svc) ->
  Forall is_code_unit (iv svc) ->
  List.length (utf8_encode (secretKey svc)) = 32%nat ->
  List.length (utf8_encode (iv svc)) = 16%nat ->
  Forall is_code_unit story ->
  trim title <> [] -> (List.length (trim title) <= 200)%nat ->
  Forall (fun x => 0 <= s_order x < 2 ^ 53) (sections_of db bookId) ->
  exists c order,
    encrypt svc (Some story) = Ok c
    /\ addSection svc db user bookId (Some title) (Some story)
       = (mkDb (users db) (books db)
               (sections db ++
                [mkSection (next_id db) (trim title) c bookId order 1
                           (now db) (now db)])
               (N.succ (next_id db)) (now db) (fault db),
          mkResponse 201 true (Some (js "Section added successfully"))
                     None None
                     (SectionData
                        (mkSection (next_id db) (trim title) story bookId
                                   order 1 (now db) (now db)))).
Proof.
  intros Hb Hkc Hic Hk Hi Hs Hne Hlen Hord.
  destruct (Book_findOne_some _ _ _ _ Hb) as [Hf _].
  destruct (encrypt_ciphertext_shape svc story Hkc Hic Hk Hi Hs)
    as [c [Hc [Hcne Hcws]]].
  unfold addSection. cbn [castObjectId bind]. rewrite Hb. cbn [bind].
  unfold Section_findOne_last. rewrite (query_ok _ _ _ Hf). cbn [bind].
  rewrite Hc. cbn [bind].
  pose proof (first_by_order_desc_spec (sections_of db bookId)) as Hmax.
  set (order := match first_by_order_desc (sections_of db bookId) with
                | Some l => js_add (s_order l) 1
                | None => 1
                end).
  assert (Ho : 0 <= order).
  { subst order. destruct (first_by_order_desc (sections_of db bookId)) as [m|].
    - destruct Hmax as [Hin _]. rewrite Forall_forall in Hord.
      specialize (Hord m Hin). cbv beta in Hord.
      rewrite js_add_1 by lia. lia.
    - lia. }
  unfold Section_create. cbn [si_title si_order si_story si_book].
  rewrite (validate_section_ok title order Hne Hlen Ho).
  cbn [bind]. rewrite (query_ok _ _ _ Hf). cbn [bind catch500].
  exists c, order. split; [reflexivity|].
  unfold pre_save, with_story.
  cbn [s_id s_title s_story s_book s_order s_wordCount s_createdAt s_updatedAt].
  rewrite (trim_no_ws c Hcws), (wordCountOf_no_ws c Hcne Hcws). reflexivity.
Qed.

Lemma decrypt_section_of_encrypt
  (svc : EncryptionService) (sec : Section) (story : jsstring) :
  Forall is_code_unit (secretKey svc) ->
  Forall is_code_unit (iv svc) ->
  List.length (utf8_encode (secretKey svc)) = 32%nat ->
  List.length (utf8_encode (iv svc)) = 16%nat ->
  well_formed story = true ->
  encrypt svc (Some story) = Ok (s_story sec) ->
  decrypt_section svc sec = with_story sec story.
Proof.
  intros Hkc Hic Hk Hi Hw He. unfold decrypt_section.
  now rewrite (decrypt_of_encrypt svc story _ Hkc Hic Hk Hi Hw He).
Qed.

(** X20. What [addSection] writes is read back: after a successful call
    with a well-formed story, in a store whose identifier generator is
    fresh, [getSection] on the new section returns the section with the
    story as it was sent, and the listing of the book contains it with
    that story. *)
Theorem addSection_then_read
  (svc : EncryptionService) (db : Db) (user : UserView) (bookId : ObjectId)
  (book : Book) (title story : jsstring) :
  Book_findOne db bookId (uv_id user) = Ok (Some book) ->
  Forall is_code_unit (secretKey svc) ->
  Forall is_code_unit (iv svc) ->
  List.length (utf8_encode (secretKey svc)) = 32%nat ->
  List.length (utf8_encode (iv svc)) = 16%nat ->
  well_formed story = true ->
  trim title <> [] -> (List.length (trim title) <= 200)%nat ->
  Forall (fun x => 0 <= s_order x < 2 ^ 53) (sections_of db bookId) ->
  (forall s, In s (sections db) -> s_id s <> next_id db) ->
  exists db' created,
    addSection svc db user bookId (Some title) (Some story)
      = (db', mkResponse 201 true (Some (js "Section added successfully"))
                         None None (SectionData created))
    /\ s_story created = story
    /\ getSection svc db' user bookId (s_id created)
       = (db', mkResponse 200 true None None None (SectionData created))
    /\ exists n out,
         getBookSections svc db' user bookId
           = (db', mkResponse 200 true None None (Some n)
                              (SectionsData book out))
         /\ In created out.
Proof.
  intros Hb Hkc Hic Hk Hi Hw Hne Hlen Hord Hfresh.
  destruct (Book_findOne_some _ _ _ _ Hb) as [Hf _].
  destruct (addSection_effect svc db user bookId book title story Hb Hkc Hic
              Hk Hi (well_formed_code_units _ Hw) Hne Hlen Hord)
    as [c [order [Hc Ha]]].
  rewrite Ha. eexists. eexists. split; [reflexivity|].
  split; [reflexivity|].
  set (sec := mkSection (next_id db) (trim title) c bookId order 1
                        (now db) (now db)).
  set (db' := mkDb (users db) (books db) (sections db ++ [sec])
                   (N.succ (next_id db)) (now db) (fault db)).
  assert (Hb' : Book_findOne db' bookId (uv_id user) = Ok (Some book)).
  { rewrite <- Hb. now apply Book_findOne_same_books. }
  assert (Hf' : fault db' = None) by exact Hf.
  assert (Hd : decrypt_section svc sec
               = mkSection (next_id db) (trim title) story bookId order 1
                           (now db) (now db)).
  { now rewrite (decrypt_section_of_encrypt svc sec story Hkc Hic Hk Hi Hw Hc). }
  split.
  - unfold getSection. cbn [castObjectId bind]. rewrite Hb'. cbn [bind s_id].
    unfold Section_findOne. rewrite (query_ok _ _ _ Hf'). cbn [bind].
    assert (Hfind : find (fun s => N.eqb (s_id s) (next_id db)
                                   && N.eqb (s_book s) bookId)
                         (sections db') = Some sec).
    { apply find_app_fresh.
      - intros y Hy. apply andb_false_iff. left. apply N.eqb_neq.
        now apply Hfresh.
      - cbn [sec s_id s_book]. now rewrite !N.eqb_refl. }
    rewrite Hfind. cbn [catch500]. now rewrite Hd.
  - unfold getBookSections. cbn [castObjectId bind]. rewrite Hb'. cbn [bind].
    unfold Section_find_sorted. rewrite (query_ok _ _ _ Hf').
    cbn [bind catch500].
    eexists. eexists. split; [reflexivity|].
    rewrite <- Hd. apply in_map.
    apply (Permutation_in _ (Permutation_sym (sort_sections_perm _))).
    unfold sections_of. apply filter_In. split.
    + cbn [db' sections]. apply in_or_app. right. now left.
    + cbn [sec s_book]. apply N.eqb_refl.
Qed.

Lemma addSection_then_read_witness :
  exists db' created,
    addSection sample_svc sample_db alice_view 10%N
               (Some (js "Ch1")) (Some unicode_text)
      = (db', mkResponse 201 true (Some (js "Section added successfully"))
                         None None (SectionData created))
    /\ s_story created = unicode_text
    /\ getSection sample_svc db' alice_view 10%N (s_id created)
       = (db', mkResponse 200 true None None None (SectionData created))
    /\ exists n out,
         getBookSections sample_svc db' alice_view 10%N
           = (db', mkResponse 200 true None None (Some n)
                              (SectionsData
                                 (mkBook 10%N (js "My Book") 1%N None false
                                         500 500) out))
         /\ In created out.
Proof.
  apply (addSection_then_read sample_svc sample_db alice_view 10%N
           (mkBook 10%N (js "My Book") 1%N None false 500 500)
           (js "Ch1") unicode_text).
  - reflexivity.
  - exact sample_key_units.
  - exact sample_iv_units.
  - reflexivity.
  - reflexivity.
  - reflexivity.
  - vm_compute. discriminate.
  - vm_compute. repeat constructor.
  - constructor.
  - intros s [].
Defined.

Lemma utf8_encode_cp_nonempty (c : Z) : (1 <= List.length (utf8_encode_cp c))%nat.
Proof.
  unfold utf8_encode_cp.
  destruct (c <? 128); [simpl; lia|].
  destruct (c <? 2048); [simpl; lia|].
  destruct (c <? 65536); simpl; lia.
Qed.

Lemma utf8_encode_length_ge (n : nat) :
  forall s, (List.length s <= n)%nat ->
    (List.length s <= List.length (utf8_encode s))%nat.
Proof.
  unfold utf8_encode.
  induction n as [|n IH]; intros s Hn.
  - destruct s; [simpl; lia | simpl in Hn; lia].
  - destruct s as [|c r]; [simpl; lia|].
    cbn [code_points].
    destruct (is_high_surrogate c) eqn:Hh.
    + destruct r as [|lo r'].
      * cbn [flat_map]. rewrite length_app.
        pose proof (utf8_encode_cp_nonempty 65533). simpl. lia.
      * destruct (is_low_surrogate lo) eqn:Hl.
        -- cbn [flat_map]. rewrite length_app.
           assert (IHr : (List.length r' <= List.length
                            (flat_map utf8_encode_cp (code_points r')))%nat)
             by (apply IH; simpl in Hn; lia).
           unfold is_high_surrogate in Hh. unfold is_low_surrogate in Hl.
           apply andb_true_iff in Hh, Hl.
           destruct Hh as [Hh1 Hh2], Hl as [Hl1 Hl2].
           apply Z.leb_le in Hh1, Hh2, Hl1, Hl2.
           unfold utf8_encode_cp at 1.
           destruct (Z.ltb_spec (65536 + (c - 55296) * 1024 + (lo - 56320)) 128);
             [lia|].
           destruct (Z.ltb_spec (65536 + (c - 55296) * 1024 + (lo - 56320)) 2048);
             [lia|].
           destruct (Z.ltb_spec (65536 + (c - 55296) * 1024 + (lo - 56320)) 65536);
             [lia|].
           simpl. lia.
        -- cbn [flat_map]. rewrite length_app.
           assert (IHr : (List.length (lo :: r') <= List.length
                            (flat_map utf8_encode_cp (code_points (lo :: r'))))%nat)
             by (apply IH; simpl in *; lia).
           pose proof (utf8_encode_cp_nonempty 65533).
           cbn [List.length] in *. lia.
    + assert (IHr : (List.length r <= List.length
                       (flat_map utf8_encode_cp (code_points r)))%nat)
        by (apply IH; simpl in Hn; lia).
      destruct (is_low_surrogate c); cbn [flat_map]; rewrite length_app.
      * pose proof (utf8_encode_cp_nonempty 65533). cbn [List.length]. lia.
      * pose proof (utf8_encode_cp_nonempty c). cbn [List.length]. lia.
Qed.

(** X21. The story is never stored as sent: the [story] field written by a
    successful [addSection] consists of lower-case hexadecimal digits, is
    more than twice as long as the story, and so differs from it. *)
Theorem addSection_stores_only_ciphertext
  (svc : EncryptionService) (db : Db) (user : UserView) (bookId : ObjectId)
  (book : Book) (title story : jsstring) :
  Book_findOne db bookId (uv_id user) = Ok (Some book) ->
  Forall is_code_unit (secretKey svc) ->
  Forall is_code_unit (iv svc) ->
  List.length (utf8_encode (secretKey svc)) = 32%nat ->
  List.length (utf8_encode (iv svc)) = 16%nat ->
  Forall is_code_unit story ->
  trim title <> [] -> (List.length (trim title) <= 200)%nat ->
  Forall (fun x => 0 <= s_order x < 2 ^ 53) (sections_of db bookId) ->
  exists db' resp stored,
    addSection svc db user bookId (Some title) (Some story) = (db', resp)
    /\ status resp = 201
    /\ sections db' = sections db ++ [stored]
    /\ forallb is_hex_digit (s_story stored) = true
    /\ (2 * List.length story < List.length (s_story stored))%nat
    /\ s_story stored <> story.
Proof.
  intros Hb Hkc Hic Hk Hi Hs Hne Hlen Hord.
  destruct (addSection_effect svc db user bookId book title story Hb Hkc Hic
              Hk Hi Hs Hne Hlen Hord) as [c [order [Hc Ha]]].
  destruct (encrypt_pipeline svc story Hkc Hic Hk Hi Hs)
    as [ct [Hc' [Hbytes [Hctlen _]]]].
  rewrite Hc in Hc'. injection Hc' as ->.
  pose proof (hex_encode_hex ct Hbytes) as Hhex.
  pose proof (hex_encode_length ct) as Hclen. rewrite Hctlen in Hclen.
  rewrite Ha. do 3 eexists. split; [reflexivity|].
  split; [reflexivity|]. split; [reflexivity|]. cbn [s_story].
  split; [assumption|].
  pose proof (utf8_encode_length_ge _ story (le_n _)) as Hge.
  pose proof (Nat.div_mod_eq (List.length (utf8_encode story)) 16) as Hd.
  pose proof (Nat.mod_upper_bound (List.length (utf8_encode story)) 16
                ltac:(discriminate)) as Hm.
  assert (Hlt : (2 * List.length story < List.length (hex_encode ct))%nat)
    by lia.
  split; [assumption|].
  intros E. rewrite E in Hlt. lia.
Qed.

Lemma addSection_stores_only_ciphertext_witness :
  exists db' resp stored,
    addSection sample_svc sample_db alice_view 10%N (Some (js "Ch1")) (Some fox)
      = (db', resp)
    /\ status resp = 201
    /\ sections db' = sections sample_db ++ [stored]
    /\ forallb is_hex_digit (s_story stored) = true
    /\ (2 * List.length fox < List.length (s_story stored))%nat
    /\ s_story stored <> fox.
Proof.
  apply (addSection_stores_only_ciphertext sample_svc sample_db alice_view
           10%N (mkBook 10%N (js "My Book") 1%N None false 500 500)
           (js "Ch1") fox).
  - reflexivity.
  - exact sample_key_units.
  - exact sample_iv_units.
  - reflexivity.
  - reflexivity.
  - exact fox_units.
  - vm_compute. discriminate.
  - vm_compute. repeat constructor.
  - constructor.
Defined.

Lemma Section_findOne_hidden (db : Db) (sectionId bookId : ObjectId) :
  fault db = None ->
  (forall s, In s (sections db) -> s_id s = sectionId -> s_book s <> bookId) ->
  Section_findOne db sectionId bookId = Ok None.
Proof.
  intros Hf Hs. unfold Section_findOne. rewrite (query_ok _ _ _ Hf).
  f_equal.
  destruct (find _ (sections db)) as [s|] eqn:E; [|reflexivity].
  apply find_some in E. destruct E as [Hin Hm].
  apply andb_true_iff in Hm. destruct Hm as [H1 H2].
  apply N.eqb_eq in H1. apply N.eqb_eq in H2.
  exfalso. exact (Hs s Hin H1 H2).
Qed.

(** X22. A section is reachable only through its own book.  When the
    requester owns the book in the path and the section parameter is an
    ObjectId, but every stored section with that identifier (if any)
    belongs to another book, [getSection], [updateSection] and
    [deleteSection] all answer 404 with ["Section not found"].  When the
    section parameter is not an ObjectId, the three of them answer 500
    with the CastError of the query.  The database is unchanged in both
    cases. *)
Theorem section_isolation_across_books
  (svc : EncryptionService) (db : Db) (user : UserView)
  (bookId : ObjectId) (sectionId : PathId) (book : Book)
  (body : SectionPatch) :
  Book_findOne db bookId (uv_id user) = Ok (Some book) ->
  (forall id s, sectionId = WellFormed id -> In s (sections db) ->
                s_id s = id -> s_book s <> bookId) ->
  match sectionId with
  | WellFormed _ =>
      getSection svc db user bookId sectionId = (db, section_not_found)
      /\ updateSection svc db user bookId sectionId body
         = (db, section_not_found)
      /\ deleteSection db user bookId sectionId = (db, section_not_found)
      /\ status section_not_found = 404
      /\ message section_not_found = Some (js "Section not found")
  | Malformed segment =>
      let e := CastError segment (js "_id") (js "Section") in
      getSection svc db user bookId sectionId
        = (db, failure "Failed to fetch section" e)
      /\ updateSection svc db user bookId sectionId body
         = (db, failure "Failed to update section" e)
      /\ deleteSection db user bookId sectionId
         = (db, failure "Failed to delete section" e)
      /\ (forall m, status (failure m e) = 500)
  end.
Proof.
  intros Hb Hs. destruct (Book_findOne_some _ _ _ _ Hb) as [Hf _].
  destruct sectionId as [id|segment].
  - pose proof (Section_findOne_hidden db id bookId Hf
                  (fun s => Hs id s eq_refl)) as E.
    unfold getSection, updateSection, deleteSection. cbn [castObjectId bind].
    rewrite Hb. cbn [castObjectId bind]. rewrite E. cbn [bind catch500].
    repeat split; reflexivity.
  - cbv zeta.
    unfold getSection, updateSection, deleteSection. cbn [castObjectId bind].
    rewrite Hb. cbn [castObjectId bind catch500].
    repeat split; reflexivity.
Qed.

Lemma section_isolation_across_books_witness :
  (getSection sample_svc sample_db3 alice_view 10%N 999%N
     = (sample_db3, section_not_found)
   /\ updateSection sample_svc sample_db3 alice_view 10%N 999%N
        (mkSectionPatch None (Some fox) None) = (sample_db3, section_not_found)
   /\ deleteSection sample_db3 alice_view 10%N 999%N
        = (sample_db3, section_not_found)
   /\ status section_not_found = 404
   /\ message section_not_found = Some (js "Section not found"))
  /\ (let e := CastError (js "first") (js "_id") (js "Section") in
      getSection sample_svc sample_db3 alice_view 10%N (Malformed (js "first"))
        = (sample_db3, failure "Failed to fetch section" e)
      /\ updateSection sample_svc sample_db3 alice_view 10%N
           (Malformed (js "first")) (mkSectionPatch None (Some fox) None)
         = (sample_db3, failure "Failed to update section" e)
      /\ deleteSection sample_db3 alice_view 10%N (Malformed (js "first"))
         = (sample_db3, failure "Failed to delete section" e)
      /\ (forall m, status (failure m e) = 500)).
Proof.
  split.
  - apply (section_isolation_across_books sample_svc sample_db3 alice_view
             10%N (WellFormed 999%N)
             (mkBook 10%N (js "My Book") 1%N None false 500 500)).
    + reflexivity.
    + intros id s Hid [<-|[<-|[<-|[]]]]; injection Hid as <-; discriminate.
  - apply (section_isolation_across_books sample_svc sample_db3 alice_view
             10%N (Malformed (js "first"))
             (mkBook 10%N (js "My Book") 1%N None false 500 500)).
    + reflexivity.
    + intros id s Hid. discriminate.
Defined.

(** X23. A successful [deleteSection] removes the sections with the given
    identifier and nothing else: the users, the books and every other
    section are kept, and the section is then not found. *)
Theorem deleteSection_removes_the_section
  (svc : EncryptionService) (db : Db) (user : UserView)
  (bookId sectionId : ObjectId) (book : Book) (sec : Section) :
  Book_findOne db bookId (uv_id user) = Ok (Some book) ->
  Section_findOne db sectionId bookId = Ok (Some sec) ->
  exists db',
    deleteSection db user bookId sectionId
      = (db', mkResponse 200 true (Some (js "Section deleted successfully"))
                         None None NoData)
    /\ users db' = users db
    /\ books db' = books db
    /\ (forall s, In s (sections db') <->
                  In s (sections db) /\ s_id s <> sectionId)
    /\ getSection svc db' user bookId sectionId = (db', section_not_found).
Proof.
  intros Hb Hs. destruct (Book_findOne_some _ _ _ _ Hb) as [Hf _].
  unfold deleteSection.
  cbn [castObjectId bind]. rewrite Hb. cbn [bind]. rewrite Hs. cbn [bind].
  unfold Section_findByIdAndDelete. rewrite (query_ok _ _ _ Hf).
  cbn [bind catch500].
  eexists. split; [reflexivity|]. cbn [users books sections].
  split; [reflexivity|]. split; [reflexivity|]. split.
  - intros s. rewrite filter_In, negb_true_iff, N.eqb_neq. reflexivity.
  - unfold getSection. cbn [castObjectId bind].
    match goal with
    | |- context [Book_findOne ?d bookId (uv_id user)] =>
        rewrite (Book_findOne_same_books db d bookId (uv_id user)
                   eq_refl eq_refl)
    end.
    rewrite Hb. cbn [bind].
    rewrite Section_findOne_hidden; [reflexivity | exact Hf |].
    cbn [sections]. intros s Hin Hid. apply filter_In in Hin.
    destruct Hin as [_ Hn]. apply negb_true_iff, N.eqb_neq in Hn.
    contradiction.
Qed.

Lemma deleteSection_removes_the_section_witness :
  exists db',
    deleteSection sample_db3 alice_view 10%N 101%N
      = (db', mkResponse 200 true (Some (js "Section deleted successfully"))
                         None None NoData)
    /\ users db' = users sample_db3
    /\ books db' = books sample_db3
    /\ (forall s, In s (sections db') <->
                  In s (sections sample_db3) /\ s_id s <> 101%N)
    /\ getSection sample_svc db' alice_view 10%N 101%N
       = (db', section_not_found).
Proof.
  apply (deleteSection_removes_the_section sample_svc sample_db3 alice_view
           10%N 101%N (mkBook 10%N (js "My Book") 1%N None false 500 500)
           (mkSection 101%N (js "Ch2") (js "deadbeef") 10%N 2 1 1001 1001)).
  - reflexivity.
  - reflexivity.
Defined.

Lemma find_replaced (i b : ObjectId) (s2 : Section) (l : list Section)
  (sec : Section) :
  s_id s2 = i -> s_book s2 = b ->
  find (fun s => N.eqb (s_id s) i && N.eqb (s_book s) b) l = Some sec ->
  find (fun s => N.eqb (s_id s) i && N.eqb (s_book s) b)
       (map (fun x => if N.eqb (s_id x) i then s2 else x) l) = Some s2.
Proof.
  intros Hi Hb. induction l as [|x r IH]; simpl; [discriminate|].
  assert (H2 : N.eqb (s_id s2) i && N.eqb (s_book s2) b = true)
    by (rewrite Hi, Hb, !N.eqb_refl; reflexivity).
  destruct (N.eqb (s_id x) i) eqn:Ex; cbn [andb].
  - intros _. now rewrite H2.
  - rewrite Ex. cbn [andb]. exact IH.
Qed.

(** X24. What [updateSection] writes is read back: for a section of a book
    the requester owns, a request carrying a well-formed story (and
    possibly a valid title and a valid order) answers 200 with the story as
    sent; the stored story is its ciphertext, the order is the one sent,
    the sections with another identifier are kept as they are, and
    [getSection] then returns the same section with the same story. *)
Theorem updateSection_then_getSection
  (svc : EncryptionService) (db : Db) (user : UserView)
  (bookId sectionId : ObjectId) (book : Book) (sec : Section)
  (title : option jsstring) (story : jsstring) (order : option Z) :
  Book_findOne db bookId (uv_id user) = Ok (Some book) ->
  Section_findOne db sectionId bookId = Ok (Some sec) ->
  Forall is_code_unit (secretKey svc) ->
  Forall is_code_unit (iv svc) ->
  List.length (utf8_encode (secretKey svc)) = 32%nat ->
  List.length (utf8_encode (iv svc)) = 16%nat ->
  well_formed story = true ->
  match title with
  | Some t => trim t <> [] /\ (List.length (trim t) <= 200)%nat
  | None => s_title sec <> [] /\ (List.length (s_title sec) <= 200)%nat
  end ->
  0 <= match order with Some o => o | None => s_order sec end ->
  exists db' updated,
    updateSection svc db user bookId sectionId
                  (mkSectionPatch title (Some story) order)
      = (db', mkResponse 200 true (Some (js "Section updated successfully"))
                         None None (SectionData (with_story updated story)))
    /\ encrypt svc (Some story) = Ok (s_story updated)
    /\ s_id updated = sectionId /\ s_book updated = bookId
    /\ s_order updated = match order with Some o => o | None => s_order sec end
    /\ (forall s, In s (sections db) -> s_id s <> sectionId ->
                  In s (sections db'))
    /\ getSection svc db' user bookId sectionId
       = (db', mkResponse 200 true None None None
                          (SectionData (with_story updated story))).
Proof.
  intros Hb Hs Hkc Hic Hk Hi Hw Ht Ho.
  destruct (Book_findOne_some _ _ _ _ Hb) as [Hf _].
  destruct (Section_findOne_some _ _ _ _ Hs) as [_ [Hin [Hid Hbk]]].
  destruct (encrypt_ciphertext_shape svc story Hkc Hic Hk Hi
              (well_formed_code_units _ Hw)) as [c [Hc [Hcne Hcws]]].
  unfold updateSection. cbn [castObjectId bind]. rewrite Hb.
  cbn [castObjectId bind]. rewrite Hs.
  cbn [bind sp_title sp_story sp_order]. rewrite Hc. cbn [bind].
  rewrite (trim_no_ws c Hcws).
  set (title' := match title with Some t => trim t | None => s_title sec end).
  set (order' := match order with Some o => o | None => s_order sec end) in *.
  assert (Ht' : title' <> [] /\ (List.length title' <= 200)%nat)
    by (subst title'; destruct title; exact Ht).
  unfold Section_save, validate_loaded_section, title_failures,
    order_failures.
  cbn [s_title s_order].
  destruct title' as [|x t'] eqn:Et; [destruct Ht'; congruence|].
  destruct (Nat.ltb_spec 200 (List.length (x :: t'))); [destruct Ht'; lia|].
  destruct (Z.ltb_spec order' 0); [lia|].
  cbn [app validated bind]. rewrite (query_ok _ _ _ Hf). cbn [bind catch500].
  match goal with
  | |- context [SectionData (with_story ?u story)] => set (updated := u)
  end.
  assert (Hstory : s_story updated = c).
  { subst updated. cbn [s_story s_id s_title s_book s_order s_wordCount
                         s_createdAt].
    destruct (negb (jsstring_eqb c (s_story sec))); reflexivity. }
  assert (Hfields : s_id updated = sectionId /\ s_book updated = bookId
                    /\ s_order updated = order').
  { subst updated.
    destruct (negb (jsstring_eqb _ (s_story sec))); cbn; auto. }
  destruct Hfields as [Fi [Fb Fo]].
  exists (mkDb (users db) (books db)
               (map (fun x => if N.eqb (s_id x) (s_id updated)
                              then updated else x) (sections db))
               (next_id db) (now db) (fault db)), updated.
  split; [reflexivity|].
  split; [now rewrite Hstory|].
  split; [assumption|]. split; [assumption|]. split; [assumption|].
  split.
  - cbn [sections]. intros s Hsin Hsid. apply in_map_iff. exists s.
    split; [|assumption]. rewrite Fi.
    destruct (N.eqb_spec (s_id s) sectionId); [contradiction | reflexivity].
  - unfold getSection. cbn [castObjectId bind].
    match goal with
    | |- context [Book_findOne ?d bookId (uv_id user)] =>
        rewrite (Book_findOne_same_books db d bookId (uv_id user)
                   eq_refl eq_refl)
    end.
    rewrite Hb. cbn [bind].
    unfold Section_findOne, query. cbn [fault sections]. rewrite Hf.
    unfold Section_findOne in Hs. rewrite (query_ok _ _ _ Hf) in Hs.
    injection Hs as Hs. rewrite Fi.
    rewrite (find_replaced sectionId bookId updated _ sec Fi Fb Hs).
    cbn [bind catch500].
    rewrite (decrypt_section_of_encrypt svc updated story Hkc Hic Hk Hi Hw);
      [reflexivity | now rewrite Hstory].
Qed.

Lemma updateSection_then_getSection_witness :
  exists db' updated,
    updateSection sample_svc sample_db3 alice_view 10%N 101%N
                  (mkSectionPatch None (Some unicode_text) (Some 7))
      = (db', mkResponse 200 true (Some (js "Section updated successfully"))
                         None None
                         (SectionData (with_story updated unicode_text)))
    /\ encrypt sample_svc (Some unicode_text) = Ok (s_story updated)
    /\ s_id updated = 101%N /\ s_book updated = 10%N
    /\ s_order updated = 7
    /\ (forall s, In s (sections sample_db3) -> s_id s <> 101%N ->
                  In s (sections db'))
    /\ getSection sample_svc db' alice_view 10%N 101%N
       = (db', mkResponse 200 true None None None
                          (SectionData (with_story updated unicode_text))).
Proof.
  apply (updateSection_then_getSection sample_svc sample_db3 alice_view
           10%N 101%N (mkBook 10%N (js "My Book") 1%N None false 500 500)
           (mkSection 101%N (js "Ch2") (js "deadbeef") 10%N 2 1 1001 1001)
           None unicode_text (Some 7)).
  - reflexivity.
  - reflexivity.
  - exact sample_key_units.
  - exact sample_iv_units.
  - reflexivity.
  - reflexivity.
  - reflexivity.
  - split; [discriminate | vm_compute; repeat constructor].
  - lia.
Defined.

(** ** The routes: gate and handler together *)

Lemma authenticated_inv
  (jwt_verify : JwtVerify) (db db' : Db) (authorization : option jsstring)
  (handler : UserView -> Db * Response) (resp : Response) :
  authenticated jwt_verify db authorization handler = (db', resp) ->
  (db' = db /\ status resp = 401)
  \/ exists token stored user,
       authorization = Some (js "Bearer " ++ token)
       /\ jwt_verify token = Some (u_id stored)
       /\ In stored (users db)
       /\ uv_id user = u_id stored
       /\ handler user = (db', resp).
Proof.
  unfold authenticated.
  destruct (authenticateToken jwt_verify db authorization) as [r|user] eqn:Hg.
  - intros H. injection H as <- <-. left. split; [reflexivity|].
    exact (gate_rejected_status _ _ _ _ Hg).
  - intros H. right.
    destruct (gate_next_inv _ _ _ _ Hg) as [token [id [Ha [Hv Hu]]]].
    destruct (find_user_some db id user Hu) as [_ [Hid [stored [Hin [H1 _]]]]].
    exists token, stored, user. subst id. rewrite H1. auto 10.
Qed.

Lemma deleteBook_outage_inv
  (outage : option jsstring) (db db' : Db) (user : UserView)
  (bookId : PathId) (resp : Response) :
  deleteBook_outage outage db user bookId = (db', resp) ->
  (status resp <> 200 /\ db' = db)
  \/ exists id book,
       bookId = WellFormed id
       /\ In book (books db) /\ b_id book = id /\ b_user book = uv_id user
       /\ (status resp = 200
           \/ exists m,
                outage = Some m
                /\ resp = failure "Failed to delete book" (Msg m)
                /\ users db' = users db
                /\ books db' = books db
                /\ (forall s, In s (sections db') <->
                              In s (sections db) /\ s_book s <> id)).
Proof.
  unfold deleteBook_outage. destruct bookId as [id|segment];
    cbn [castObjectId bind catch500].
  2:{ intros H. injection H as <- <-. left.
      split; [discriminate | reflexivity]. }
  destruct (Book_findOne db id (uv_id user)) as [[book|]|] eqn:Hb;
    cbn [bind catch500].
  - destruct (Book_findOne_some _ _ _ _ Hb) as [Hf [Hin [Hid Hu]]].
    unfold Section_deleteMany. rewrite (query_ok _ _ _ Hf). cbn [bind].
    intros H. right. exists id, book.
    split; [reflexivity|]. split; [assumption|]. split; [assumption|].
    split; [assumption|].
    destruct outage as [m|]; cbn [strike] in H;
      unfold Book_findByIdAndDelete, query in H; cbn [fault] in H.
    + cbn [bind catch500] in H. injection H as <- <-.
      right. exists m. split; [reflexivity|]. split; [reflexivity|].
      cbn [users books sections].
      split; [reflexivity|]. split; [reflexivity|].
      intros s. rewrite filter_In, negb_true_iff, N.eqb_neq. reflexivity.
    + rewrite Hf in H. cbn [bind catch500] in H. injection H as <- <-.
      left. reflexivity.
  - intros H. injection H as <- <-. left. split; [discriminate | reflexivity].
  - intros H. injection H as <- <-. left. split; [discriminate | reflexivity].
Qed.

(** X25. On the route [DELETE /:bookId], behind the gate, status 200 is
    answered only to a request whose Bearer token verifies to a stored user
    who owns the book.  With any other status the database is unchanged,
    but for one case: the handler awaits two writes, and when the store
    fails between them the answer is 500 with ["Failed to delete book"]
    although the sections of the book are already deleted; the requester
    is then the verified owner, and the users and the books are kept. *)
Theorem route_deleteBook_guard
  (jwt_verify : JwtVerify) (outage : option jsstring) (db db' : Db)
  (authorization : option jsstring) (bookId : PathId) (resp : Response) :
  route_deleteBook jwt_verify outage db authorization bookId = (db', resp) ->
  db' = db /\ status resp <> 200
  \/ exists token stored id book,
       authorization = Some (js "Bearer " ++ token)
       /\ jwt_verify token = Some (u_id stored)
       /\ In stored (users db)
       /\ bookId = WellFormed id
       /\ In book (books db) /\ b_id book = id
       /\ b_user book = u_id stored
       /\ (status resp = 200
           \/ exists m,
                outage = Some m
                /\ resp = failure "Failed to delete book" (Msg m)
                /\ users db' = users db
                /\ books db' = books db
                /\ (forall s, In s (sections db') <->
                              In s (sections db) /\ s_book s <> id)).
Proof.
  intros H. unfold route_deleteBook in H.
  apply authenticated_inv in H.
  destruct H as [[-> H401] | [token [stored [user [Ha [Hv [Hin [Hid Hh]]]]]]]].
  - left. split; [reflexivity|]. rewrite H401. discriminate.
  - apply deleteBook_outage_inv in Hh.
    destruct Hh as [[Hn ->] | [id [book [Eb [Bin [Bid [Bu Hcase]]]]]]].
    + left. split; [reflexivity | assumption].
    + right. exists token, stored, id, book.
      repeat split; auto; congruence.
Qed.

Lemma route_deleteBook_guard_witness :
  let r := route_deleteBook sample_jwt (Some (js "connection lost"))
             sample_db3 (Some (js "Bearer token-alice")) 10%N in
  (status (snd r) = 500 /\ sections (fst r) = []
   /\ books (fst r) = books sample_db3)
  /\ (fst r = sample_db3 /\ status (snd r) <> 200
      \/ exists token stored id book,
           Some (js "Bearer token-alice") = Some (js "Bearer " ++ token)
           /\ sample_jwt token = Some (u_id stored)
           /\ In stored (users sample_db3)
           /\ WellFormed 10%N = WellFormed id
           /\ In book (books sample_db3) /\ b_id book = id
           /\ b_user book = u_id stored
           /\ (status (snd r) = 200
               \/ exists m,
                    Some (js "connection lost") = Some m
                    /\ snd r = failure "Failed to delete book" (Msg m)
                    /\ users (fst r) = users sample_db3
                    /\ books (fst r) = books sample_db3
                    /\ (forall s, In s (sections (fst r)) <->
                                  In s (sections sample_db3)
                                  /\ s_book s <> id))).
Proof.
  split; [repeat split; reflexivity|].
  apply (route_deleteBook_guard sample_jwt (Some (js "connection lost"))
           sample_db3 _ (Some (js "Bearer token-alice")) (WellFormed 10%N)).
  apply surjective_pairing.
Defined.

Lemma getBookSections_inv
  (svc : EncryptionService) (db db' : Db) (user : UserView)
  (bookId : ObjectId) (resp : Response) :
  getBookSections svc db user bookId = (db', resp) ->
  db' = db
  /\ (status resp = 200 ->
      exists book, In book (books db) /\ b_id book = bookId
                   /\ b_user book = uv_id user
                   /\ exists out, data resp = SectionsData book out
                                  /\ Forall (fun s => s_book s = bookId) out).
Proof.
  unfold getBookSections. cbn [castObjectId bind].
  destruct (Book_findOne db bookId (uv_id user)) as [[book|]|] eqn:Hb;
    cbn [bind catch500].
  - destruct (Book_findOne_some _ _ _ _ Hb) as [Hf [Hin [Hid Hu]]].
    unfold Section_find_sorted. rewrite (query_ok _ _ _ Hf).
    cbn [bind catch500]. intros H. injection H as <- <-.
    split; [reflexivity|]. intros _. exists book. repeat split; auto.
    eexists. split; [reflexivity|].
    apply Forall_forall. intros s Hs. apply in_map_iff in Hs.
    destruct Hs as [x [<- Hx]].
    apply (Permutation_in _ (sort_sections_perm _)) in Hx.
    unfold sections_of in Hx. apply filter_In in Hx.
    destruct Hx as [_ Hx]. apply N.eqb_eq in Hx.
    destruct (decrypt_section_spec svc x) as [_ [_ [E _]]]. congruence.
  - intros H. injection H as <- <-. split; [reflexivity | discriminate].
  - intros H. injection H as <- <-. split; [reflexivity | discriminate].
Qed.

(** X26. The route [GET /:bookId/sections], behind the gate, never changes
    the database, and it answers 200 only to a request whose Bearer token
    verifies to a stored user who owns the book; every section it returns
    is a section of that book. *)
Theorem route_getBookSections_guard
  (svc : EncryptionService) (jwt_verify : JwtVerify) (db db' : Db)
  (authorization : option jsstring) (bookId : ObjectId) (resp : Response) :
  route_getBookSections svc jwt_verify db authorization bookId = (db', resp) ->
  db' = db
  /\ (status resp = 200 ->
      exists token stored book out,
        authorization = Some (js "Bearer " ++ token)
        /\ jwt_verify token = Some (u_id stored)
        /\ In stored (users db)
        /\ In book (books db) /\ b_id book = bookId
        /\ b_user book = u_id stored
        /\ data resp = SectionsData book out
        /\ Forall (fun s => s_book s = bookId) out).
Proof.
  intros H. unfold route_getBookSections in H.
  apply authenticated_inv in H.
  destruct H as [[-> H401] | [token [stored [user [Ha [Hv [Hin [Hid Hh]]]]]]]].
  - split; [reflexivity|]. intros E. rewrite E in H401. discriminate.
  - apply getBookSections_inv in Hh. destruct Hh as [-> Hh].
    split; [reflexivity|]. intros H200.
    destruct (Hh H200) as [book [Bin [Bid [Bu [out [Hd Hout]]]]]].
    exists token, stored, book, out. repeat split; auto; congruence.
Qed.

Lemma route_getBookSections_guard_witness :
  let r := route_getBookSections sample_svc sample_jwt sample_db3
             (Some (js "Bearer token-alice")) 10%N in
  status (snd r) = 200
  /\ fst r = sample_db3
  /\ (status (snd r) = 200 ->
      exists token stored book out,
        Some (js "Bearer token-alice") = Some (js "Bearer " ++ token)
        /\ sample_jwt token = Some (u_id stored)
        /\ In stored (users sample_db3)
        /\ In book (books sample_db3) /\ b_id book = 10%N
        /\ b_user book = u_id stored
        /\ data (snd r) = SectionsData book out
        /\ Forall (fun s => s_book s = 10%N) out).
Proof.
  split; [vm_compute; reflexivity|].
  apply (route_getBookSections_guard sample_svc sample_jwt sample_db3 _
           (Some (js "Bearer token-alice")) 10%N).
  apply surjective_pairing.
Defined.

(** ** One IV for every message *)

Lemma blocks_app (k : nat) :
  forall (p x : list Z) (m : nat),
    List.length p = (16 * k)%nat ->
    blocks (k + m) (p ++ x) = blocks k p ++ blocks m x.
Proof.
  induction k as [|k IH]; intros p x m Hl.
  - destruct p; [reflexivity | discriminate].
  - cbn [Nat.add blocks app].
    rewrite firstn_app, skipn_app.
    replace (16 - List.length p)%nat with 0%nat by lia.
    rewrite firstn_O, skipn_O, app_nil_r.
    f_equal. apply IH. rewrite length_skipn. lia.
Qed.

Lemma last_cons (A : Type) (x d : A) (l : list A) :
  last (x :: l) d = last l x.
Proof.
  revert x d. induction l as [|y r IH]; intros x d; [reflexivity|].
  change (last (x :: y :: r) d) with (last (y :: r) d).
  rewrite (IH y d). symmetry. apply IH.
Qed.

Lemma cbc_encrypt_app (w : list (list Z)) (a b : list (list Z)) :
  forall prev,
    cbc_encrypt w prev (a ++ b)
    = cbc_encrypt w prev a
      ++ cbc_encrypt w (last (cbc_encrypt w prev a) prev) b.
Proof.
  induction a as [|x a IH]; intros prev; [reflexivity|].
  cbn [app cbc_encrypt]. rewrite IH. cbn [app]. f_equal. f_equal.
  now rewrite last_cons.
Qed.

Lemma hex_encode_app (a b : list Z) :
  hex_encode (a ++ b) = hex_encode a ++ hex_encode b.
Proof. unfold hex_encode. apply flat_map_app. Qed.

(** X27. Because one key and one IV serve every message, ciphertexts betray
    shared beginnings: when the UTF-8 encodings of two stories agree on
    their first [16 * k] bytes, their ciphertexts agree on their first
    [32 * k] characters. *)
Theorem shared_prefix_shows_in_ciphertext
  (svc : EncryptionService) (s1 s2 c1 c2 : jsstring)
  (p r1 r2 : list Z) (k : nat) :
  Forall is_code_unit (secretKey svc) ->
  Forall is_code_unit (iv svc) ->
  List.length (utf8_encode (secretKey svc)) = 32%nat ->
  List.length (utf8_encode (iv svc)) = 16%nat ->
  Forall is_code_unit s1 ->
  utf8_encode s1 = p ++ r1 ->
  utf8_encode s2 = p ++ r2 ->
  List.length p = (16 * k)%nat ->
  encrypt svc (Some s1) = Ok c1 ->
  encrypt svc (Some s2) = Ok c2 ->
  firstn (32 * k) c1 = firstn (32 * k) c2.
Proof.
  intros Hkc Hic Hk Hi Hs1 E1 E2 Hp He1 He2.
  pose proof (encrypt_ok svc s1 Hk Hi) as X1. rewrite He1 in X1.
  apply (f_equal (fun r => match r with Ok x => x | Throw _ => [] end)) in X1.
  cbv beta iota in X1. subst c1.
  pose proof (encrypt_ok svc s2 Hk Hi) as X2. rewrite He2 in X2.
  apply (f_equal (fun r => match r with Ok x => x | Throw _ => [] end)) in X2.
  cbv beta iota in X2. subst c2.
  pose proof (utf8_encode_bytes _ Hkc) as Hkb.
  pose proof (utf8_encode_bytes _ Hic) as Hib.
  pose proof (key_expansion_round_keys _ Hk Hkb) as Hrk.
  set (w := key_expansion (utf8_encode (secretKey svc))) in *.
  set (ivb := utf8_encode (iv svc)) in *.
  assert (Hiv : wf_block ivb) by (split; assumption).
  assert (Hpb : bytes p).
  { pose proof (utf8_encode_bytes s1 Hs1) as H. rewrite E1 in H.
    apply Forall_app in H. tauto. }
  destruct (blocks_wf k p Hp Hpb) as [Hbl Hbn].
  pose proof (cbc_encrypt_wf w Hrk (blocks k p) ivb Hiv Hbl) as Hcw.
  destruct (concat_blocks_wf _ Hcw) as [Hcl _].
  rewrite cbc_encrypt_length, Hbn in Hcl.
  assert (Hshape : forall r,
    hex_encode
      (List.concat
         (cbc_encrypt w ivb
            (blocks (List.length (pkcs7_pad (p ++ r)) / 16)
                    (pkcs7_pad (p ++ r)))))
    = hex_encode (List.concat (cbc_encrypt w ivb (blocks k p)))
      ++ hex_encode
           (List.concat
              (cbc_encrypt w (last (cbc_encrypt w ivb (blocks k p)) ivb)
                 (blocks (List.length r / 16 + 1)
                         (r ++ repeat
                                 (Z.of_nat (16 - List.length (p ++ r) mod 16))
                                 (16 - List.length (p ++ r) mod 16)))))).
  { intros r. rewrite pkcs7_pad_length.
    replace (16 * (List.length (p ++ r) / 16 + 1) / 16)%nat
      with (k + (List.length r / 16 + 1))%nat.
    2:{ rewrite (Nat.mul_comm 16), Nat.div_mul by discriminate.
        rewrite length_app, Hp, (Nat.mul_comm 16 k).
        rewrite Nat.div_add_l by discriminate. lia. }
    unfold pkcs7_pad. rewrite <- app_assoc.
    rewrite (blocks_app k p _ _ Hp), cbc_encrypt_app, concat_app.
    apply hex_encode_app. }
  rewrite E1, E2, !Hshape.
  assert (Hlen : List.length
                   (hex_encode (List.concat (cbc_encrypt w ivb (blocks k p))))
                 = (32 * k)%nat).
  { rewrite hex_encode_length, Hcl. lia. }
  rewrite !firstn_app, Hlen, Nat.sub_diag. cbn [firstn].
  reflexivity.
Qed.

Lemma shared_prefix_shows_in_ciphertext_witness :
  firstn (32 * 1) (ciphertext_of (js "Once upon a time there was a fox."))
  = firstn (32 * 1) (ciphertext_of (js "Once upon a time, long ago.")).
Proof.
  apply (shared_prefix_shows_in_ciphertext sample_svc
           (js "Once upon a time there was a fox.")
           (js "Once upon a time, long ago.")
           _ _
           (js "Once upon a time") (js " there was a fox.")
           (js ", long ago.") 1).
  - exact sample_key_units.
  - exact sample_iv_units.
  - reflexivity.
  - reflexivity.
  - exact fox_units.
  - reflexivity.
  - reflexivity.
  - reflexivity.
  - vm_compute. reflexivity.
  - vm_compute. reflexivity.
Defined.
